(** * A shallow embedding of the rules engine of [chess_game.py]

    The Python program keeps one mutable [ChessGame] object.  Its board is a
    list of eight lists of cells, each cell holding [None] or a reference to
    a mutable [Piece] object that records its own [row] and [col].  The
    embedding keeps that structure: a store of piece objects addressed by
    references, a board of references, and the tracking flags of the game
    object.  Python exceptions are the [Raise] results of an error monad. *)

From Stdlib Require Import ZArith Bool Lia.
From stdpp Require Import base option list.

Open Scope Z_scope.

(** ** Enumerations and piece objects *)

Inductive PieceType := PAWN | ROOK | KNIGHT | BISHOP | QUEEN | KING.
Inductive PieceColor := WHITE | BLACK.

#[export] Instance PieceType_eq_dec : EqDecision PieceType.
Proof. solve_decision. Defined.
#[export] Instance PieceColor_eq_dec : EqDecision PieceColor.
Proof. solve_decision. Defined.

Abbreviation Square := (Z * Z)%type.

(** [class Piece]: the attributes set by [Piece.__init__]. *)
Record Piece := mkPiece {
  type : PieceType;
  color : PieceColor;
  row : Z;
  col : Z;
  has_moved : bool
}.

(** A reference to a piece object (Python object identity). *)
Definition ref : Type := nat.

(** One dictionary appended to [move_history]. *)
Record HistoryEntry := mkEntry {
  h_piece : ref;
  h_from : Square;
  h_to : Square;
  h_captured : option ref
}.

(** ** Python exceptions *)

Inductive PyError := IndexError | AttributeError.

Inductive result (A : Type) :=
| Ok (a : A)
| Raise (e : PyError).
Arguments Ok {A} a.
Arguments Raise {A} e.

#[export] Instance result_ret : MRet result := fun A a => Ok a.
#[export] Instance result_bind : MBind result := fun A B f m =>
  match m with
  | Ok a => f a
  | Raise e => Raise e
  end.

(** Python's short-circuit [and] over conditions that may raise. *)
Definition andM (a b : result bool) : result bool :=
  x ← a; if (x : bool) then b else Ok false.
Infix "<&&>" := andM (at level 41, right associativity).

(** [for x in xs: moves.extend(f x)] for a body that may raise. *)
Fixpoint extendM {A B} (f : A → result (list B)) (xs : list A) : result (list B) :=
  match xs with
  | [] => Ok []
  | x :: xs' => ys ← f x; zs ← extendM f xs'; Ok (ys ++ zs)
  end.

(** ** Python list indexing: negative indices count from the end, anything
    outside [-len, len) raises [IndexError]. *)

Definition py_norm (n i : Z) : option nat :=
  let j := if i <? 0 then i + n else i in
  if (0 <=? j) && (j <? n) then Some (Z.to_nat j) else None.

Definition py_index {A} (l : list A) (i : Z) : result A :=
  match py_norm (Z.of_nat (length l)) i with
  | Some j => match l !! j with Some x => Ok x | None => Raise IndexError end
  | None => Raise IndexError
  end.

Definition py_setitem {A} (l : list A) (i : Z) (x : A) : result (list A) :=
  match py_norm (Z.of_nat (length l)) i with
  | Some j => Ok (<[j := x]> l)
  | None => Raise IndexError
  end.

(** ** The game object *)

Abbreviation Board := (list (list (option ref))).

Record ChessGame := mkGame {
  objs : ref → Piece;          (* the piece objects, by reference *)
  next_ref : ref;              (* the next reference [Piece(...)] hands out *)
  board : Board;
  selected_piece : option ref;
  valid_moves : list Square;
  turn : PieceColor;
  white_king_moved : bool;
  black_king_moved : bool;
  white_rook_a_moved : bool;
  white_rook_h_moved : bool;
  black_rook_a_moved : bool;
  black_rook_h_moved : bool;
  en_passant_target : option Square;
  move_history : list HistoryEntry
}.

Definition set_objs (g : ChessGame) (o : ref → Piece) : ChessGame :=
  mkGame o (next_ref g) (board g) (selected_piece g) (valid_moves g) (turn g)
    (white_king_moved g) (black_king_moved g) (white_rook_a_moved g)
    (white_rook_h_moved g) (black_rook_a_moved g) (black_rook_h_moved g)
    (en_passant_target g) (move_history g).

Definition set_next_ref (g : ChessGame) (n : ref) : ChessGame :=
  mkGame (objs g) n (board g) (selected_piece g) (valid_moves g) (turn g)
    (white_king_moved g) (black_king_moved g) (white_rook_a_moved g)
    (white_rook_h_moved g) (black_rook_a_moved g) (black_rook_h_moved g)
    (en_passant_target g) (move_history g).

Definition set_board (g : ChessGame) (b : Board) : ChessGame :=
  mkGame (objs g) (next_ref g) b (selected_piece g) (valid_moves g) (turn g)
    (white_king_moved g) (black_king_moved g) (white_rook_a_moved g)
    (white_rook_h_moved g) (black_rook_a_moved g) (black_rook_h_moved g)
    (en_passant_target g) (move_history g).

Definition set_selection (g : ChessGame) (s : option ref) (v : list Square) : ChessGame :=
  mkGame (objs g) (next_ref g) (board g) s v (turn g)
    (white_king_moved g) (black_king_moved g) (white_rook_a_moved g)
    (white_rook_h_moved g) (black_rook_a_moved g) (black_rook_h_moved g)
    (en_passant_target g) (move_history g).

Definition set_turn (g : ChessGame) (t : PieceColor) : ChessGame :=
  mkGame (objs g) (next_ref g) (board g) (selected_piece g) (valid_moves g) t
    (white_king_moved g) (black_king_moved g) (white_rook_a_moved g)
    (white_rook_h_moved g) (black_rook_a_moved g) (black_rook_h_moved g)
    (en_passant_target g) (move_history g).

Definition set_white_king_moved (g : ChessGame) (x : bool) : ChessGame :=
  mkGame (objs g) (next_ref g) (board g) (selected_piece g) (valid_moves g) (turn g)
    x (black_king_moved g) (white_rook_a_moved g)
    (white_rook_h_moved g) (black_rook_a_moved g) (black_rook_h_moved g)
    (en_passant_target g) (move_history g).

Definition set_black_king_moved (g : ChessGame) (x : bool) : ChessGame :=
  mkGame (objs g) (next_ref g) (board g) (selected_piece g) (valid_moves g) (turn g)
    (white_king_moved g) x (white_rook_a_moved g)
    (white_rook_h_moved g) (black_rook_a_moved g) (black_rook_h_moved g)
    (en_passant_target g) (move_history g).

Definition set_white_rook_a_moved (g : ChessGame) (x : bool) : ChessGame :=
  mkGame (objs g) (next_ref g) (board g) (selected_piece g) (valid_moves g) (turn g)
    (white_king_moved g) (black_king_moved g) x
    (white_rook_h_moved g) (black_rook_a_moved g) (black_rook_h_moved g)
    (en_passant_target g) (move_history g).

Definition set_white_rook_h_moved (g : ChessGame) (x : bool) : ChessGame :=
  mkGame (objs g) (next_ref g) (board g) (selected_piece g) (valid_moves g) (turn g)
    (white_king_moved g) (black_king_moved g) (white_rook_a_moved g)
    x (black_rook_a_moved g) (black_rook_h_moved g)
    (en_passant_target g) (move_history g).

Definition set_black_rook_a_moved (g : ChessGame) (x : bool) : ChessGame :=
  mkGame (objs g) (next_ref g) (board g) (selected_piece g) (valid_moves g) (turn g)
    (white_king_moved g) (black_king_moved g) (white_rook_a_moved g)
    (white_rook_h_moved g) x (black_rook_h_moved g)
    (en_passant_target g) (move_history g).

Definition set_black_rook_h_moved (g : ChessGame) (x : bool) : ChessGame :=
  mkGame (objs g) (next_ref g) (board g) (selected_piece g) (valid_moves g) (turn g)
    (white_king_moved g) (black_king_moved g) (white_rook_a_moved g)
    (white_rook_h_moved g) (black_rook_a_moved g) x
    (en_passant_target g) (move_history g).

Definition set_en_passant_target (g : ChessGame) (t : option Square) : ChessGame :=
  mkGame (objs g) (next_ref g) (board g) (selected_piece g) (valid_moves g) (turn g)
    (white_king_moved g) (black_king_moved g) (white_rook_a_moved g)
    (white_rook_h_moved g) (black_rook_a_moved g) (black_rook_h_moved g)
    t (move_history g).

Definition set_move_history (g : ChessGame) (h : list HistoryEntry) : ChessGame :=
  mkGame (objs g) (next_ref g) (board g) (selected_piece g) (valid_moves g) (turn g)
    (white_king_moved g) (black_king_moved g) (white_rook_a_moved g)
    (white_rook_h_moved g) (black_rook_a_moved g) (black_rook_h_moved g)
    (en_passant_target g) h.

(** *** Attribute writes on a piece object *)

Definition upd_obj (g : ChessGame) (p : ref) (f : Piece → Piece) : ChessGame :=
  set_objs g (fun q => if Nat.eqb q p then f (objs g p) else objs g q).

(** [piece.row, piece.col = r, c] *)
Definition set_pos (g : ChessGame) (p : ref) (r c : Z) : ChessGame :=
  upd_obj g p (fun pc => mkPiece (type pc) (color pc) r c (has_moved pc)).

(** [piece.col = c] *)
Definition set_col (g : ChessGame) (p : ref) (c : Z) : ChessGame :=
  upd_obj g p (fun pc => mkPiece (type pc) (color pc) (row pc) c (has_moved pc)).

(** [piece.has_moved = True] *)
Definition set_has_moved (g : ChessGame) (p : ref) : ChessGame :=
  upd_obj g p (fun pc => mkPiece (type pc) (color pc) (row pc) (col pc) true).

(** [Piece(piece_type, color, row, col)]: a new object, [has_moved = False]. *)
Definition new_piece (g : ChessGame) (t : PieceType) (c : PieceColor) (r k : Z)
  : ref * ChessGame :=
  let p := next_ref g in
  (p, set_next_ref (set_objs g (fun q => if Nat.eqb q p then mkPiece t c r k false
                                         else objs g q)) (S p)).

(** *** Cell reads and writes: [self.board[r][c]] and [self.board[r][c] = v] *)

Definition board_get (g : ChessGame) (r c : Z) : result (option ref) :=
  rw ← py_index (board g) r; py_index rw c.

Definition board_set (g : ChessGame) (r c : Z) (v : option ref) : result ChessGame :=
  rw ← py_index (board g) r;
  rw' ← py_setitem rw c v;
  b' ← py_setitem (board g) r rw';
  Ok (set_board g b').

(** [0 <= x < 8] *)
Definition in8 (x : Z) : bool := (0 <=? x) && (x <? 8).

Definition color_eqb (a b : PieceColor) : bool := bool_decide (a = b).
Definition type_eqb (a b : PieceType) : bool := bool_decide (a = b).

(** ** Move generation *)

(** [direction = -1 if piece.color == PieceColor.WHITE else 1] *)
Definition pawn_direction (c : PieceColor) : Z :=
  match c with WHITE => -1 | BLACK => 1 end.

(** The en-passant block of [get_pawn_moves]. *)
Definition en_passant_moves (g : ChessGame) (pc : Piece) : list Square :=
  let direction := pawn_direction (color pc) in
  match en_passant_target g with
  | Some (ep_row, ep_col) =>
      if (row pc =? ep_row) && (Z.abs (col pc - ep_col) =? 1) then
        let capture_row := row pc + direction in
        if capture_row =? ep_row - direction then [(capture_row, ep_col)] else []
      else []
  | None => []
  end.

Definition get_pawn_moves (g : ChessGame) (p : ref) : result (list Square) :=
  let pc := objs g p in
  let direction := pawn_direction (color pc) in
  (* Forward move *)
  let new_row := row pc + direction in
  forward ←
    (free ← Ok (in8 new_row) <&&>
            (t ← board_get g new_row (col pc); Ok (bool_decide (t = None)));
     if (free : bool) then
       (* Double move from starting position *)
       if (color_eqb (color pc) WHITE && (row pc =? 6))
          || (color_eqb (color pc) BLACK && (row pc =? 1)) then
         let two_rows_ahead := row pc + 2 * direction in
         t2 ← board_get g two_rows_ahead (col pc);
         match t2 with
         | None => Ok [(new_row, col pc); (two_rows_ahead, col pc)]
         | Some _ => Ok [(new_row, col pc)]
         end
       else Ok [(new_row, col pc)]
     else Ok []);
  (* Captures *)
  captures ←
    extendM (fun c =>
      if in8 c then
        let new_row := row pc + direction in
        if in8 new_row then
          target ← board_get g new_row c;
          match target with
          | Some q => if negb (color_eqb (color (objs g q)) (color pc))
                      then Ok [(new_row, c)] else Ok []
          | None => Ok []
          end
        else Ok []
      else Ok []) [col pc - 1; col pc + 1];
  (* En passant *)
  Ok (forward ++ captures ++ en_passant_moves g pc).

(** The inner loop [for i in range(1, 8)] of the sliding pieces, with its
    three [break]s, along one direction. *)
Fixpoint slide (g : ChessGame) (pc : Piece) (dr dc : Z) (steps : list Z)
  : result (list Square) :=
  match steps with
  | [] => Ok []
  | i :: steps' =>
      let new_row := row pc + i * dr in
      let new_col := col pc + i * dc in
      if negb (in8 new_row && in8 new_col) then Ok []
      else
        target ← board_get g new_row new_col;
        match target with
        | None => rest ← slide g pc dr dc steps'; Ok ((new_row, new_col) :: rest)
        | Some q =>
            if negb (color_eqb (color (objs g q)) (color pc))
            then Ok [(new_row, new_col)]
            else Ok []
        end
  end.

Definition range_1_8 : list Z := [1; 2; 3; 4; 5; 6; 7].

Definition slide_moves (g : ChessGame) (p : ref) (directions : list (Z * Z))
  : result (list Square) :=
  extendM (fun d => slide g (objs g p) d.1 d.2 range_1_8) directions.

Definition get_rook_moves (g : ChessGame) (p : ref) : result (list Square) :=
  slide_moves g p [(0, 1); (0, -1); (1, 0); (-1, 0)].

Definition get_bishop_moves (g : ChessGame) (p : ref) : result (list Square) :=
  slide_moves g p [(1, 1); (1, -1); (-1, 1); (-1, -1)].

Definition get_queen_moves (g : ChessGame) (p : ref) : result (list Square) :=
  a ← get_rook_moves g p; b ← get_bishop_moves g p; Ok (a ++ b).

(** The loop shared by [get_knight_moves] and the first part of
    [get_king_moves]: fixed offsets, on the board, not on an own piece. *)
Definition offset_moves (g : ChessGame) (p : ref) (offsets : list (Z * Z))
  : result (list Square) :=
  let pc := objs g p in
  extendM (fun d =>
    let new_row := row pc + d.1 in
    let new_col := col pc + d.2 in
    if in8 new_row && in8 new_col then
      target ← board_get g new_row new_col;
      match target with
      | None => Ok [(new_row, new_col)]
      | Some q => if negb (color_eqb (color (objs g q)) (color pc))
                  then Ok [(new_row, new_col)] else Ok []
      end
    else Ok []) offsets.

Definition get_knight_moves (g : ChessGame) (p : ref) : result (list Square) :=
  offset_moves g p [(-2, -1); (-2, 1); (-1, -2); (-1, 2);
                    (1, -2); (1, 2); (2, -1); (2, 1)].

(** [self.board[r][c] is None] *)
Definition is_empty (g : ChessGame) (r c : Z) : result bool :=
  t ← board_get g r c; Ok (bool_decide (t = None)).

(** [self.board[r][c] and self.board[r][c].type == ROOK and
     self.board[r][c].color == k]; the three reads of the cell see the same
    value, so it is read once. *)
Definition is_rook_of (g : ChessGame) (r c : Z) (k : PieceColor) : result bool :=
  t ← board_get g r c;
  match t with
  | None => Ok false
  | Some q => Ok (type_eqb (type (objs g q)) ROOK && color_eqb (color (objs g q)) k)
  end.

(** One [if (...): moves.append(dest)] of the castling block. *)
Definition castle_option (g : ChessGame) (king_moved rook_moved : bool)
    (between : list Square) (rook_sq : Square) (k : PieceColor) (dest : Square)
  : result (list Square) :=
  ok ← Ok (negb king_moved) <&&> Ok (negb rook_moved) <&&>
       foldr (fun s acc => is_empty g s.1 s.2 <&&> acc)
             (is_rook_of g rook_sq.1 rook_sq.2 k) between;
  Ok (if (ok : bool) then [dest] else []).

Definition castling_moves (g : ChessGame) (pc : Piece) : result (list Square) :=
  if negb (has_moved pc) then
    match color pc with
    | WHITE =>
        ks ← castle_option g (white_king_moved g) (white_rook_h_moved g)
               [(7, 5); (7, 6)] (7, 7) WHITE (7, 6);
        qs ← castle_option g (white_king_moved g) (white_rook_a_moved g)
               [(7, 1); (7, 2); (7, 3)] (7, 0) WHITE (7, 2);
        Ok (ks ++ qs)
    | BLACK =>
        ks ← castle_option g (black_king_moved g) (black_rook_h_moved g)
               [(0, 5); (0, 6)] (0, 7) BLACK (0, 6);
        qs ← castle_option g (black_king_moved g) (black_rook_a_moved g)
               [(0, 1); (0, 2); (0, 3)] (0, 0) BLACK (0, 2);
        Ok (ks ++ qs)
    end
  else Ok [].

Definition king_offsets : list (Z * Z) :=
  [(-1, -1); (-1, 0); (-1, 1); (0, -1); (0, 1); (1, -1); (1, 0); (1, 1)].

Definition get_king_moves (g : ChessGame) (p : ref) : result (list Square) :=
  regular ← offset_moves g p king_offsets;
  castles ← castling_moves g (objs g p);
  Ok (regular ++ castles).

(** ** Check detection *)

(** [get_valid_moves_for_opponent]: the squares a piece is taken to attack. *)
Definition get_valid_moves_for_opponent (g : ChessGame) (p : ref)
  : result (list Square) :=
  let pc := objs g p in
  match type pc with
  | PAWN =>
      (* Reverse direction for checking attacks *)
      let direction := match color pc with WHITE => 1 | BLACK => -1 end in
      extendM (fun dc =>
        let new_row := row pc + direction in
        let new_col := col pc + dc in
        if in8 new_row && in8 new_col then Ok [(new_row, new_col)] else Ok [])
        [-1; 1]
  | ROOK => get_rook_moves g p
  | KNIGHT => get_knight_moves g p
  | BISHOP => get_bishop_moves g p
  | QUEEN => get_queen_moves g p
  | KING => ms ← get_king_moves g p; Ok (take 8 ms)
  end.

Definition range8 : list Z := [0; 1; 2; 3; 4; 5; 6; 7].

(** The squares in the order the nested [for row in range(8): for col in
    range(8)] loops visit them. *)
Definition all_squares : list Square :=
  r ← range8; c ← range8; [(r, c)].

(** [king_pos in moves] *)
Definition square_in (s : Square) (l : list Square) : bool :=
  existsb (fun m => (m.1 =? s.1) && (m.2 =? s.2)) l.

(** The first loop nest of [is_king_in_check]: both [break]s leave the nest at
    the first king of the colour, in visiting order. *)
Fixpoint find_king (g : ChessGame) (k : PieceColor) (sqs : list Square)
  : result (option Square) :=
  match sqs with
  | [] => Ok None
  | (r, c) :: rest =>
      t ← board_get g r c;
      match t with
      | Some q =>
          if type_eqb (type (objs g q)) KING && color_eqb (color (objs g q)) k
          then Ok (Some (r, c))
          else find_king g k rest
      | None => find_king g k rest
      end
  end.

Definition opponent (k : PieceColor) : PieceColor :=
  match k with WHITE => BLACK | BLACK => WHITE end.

(** The second loop nest: every opposing piece has its coordinates set to
    the cell it is found on, its attack squares computed, and its
    coordinates put back. *)
Fixpoint attack_scan (g : ChessGame) (opponent_color : PieceColor)
    (king_pos : Square) (sqs : list Square) : result (bool * ChessGame) :=
  match sqs with
  | [] => Ok (false, g)
  | (r, c) :: rest =>
      t ← board_get g r c;
      match t with
      | Some q =>
          if color_eqb (color (objs g q)) opponent_color then
            let original_row := row (objs g q) in
            let original_col := col (objs g q) in
            let g1 := set_pos g q r c in
            moves ← get_valid_moves_for_opponent g1 q;
            let g2 := set_pos g1 q original_row original_col in
            if square_in king_pos moves then Ok (true, g2)
            else attack_scan g2 opponent_color king_pos rest
          else attack_scan g opponent_color king_pos rest
      | None => attack_scan g opponent_color king_pos rest
      end
  end.

Definition is_king_in_check (g : ChessGame) (k : PieceColor)
  : result (bool * ChessGame) :=
  king_pos ← find_king g k all_squares;
  match king_pos with
  | None => Ok (false, g)
  | Some pos => attack_scan g (opponent k) pos all_squares
  end.

Definition move_puts_king_in_check (g : ChessGame) (p : ref) (dest_row dest_col : Z)
  : result (bool * ChessGame) :=
  (* Make temporary move *)
  original_piece ← board_get g dest_row dest_col;
  let original_row := row (objs g p) in
  let original_col := col (objs g p) in
  g1 ← board_set g dest_row dest_col (Some p);
  g2 ← board_set g1 (row (objs g1 p)) (col (objs g1 p)) None;
  let g3 := set_pos g2 p dest_row dest_col in
  (* Check if king is in check after move *)
  '(in_check, g4) ← is_king_in_check g3 (color (objs g3 p));
  (* Undo move *)
  g5 ← board_set g4 original_row original_col (Some p);
  g6 ← board_set g5 dest_row dest_col original_piece;
  let g7 := set_pos g6 p original_row original_col in
  Ok (in_check, g7).

(** The dispatch on the piece type at the head of [get_valid_moves]. *)
Definition pseudo_moves (g : ChessGame) (p : ref) : result (list Square) :=
  match type (objs g p) with
  | PAWN => get_pawn_moves g p
  | ROOK => get_rook_moves g p
  | KNIGHT => get_knight_moves g p
  | BISHOP => get_bishop_moves g p
  | QUEEN => get_queen_moves g p
  | KING => get_king_moves g p
  end.

(** The filtering loop of [get_valid_moves]. *)
Fixpoint filter_moves (g : ChessGame) (p : ref) (moves : list Square)
  : result (list Square * ChessGame) :=
  match moves with
  | [] => Ok ([], g)
  | m :: rest =>
      '(in_check, g1) ← move_puts_king_in_check g p m.1 m.2;
      '(valid, g2) ← filter_moves g1 p rest;
      Ok (if (in_check : bool) then valid else m :: valid, g2)
  end.

Definition get_valid_moves (g : ChessGame) (p : ref)
  : result (list Square * ChessGame) :=
  moves ← pseudo_moves g p;
  filter_moves g p moves.

(** ** Applying a move *)

(** The blocks of [make_move], in the order of the source. *)

(** "Handle special moves": a king moving two columns takes the rook of that
    side of the board with it. *)
Definition castle_rook (g : ChessGame) (p : ref) (dest_col : Z) : result ChessGame :=
  if type_eqb (type (objs g p)) KING then
    if Z.abs (dest_col - col (objs g p)) =? 2 then
      let rook_start_col := if dest_col >? col (objs g p) then 7 else 0 in
      let rook_dest_col :=
        if dest_col >? col (objs g p) then dest_col - 1 else dest_col + 1 in
      (* Move the rook *)
      rook ← board_get g (row (objs g p)) rook_start_col;
      g1 ← board_set g (row (objs g p)) rook_dest_col rook;
      g2 ← board_set g1 (row (objs g1 p)) rook_start_col None;
      match rook with
      | None => Raise AttributeError
      | Some rk => Ok (set_has_moved (set_col g2 rk rook_dest_col) rk)
      end
    else Ok g
  else Ok g.

(** "Handle en passant capture" *)
Definition capture_en_passant (g : ChessGame) (p : ref) (dest_row dest_col : Z)
  : result ChessGame :=
  if type_eqb (type (objs g p)) PAWN then
    match en_passant_target g with
    | Some (ep_row, ep_col) =>
        if (dest_row =? ep_row) && (dest_col =? ep_col) then
          (* Remove the captured pawn *)
          let captured_row := row (objs g p) in
          board_set g captured_row dest_col None
        else Ok g
    | None => Ok g
    end
  else Ok g.

(** "Record move for en passant possibility check" *)
Definition record_en_passant (g : ChessGame) (p : ref) (dest_row dest_col : Z)
  : ChessGame :=
  if type_eqb (type (objs g p)) PAWN
     && (Z.abs (dest_row - row (objs g p)) =? 2)
  then set_en_passant_target g (Some ((dest_row + row (objs g p)) / 2, dest_col))
  else set_en_passant_target g None.

(** "Move the piece" *)
Definition relocate (g : ChessGame) (p : ref) (dest_row dest_col : Z)
  : result ChessGame :=
  g1 ← board_set g dest_row dest_col (Some p);
  g2 ← board_set g1 (row (objs g1 p)) (col (objs g1 p)) None;
  Ok (set_has_moved (set_pos g2 p dest_row dest_col) p).

(** "Update castling rights" *)
Definition update_castling_rights (g : ChessGame) (p : ref) : ChessGame :=
  match type (objs g p) with
  | KING =>
      match color (objs g p) with
      | WHITE => set_white_king_moved g true
      | BLACK => set_black_king_moved g true
      end
  | ROOK =>
      match color (objs g p) with
      | WHITE =>
          if col (objs g p) =? 0 then set_white_rook_a_moved g true
          else if col (objs g p) =? 7 then set_white_rook_h_moved g true
          else g
      | BLACK =>
          if col (objs g p) =? 0 then set_black_rook_a_moved g true
          else if col (objs g p) =? 7 then set_black_rook_h_moved g true
          else g
      end
  | _ => g
  end.

(** "Handle pawn promotion" *)
Definition promote (g : ChessGame) (p : ref) (dest_row dest_col : Z)
  : result ChessGame :=
  if type_eqb (type (objs g p)) PAWN then
    if (color_eqb (color (objs g p)) WHITE && (row (objs g p) =? 0))
       || (color_eqb (color (objs g p)) BLACK && (row (objs g p) =? 7))
    then
      let '(q, g1) := new_piece g QUEEN (color (objs g p)) dest_row dest_col in
      board_set g1 dest_row dest_col (Some q)
    else Ok g
  else Ok g.

Definition make_move (g : ChessGame) (p : ref) (dest_row dest_col : Z)
  : result ChessGame :=
  g1 ← castle_rook g p dest_col;
  g2 ← capture_en_passant g1 p dest_row dest_col;
  let g3 := record_en_passant g2 p dest_row dest_col in
  (* Capture piece if exists *)
  captured_piece ← board_get g3 dest_row dest_col;
  g4 ← relocate g3 p dest_row dest_col;
  let g5 := update_castling_rights g4 p in
  g6 ← promote g5 p dest_row dest_col;
  (* Switch turn *)
  let g7 := set_turn g6 (opponent (turn g6)) in
  (* Add to move history *)
  let g8 := set_move_history g7
    (move_history g7 ++
       [mkEntry p (row (objs g7 p), col (objs g7 p)) (dest_row, dest_col)
                captured_piece]) in
  (* Clear selection *)
  Ok (set_selection g8 None []).

(** ** The initial position *)

(** [board[r][c] = Piece(t, k, r, c)] on the local board of
    [create_initial_board]; [r] and [c] are always on the board there. *)
Definition place (t : PieceType) (k : PieceColor) (r c : Z)
    (st : Board * ChessGame) : Board * ChessGame :=
  let '(p, g) := new_piece st.2 t k r c in
  (alter (fun rw => <[Z.to_nat c := Some p]> rw) (Z.to_nat r) st.1, g).

Definition back_row : list PieceType :=
  [ROOK; KNIGHT; BISHOP; QUEEN; KING; BISHOP; KNIGHT; ROOK].

Definition create_initial_board (g : ChessGame) : Board * ChessGame :=
  let empty : Board := replicate 8 (replicate 8 None) in
  let pawns :=
    foldl (fun st c => place PAWN WHITE 6 c (place PAWN BLACK 1 c st))
          (empty, g) range8 in
  foldl (fun st ct => place ct.2 WHITE 7 ct.1 (place ct.2 BLACK 0 ct.1 st))
        pawns (zip range8 back_row).

(** The game object before any piece exists.  Only references below
    [next_ref] denote objects; the store is total for convenience. *)
Definition no_objects : ChessGame :=
  mkGame (fun _ => mkPiece PAWN WHITE 0 0 false) 0%nat [] None [] WHITE
         false false false false false false None [].

(** The rules-engine part of [ChessGame.__init__]. *)
Definition new_game : ChessGame :=
  let '(b, g) := create_initial_board no_objects in set_board g b.

(** ** Playing through the event loop

    A click on a piece of the side to move selects it and stores
    [get_valid_moves]; a second click applies the move only when the square
    is among them.  [play] runs a list of such click pairs (without the
    reply of the random mover) and gives [None] as soon as a pair is not
    applied or an exception is raised. *)

Definition click_move (g : ChessGame) (src dst : Square) : option ChessGame :=
  match board_get g src.1 src.2 with
  | Ok (Some p) =>
      if color_eqb (color (objs g p)) (turn g) then
        match get_valid_moves g p with
        | Ok (vs, g1) =>
            if square_in dst vs then
              match make_move (set_selection g1 (Some p) vs) p dst.1 dst.2 with
              | Ok g2 => Some g2
              | Raise _ => None
              end
            else None
        | Raise _ => None
        end
      else None
  | _ => None
  end.

Fixpoint play (g : ChessGame) (ms : list (Square * Square)) : option ChessGame :=
  match ms with
  | [] => Some g
  | (src, dst) :: rest =>
      match click_move g src dst with
      | Some g1 => play g1 rest
      | None => None
      end
  end.

(** The kind and colour of the piece on a cell, if any. *)
Definition piece_at (g : ChessGame) (r c : Z) : option (PieceType * PieceColor) :=
  match board_get g r c with
  | Ok (Some q) => Some (type (objs g q), color (objs g q))
  | _ => None
  end.

(** ** Well-formed boards

    [create_initial_board] builds eight rows of eight cells and no statement
    of the program changes a length, so every board the program sees has
    this shape. *)

Definition board_shape (b : Board) : bool :=
  Nat.eqb (length b) 8 && forallb (fun rw => Nat.eqb (length rw) 8) b.

(** The content of a cell, and the board after one cell write, as pure
    functions; on a well-shaped board and on-board coordinates they are what
    [board_get] and [board_set] compute. *)
Definition cell (b : Board) (r c : Z) : option ref :=
  match b !! Z.to_nat r with
  | Some rw => match rw !! Z.to_nat c with Some v => v | None => None end
  | None => None
  end.

Definition cell_upd (b : Board) (r c : Z) (v : option ref) : Board :=
  match b !! Z.to_nat r with
  | Some rw => <[Z.to_nat r := <[Z.to_nat c := v]> rw]> b
  | None => b
  end.

(** The piece stands on the cell its own coordinates name. *)
Definition on_board (g : ChessGame) (p : ref) : bool :=
  in8 (row (objs g p)) && in8 (col (objs g p))
  && bool_decide (cell (board g) (row (objs g p)) (col (objs g p)) = Some p).

(** Every piece on the board records the coordinates of its cell. *)
Definition coords_agree (g : ChessGame) : bool :=
  forallb (fun s : Square =>
    match cell (board g) s.1 s.2 with
    | Some q => (row (objs g q) =? s.1) && (col (objs g q) =? s.2)
    | None => true
    end) all_squares.

(** A cell holds a piece of colour [k]. *)
Definition occupied_by (g : ChessGame) (k : PieceColor) (s : Square) : bool :=
  match cell (board g) s.1 s.2 with
  | Some q => color_eqb (color (objs g q)) k
  | None => false
  end.

(** A destination that is on the board and not held by a piece of colour [k]. *)
Definition good_dest (g : ChessGame) (k : PieceColor) (s : Square) : Prop :=
  in8 s.1 = true ∧ in8 s.2 = true ∧ occupied_by g k s = false.

(** The call returns (no exception) a list whose elements all satisfy [P]. *)
Definition returns_all (P : Square → Prop) (r : result (list Square)) : Prop :=
  ∃ l, r = Ok l ∧ Forall P l.

(** Both games agree on everything but, possibly, the representation of the
    store, and the stores hold the same object under every reference. *)
Definition same_game (g g' : ChessGame) : Prop :=
  g' = set_objs g (objs g') ∧ ∀ q, objs g' q = objs g q.

Definition sq_on_board (s : Square) : bool := in8 s.1 && in8 s.2.

(** No cell holds a king of colour [k]. *)
Definition no_king (g : ChessGame) (k : PieceColor) : bool :=
  forallb (fun s : Square =>
    match cell (board g) s.1 s.2 with
    | Some q => negb (type_eqb (type (objs g q)) KING && color_eqb (color (objs g q)) k)
    | None => true
    end) all_squares.

(** The six tracking attributes behind the castling rights. *)
Definition moved_flags (g : ChessGame) : list bool :=
  [white_king_moved g; black_king_moved g; white_rook_a_moved g;
   white_rook_h_moved g; black_rook_a_moved g; black_rook_h_moved g].

(** ** Positions used by the examples

    Each line is a list of (origin, destination) click pairs played from the
    initial position; squares are (row, col) with row 0 Black's back rank. *)

(** 1. e4 a6 2. e5 d5: Black's d-pawn has just passed the white pawn on e5. *)
Definition en_passant_line : list (Square * Square) :=
  [((6, 4), (4, 4)); ((1, 0), (2, 0)); ((4, 4), (3, 4)); ((1, 3), (3, 3))].

(** 1. e4 e5 2. Ke2 d5 3. Ke3 d4: the black pawn on d4 attacks e3. *)
Definition pawn_check_line : list (Square * Square) :=
  [((6, 4), (4, 4)); ((1, 4), (3, 4)); ((7, 4), (6, 4)); ((1, 3), (3, 3));
   ((6, 4), (5, 4)); ((3, 3), (4, 3))].

(** 1. Nc3 a6: the white rook on a1 can now step to b1. *)
Definition rook_line : list (Square * Square) :=
  [((7, 1), (5, 2)); ((1, 0), (2, 0))].

(** 1. Nf3 a6 2. e3 b6 3. Be2 c6: White may castle king-side. *)
Definition castle_ready_line : list (Square * Square) :=
  [((7, 6), (5, 5)); ((1, 0), (2, 0)); ((6, 4), (5, 4)); ((1, 1), (2, 1));
   ((7, 5), (6, 4)); ((1, 2), (2, 2))].

(** 1. h4 a6 2. h5 a5 3. h6 a4 4. hxg7 a3: the white pawn stands on g7. *)
Definition promotion_line : list (Square * Square) :=
  [((6, 7), (4, 7)); ((1, 0), (2, 0)); ((4, 7), (3, 7)); ((2, 0), (3, 0));
   ((3, 7), (2, 7)); ((3, 0), (4, 0)); ((2, 7), (1, 6)); ((4, 0), (5, 0))].

Definition position_after (ms : list (Square * Square)) : ChessGame :=
  match play new_game ms with
  | Some g => g
  | None => new_game
  end.

(** The initial position with the white king taken off the board. *)
Definition without_white_king : ChessGame :=
  set_board new_game (cell_upd (board new_game) 7 4 None).

(** ** Mouse positions

    The module constants and [get_square_from_mouse]; [square_rect] is the
    rectangle [(x, y, SQUARE_SIZE, SQUARE_SIZE)] that [draw_board] paints
    for the square [(row, col)]. *)

Definition SCREEN_WIDTH : Z := 800.
Definition SCREEN_HEIGHT : Z := 800.
Definition BOARD_SIZE : Z := 640.
Definition SQUARE_SIZE : Z := BOARD_SIZE / 8.
Definition MARGIN_X : Z := (SCREEN_WIDTH - BOARD_SIZE) / 2.
Definition MARGIN_Y : Z := (SCREEN_HEIGHT - BOARD_SIZE) / 2.

Definition get_square_from_mouse (pos : Z * Z) : option Square :=
  let '(x, y) := pos in
  if (MARGIN_X <=? x) && (x <? MARGIN_X + BOARD_SIZE)
     && ((MARGIN_Y <=? y) && (y <? MARGIN_Y + BOARD_SIZE)) then
    let col := (x - MARGIN_X) / SQUARE_SIZE in
    let row := (y - MARGIN_Y) / SQUARE_SIZE in
    if in8 row && in8 col then Some (row, col) else None
  else None.

Definition square_rect (row col : Z) : Z * Z * Z * Z :=
  let x := MARGIN_X + col * SQUARE_SIZE in
  let y := MARGIN_Y + row * SQUARE_SIZE in
  (x, y, SQUARE_SIZE, SQUARE_SIZE).

(** The pixel lies in the rectangle [(x0, y0, w, h)]. *)
Definition in_rect (pos : Z * Z) (rect : Z * Z * Z * Z) : Prop :=
  let '(x0, y0, w, h) := rect in
  x0 ≤ pos.1 < x0 + w ∧ y0 ≤ pos.2 < y0 + h.

(** ** Geometry of the generated moves *)

(** The first [n - 1] squares from [(r, c)] in direction [(dr, dc)] are on
    the board and empty. *)
Definition ray_clear (g : ChessGame) (r c dr dc n : Z) : Prop :=
  ∀ j, 1 ≤ j < n →
       in8 (r + j * dr) = true ∧ in8 (c + j * dc) = true
       ∧ cell (board g) (r + j * dr) (c + j * dc) = None.

(** [s] is reached from the square of [p] by [i] steps, [1 <= i <= 7], in
    one of the directions, over empty squares, and is on the board and not
    held by a piece of the colour of [p]. *)
Definition slides_to (g : ChessGame) (p : ref) (directions : list (Z * Z))
    (s : Square) : Prop :=
  ∃ d i, In d directions ∧ 1 ≤ i ≤ 7
         ∧ s = (row (objs g p) + i * d.1, col (objs g p) + i * d.2)
         ∧ in8 s.1 = true ∧ in8 s.2 = true
         ∧ ray_clear g (row (objs g p)) (col (objs g p)) d.1 d.2 i
         ∧ occupied_by g (color (objs g p)) s = false.

(** A cell holds a rook of colour [k]. *)
Definition rook_at (g : ChessGame) (s : Square) (k : PieceColor) : Prop :=
  ∃ q, cell (board g) s.1 s.2 = Some q
       ∧ type (objs g q) = ROOK ∧ color (objs g q) = k.

(** What one castling condition of [get_king_moves] asks for. *)
Definition castle_ready (g : ChessGame) (king_moved rook_moved : bool)
    (between : list Square) (rook_sq : Square) (k : PieceColor) : Prop :=
  king_moved = false ∧ rook_moved = false
  ∧ (∀ b, In b between → cell (board g) b.1 b.2 = None)
  ∧ rook_at g rook_sq k.

(** The castling block of [get_king_moves] offers [s] to the king [pc]. *)
Definition castling_offer (g : ChessGame) (pc : Piece) (s : Square) : Prop :=
  has_moved pc = false ∧
  match color pc with
  | WHITE =>
      (s = (7, 6) ∧ castle_ready g (white_king_moved g) (white_rook_h_moved g)
                       [(7, 5); (7, 6)] (7, 7) WHITE)
      ∨ (s = (7, 2) ∧ castle_ready g (white_king_moved g) (white_rook_a_moved g)
                         [(7, 1); (7, 2); (7, 3)] (7, 0) WHITE)
  | BLACK =>
      (s = (0, 6) ∧ castle_ready g (black_king_moved g) (black_rook_h_moved g)
                       [(0, 5); (0, 6)] (0, 7) BLACK)
      ∨ (s = (0, 2) ∧ castle_ready g (black_king_moved g) (black_rook_a_moved g)
                         [(0, 1); (0, 2); (0, 3)] (0, 0) BLACK)
  end.

(** The pawn stands on the rank it starts the game on. *)
Definition pawn_start_rank (pc : Piece) : Prop :=
  (color pc = WHITE ∧ row pc = 6) ∨ (color pc = BLACK ∧ row pc = 1).

(** ** Well-formed games

    What every position of a game satisfies: the board is 8 x 8, every piece
    on it records the coordinates of its cell and is an object that was
    created, and a king not yet marked as moved stands on the e-file of its
    back rank. *)

Definition home_row (k : PieceColor) : Z :=
  match k with WHITE => 7 | BLACK => 0 end.

Definition cell_ok (g : ChessGame) (s : Square) : bool :=
  match cell (board g) s.1 s.2 with
  | Some q =>
      (row (objs g q) =? s.1) && (col (objs g q) =? s.2)
      && Nat.ltb q (next_ref g)
      && (if type_eqb (type (objs g q)) KING && negb (has_moved (objs g q))
          then (s.1 =? home_row (color (objs g q))) && (s.2 =? 4)
          else true)
  | None => true
  end.

Definition well_formed (g : ChessGame) : bool :=
  board_shape (board g) && forallb (cell_ok g) all_squares.

(** The same, for one piece [q] found on the cell [(r, c)]. *)
Definition piece_ok (g : ChessGame) (q : ref) (r c : Z) : Prop :=
  row (objs g q) = r ∧ col (objs g q) = c ∧ (q < next_ref g)%nat
  ∧ (type (objs g q) = KING → has_moved (objs g q) = false →
     r = home_row (color (objs g q)) ∧ c = 4).

(** ** What the check detector decides *)

(** The opposing piece [q], taken to stand on [(r, c)] as the detector
    does, has [target] among its attack squares. *)
Definition attacks (g : ChessGame) (r c : Z) (q : ref) (target : Square) : Prop :=
  ∃ ms, get_valid_moves_for_opponent (set_pos g q r c) q = Ok ms ∧ In target ms.

(** A king of colour [k] stands on the cell. *)
Definition king_at (g : ChessGame) (k : PieceColor) (s : Square) : Prop :=
  ∃ q, cell (board g) s.1 s.2 = Some q
       ∧ type (objs g q) = KING ∧ color (objs g q) = k.

(** [kp] is the first cell, in the order the loops visit the board, that
    holds a king of colour [k]. *)
Definition first_king (g : ChessGame) (k : PieceColor) (kp : Square) : Prop :=
  ∃ before after, all_squares = before ++ kp :: after
                  ∧ king_at g k kp ∧ ∀ s, In s before → ¬ king_at g k s.

(** Some piece of the other colour attacks the first king of colour [k]. *)
Definition in_check (g : ChessGame) (k : PieceColor) : Prop :=
  ∃ kp, first_king g k kp
        ∧ ∃ s q, In s all_squares ∧ cell (board g) s.1 s.2 = Some q
                 ∧ color (objs g q) = opponent k ∧ attacks g s.1 s.2 q kp.

(** The game as the probe sees it: the piece written to the destination,
    its origin cleared, its coordinates set to the destination. *)
Definition tentative (g : ChessGame) (p : ref) (dest_row dest_col : Z) : ChessGame :=
  set_pos
    (set_board g
       (cell_upd (cell_upd (board g) dest_row dest_col (Some p))
                 (row (objs g p)) (col (objs g p)) None))
    p dest_row dest_col.

(** ** The random mover, the click handler and the start button *)

(** The loop of [ai_make_move] that fills [possible_moves]. *)
Fixpoint collect_moves (g : ChessGame) (sqs : list Square)
  : result (list (ref * Z * Z) * ChessGame) :=
  match sqs with
  | [] => Ok ([], g)
  | (r, c) :: rest =>
      t ← board_get g r c;
      match t with
      | Some p =>
          if color_eqb (color (objs g p)) (turn g) then
            '(moves, g1) ← get_valid_moves g p;
            '(more, g2) ← collect_moves g1 rest;
            Ok (map (fun m : Square => (p, m.1, m.2)) moves ++ more, g2)
          else collect_moves g rest
      | None => collect_moves g rest
      end
  end.

(** [ai_make_move]; [choice] stands for the draw of [random.choice], which
    picks the element at some index below the length of the list. *)
Definition ai_make_move (choice : nat) (g : ChessGame) : result ChessGame :=
  '(possible_moves, g1) ← collect_moves g all_squares;
  match possible_moves with
  | [] => Ok g1
  | first :: _ =>
      let '(p, dest_row, dest_col) :=
        nth (choice mod length possible_moves) possible_moves first in
      make_move g1 p dest_row dest_col
  end.

(** The handling of a click on the board square [sq] in [run], for a game
    in the PLAYING state; [game_over] is never set by the program, so the
    reply of the random mover depends on the turn only. *)
Definition board_click (player_color : PieceColor) (choice : nat)
    (g : ChessGame) (sq : Square) : result ChessGame :=
  clicked_piece ← board_get g sq.1 sq.2;
  match selected_piece g with
  | Some sp =>
      (* If a piece is already selected *)
      g1 ← (if square_in sq (valid_moves g) then
              g' ← make_move g sp sq.1 sq.2;
              if negb (color_eqb (turn g') player_color)
              then ai_make_move choice g' else Ok g'
            else Ok g);
      (* Deselect if clicking elsewhere *)
      Ok (set_selection g1 None [])
  | None =>
      (* Select a piece if it belongs to current player *)
      match clicked_piece with
      | Some cp =>
          if color_eqb (color (objs g cp)) (turn g) then
            '(vs, g1) ← get_valid_moves g cp;
            Ok (set_selection g1 (Some cp) vs)
          else Ok g
      | None => Ok g
      end
  end.

(** A sequence of board clicks, each with the draw used if the random
    mover replies. *)
Fixpoint board_clicks (player_color : PieceColor) (g : ChessGame)
    (events : list (nat * Square)) : result ChessGame :=
  match events with
  | [] => Ok g
  | (choice, sq) :: rest =>
      g1 ← board_click player_color choice g sq;
      board_clicks player_color g1 rest
  end.

(** The assignments of the start button of the setup screen. *)
Definition start_game (g : ChessGame) : ChessGame :=
  let '(b, g1) := create_initial_board g in
  set_selection (set_turn (set_board g1 b) WHITE) None [].

(** [make_move] can carry the piece [p] to [s]: both are on the board, and
    a king sent two columns sideways finds a piece on the corner the rook
    is taken from. *)
Definition applicable (g : ChessGame) (p : ref) (s : Square) : Prop :=
  on_board g p = true ∧ in8 s.1 = true ∧ in8 s.2 = true
  ∧ (type (objs g p) = KING → Z.abs (s.2 - col (objs g p)) = 2 →
     cell (board g) (row (objs g p)) (if s.2 >? col (objs g p) then 7 else 0) ≠ None).

(** The stored selection is a piece on the board with moves [make_move]
    can carry out. *)
Definition selection_ok (g : ChessGame) : Prop :=
  match selected_piece g with
  | Some sp => Forall (applicable g sp) (valid_moves g)
  | None => True
  end.

(** The king flag of a colour. *)
Definition king_moved (g : ChessGame) (k : PieceColor) : bool :=
  match k with WHITE => white_king_moved g | BLACK => black_king_moved g end.

(** The start button is pressed during the game [pawn_check_line], in
    which the white king has moved, and [castle_ready_line] is played in
    the new game: its king and rooks have not moved, f1 and g1 are empty. *)
Definition position_after_restart : ChessGame :=
  match play (start_game (position_after pawn_check_line)) castle_ready_line with
  | Some g => g
  | None => start_game (position_after pawn_check_line)
  end.

(** * Basic facts *)

Lemma in8_spec x : in8 x = true ↔ 0 ≤ x < 8.
Proof. unfold in8. rewrite andb_true_iff, Z.leb_le, Z.ltb_lt. tauto. Qed.

Lemma py_norm_in8 i : in8 i = true → py_norm 8 i = Some (Z.to_nat i).
Proof.
  intros H. apply in8_spec in H. unfold py_norm.
  destruct (Z.ltb_spec i 0); [lia|].
  destruct (Z.leb_spec 0 i); [|lia].
  destruct (Z.ltb_spec i 8); [|lia]. reflexivity.
Qed.

Lemma board_shape_spec b :
  board_shape b = true ↔ length b = 8%nat ∧ ∀ i rw, b !! i = Some rw → length rw = 8%nat.
Proof.
  unfold board_shape. rewrite andb_true_iff, Nat.eqb_eq, forallb_forall.
  split; intros [Hl Hr]; split; auto.
  - intros i rw Hi. apply Nat.eqb_eq, Hr, list_elem_of_In.
    eapply list_elem_of_lookup_2; eauto.
  - intros rw Hin. apply list_elem_of_In, list_elem_of_lookup_1 in Hin as [i Hi].
    apply Nat.eqb_eq. eauto.
Qed.

Lemma shape_row b r :
  board_shape b = true → in8 r = true →
  ∃ rw, b !! Z.to_nat r = Some rw ∧ length rw = 8%nat.
Proof.
  intros Hs Hr. apply board_shape_spec in Hs as [Hl Hrows]. apply in8_spec in Hr.
  destruct (lookup_lt_is_Some_2 b (Z.to_nat r)) as [rw Hrw]; [lia|].
  exists rw. split; eauto.
Qed.

Lemma py_index_in8 {A} (l : list A) i x :
  length l = 8%nat → in8 i = true → l !! Z.to_nat i = Some x → py_index l i = Ok x.
Proof.
  intros Hl Hi Hx. unfold py_index. rewrite Hl.
  change (Z.of_nat 8) with 8. rewrite (py_norm_in8 _ Hi), Hx. reflexivity.
Qed.

Lemma py_setitem_in8 {A} (l : list A) i x :
  length l = 8%nat → in8 i = true → py_setitem l i x = Ok (<[Z.to_nat i := x]> l).
Proof.
  intros Hl Hi. unfold py_setitem. rewrite Hl.
  change (Z.of_nat 8) with 8. rewrite (py_norm_in8 _ Hi). reflexivity.
Qed.

Lemma board_get_cell g r c :
  board_shape (board g) = true → in8 r = true → in8 c = true →
  board_get g r c = Ok (cell (board g) r c).
Proof.
  intros Hs Hr Hc. destruct (shape_row _ _ Hs Hr) as (rw & Hrw & Hlen).
  pose proof (proj1 (board_shape_spec _) Hs) as [Hl _].
  pose proof (proj1 (in8_spec _) Hc) as Hc'.
  destruct (lookup_lt_is_Some_2 rw (Z.to_nat c)) as [v Hv]; [lia|].
  unfold board_get, cell.
  rewrite (py_index_in8 _ _ _ Hl Hr Hrw). simpl.
  rewrite (py_index_in8 _ _ _ Hlen Hc Hv), Hrw, Hv. reflexivity.
Qed.

Lemma board_set_cell g r c v :
  board_shape (board g) = true → in8 r = true → in8 c = true →
  board_set g r c v = Ok (set_board g (cell_upd (board g) r c v)).
Proof.
  intros Hs Hr Hc. destruct (shape_row _ _ Hs Hr) as (rw & Hrw & Hlen).
  pose proof (proj1 (board_shape_spec _) Hs) as [Hl _].
  unfold board_set, cell_upd.
  rewrite (py_index_in8 _ _ _ Hl Hr Hrw). simpl.
  rewrite (py_setitem_in8 _ _ _ Hlen Hc). simpl.
  rewrite (py_setitem_in8 _ _ _ Hl Hr), Hrw. reflexivity.
Qed.

Lemma cell_upd_shape b r c v :
  board_shape b = true → board_shape (cell_upd b r c v) = true.
Proof.
  intros Hs. unfold cell_upd. destruct (b !! Z.to_nat r) as [rw|] eqn:Hrw; [|done].
  apply board_shape_spec in Hs as [Hl Hrows]. apply board_shape_spec. split.
  - by rewrite length_insert.
  - intros i rw' Hi. destruct (decide (i = Z.to_nat r)) as [->|Hne].
    + rewrite list_lookup_insert_eq in Hi by (eapply lookup_lt_Some; eauto).
      injection Hi as <-. rewrite length_insert. eauto.
    + rewrite list_lookup_insert_ne in Hi by done. eauto.
Qed.

Lemma cell_upd_same b r c v :
  board_shape b = true → in8 r = true → in8 c = true →
  cell (cell_upd b r c v) r c = v.
Proof.
  intros Hs Hr Hc. destruct (shape_row _ _ Hs Hr) as (rw & Hrw & Hlen).
  unfold cell, cell_upd. rewrite Hrw.
  rewrite list_lookup_insert_eq by (eapply lookup_lt_Some; eauto).
  apply in8_spec in Hc.
  rewrite list_lookup_insert_eq by lia. reflexivity.
Qed.

Lemma cell_upd_other b r c v r' c' :
  in8 r = true → in8 c = true → in8 r' = true → in8 c' = true →
  (r', c') ≠ (r, c) →
  cell (cell_upd b r c v) r' c' = cell b r' c'.
Proof.
  intros Hr Hc Hr' Hc' Hne. apply in8_spec in Hr, Hc, Hr', Hc'.
  unfold cell, cell_upd. destruct (b !! Z.to_nat r) as [rw|] eqn:Hrw; [|done].
  destruct (decide (Z.to_nat r' = Z.to_nat r)) as [He|Hn].
  - rewrite He, Hrw.
    rewrite list_lookup_insert_eq by (eapply lookup_lt_Some; eauto).
    rewrite list_lookup_insert_ne; [done|].
    intros Hcc. apply Hne. f_equal; lia.
  - rewrite list_lookup_insert_ne by done. reflexivity.
Qed.

(** Two well-shaped boards with the same cells are the same board. *)
Lemma board_ext b b' :
  board_shape b = true → board_shape b' = true →
  (∀ r c, in8 r = true → in8 c = true → cell b r c = cell b' r c) →
  b = b'.
Proof.
  intros Hs Hs' Hcells.
  apply board_shape_spec in Hs as [Hl Hrows].
  apply board_shape_spec in Hs' as [Hl' Hrows'].
  apply list_eq_same_length with (n := 8%nat); [done|done|].
  intros i rw rw' Hi Hrw Hrw'.
  apply list_eq_same_length with (n := 8%nat); [eauto|eauto|].
  intros j x y Hj Hx Hy.
  specialize (Hcells (Z.of_nat i) (Z.of_nat j)).
  unfold cell in Hcells. rewrite !Nat2Z.id, Hrw, Hrw', Hx, Hy in Hcells.
  apply Hcells; apply in8_spec; lia.
Qed.

(** ** The error monad *)

Lemma bind_Ok {A B} (a : A) (f : A → result B) : (Ok a ≫= f) = f a.
Proof. reflexivity. Qed.

Lemma returns_all_nil P : returns_all P (Ok []).
Proof. exists []. split; [done|constructor]. Qed.

Lemma returns_all_one P s : P s → returns_all P (Ok [s]).
Proof. intros H. exists [s]. split; [done|]. repeat constructor; done. Qed.

Lemma returns_all_app P r1 r2 :
  returns_all P r1 → returns_all P r2 →
  returns_all P (a ← r1; b ← r2; Ok (a ++ b)).
Proof.
  intros (l1 & -> & H1) (l2 & -> & H2). exists (l1 ++ l2).
  split; [done|]. by apply Forall_app.
Qed.

Lemma returns_all_extendM {A} P (f : A → result (list Square)) xs :
  (∀ x, returns_all P (f x)) → returns_all P (extendM f xs).
Proof.
  intros Hf. induction xs as [|x xs IH]; simpl.
  - apply returns_all_nil.
  - by apply returns_all_app.
Qed.

Lemma all_squares_on_board : forallb sq_on_board all_squares = true.
Proof. reflexivity. Qed.

(** ** Pseudo-legal destinations are on the board and not on an own piece *)

Section Generators.
Variable g : ChessGame.
Hypothesis Hshape : board_shape (board g) = true.

(** The test every generator applies to an occupied or empty target. *)
Lemma target_good k r c :
  in8 r = true → in8 c = true →
  returns_all (good_dest g k)
    (target ← board_get g r c;
     match target with
     | None => Ok [(r, c)]
     | Some q => if negb (color_eqb (color (objs g q)) k) then Ok [(r, c)] else Ok []
     end).
Proof.
  intros Hr Hc. rewrite board_get_cell, bind_Ok by done.
  destruct (cell (board g) r c) as [q|] eqn:Hcell.
  - destruct (color_eqb (color (objs g q)) k) eqn:Hk; simpl.
    + apply returns_all_nil.
    + apply returns_all_one. unfold good_dest, occupied_by. simpl.
      by rewrite Hcell.
  - apply returns_all_one. unfold good_dest, occupied_by. simpl.
    by rewrite Hcell.
Qed.

Lemma slide_good pc dr dc steps :
  returns_all (good_dest g (color pc)) (slide g pc dr dc steps).
Proof.
  induction steps as [|i steps IH]; simpl.
  - apply returns_all_nil.
  - destruct (in8 (row pc + i * dr) && in8 (col pc + i * dc)) eqn:Hin; simpl.
    + apply andb_true_iff in Hin as [Hr Hc].
      rewrite board_get_cell, bind_Ok by done.
      destruct (cell (board g) (row pc + i * dr) (col pc + i * dc)) as [q|] eqn:Hcell.
      * destruct (color_eqb (color (objs g q)) (color pc)) eqn:Hk; simpl.
        -- apply returns_all_nil.
        -- apply returns_all_one. unfold good_dest, occupied_by. simpl.
           by rewrite Hcell.
      * destruct IH as (rest & -> & Hrest). rewrite bind_Ok.
        eexists. split; [done|]. constructor; [|done].
        unfold good_dest, occupied_by. simpl. by rewrite Hcell.
    + apply returns_all_nil.
Qed.

Lemma slide_moves_good p directions :
  returns_all (good_dest g (color (objs g p))) (slide_moves g p directions).
Proof. apply returns_all_extendM. intros d. apply slide_good. Qed.

Lemma offset_moves_good p offsets :
  returns_all (good_dest g (color (objs g p))) (offset_moves g p offsets).
Proof.
  apply returns_all_extendM. intros d. cbv zeta.
  destruct (in8 (row (objs g p) + d.1) && in8 (col (objs g p) + d.2)) eqn:Hin.
  - apply andb_true_iff in Hin as [Hr Hc]. by apply target_good.
  - apply returns_all_nil.
Qed.

Lemma get_queen_moves_good p :
  returns_all (good_dest g (color (objs g p))) (get_queen_moves g p).
Proof. apply returns_all_app; apply slide_moves_good. Qed.

(** The en-passant block never yields a move: with the pawn required on
    the row of the target, one step forward cannot also be one step
    behind the target. *)
Lemma en_passant_moves_nil pc : en_passant_moves g pc = [].
Proof.
  unfold en_passant_moves. destruct (en_passant_target g) as [[ep_row ep_col]|]; [|done].
  destruct (Z.eqb_spec (row pc) ep_row) as [->|]; [|done].
  destruct (Z.abs (col pc - ep_col) =? 1); [|done]. simpl.
  destruct (Z.eqb_spec (ep_row + pawn_direction (color pc))
              (ep_row - pawn_direction (color pc))) as [He|]; [|done].
  destruct (color pc); simpl in He; lia.
Qed.

Lemma get_pawn_moves_good p :
  in8 (row (objs g p)) = true → in8 (col (objs g p)) = true →
  returns_all (good_dest g (color (objs g p))) (get_pawn_moves g p).
Proof.
  intros Hr Hc. unfold get_pawn_moves. rewrite en_passant_moves_nil. cbv zeta.
  set (pc := objs g p) in *. set (d := pawn_direction (color pc)).
  assert (Hempty : ∀ r, in8 r = true → cell (board g) r (col pc) = None →
                        good_dest g (color pc) (r, col pc)).
  { intros r Hr' Hcell. unfold good_dest, occupied_by. simpl. by rewrite Hcell. }
  assert (Hfwd : returns_all (good_dest g (color pc))
    (free ← Ok (in8 (row pc + d)) <&&>
            (t ← board_get g (row pc + d) (col pc); Ok (bool_decide (t = None)));
     if (free : bool) then
       if (color_eqb (color pc) WHITE && (row pc =? 6))
          || (color_eqb (color pc) BLACK && (row pc =? 1)) then
         t2 ← board_get g (row pc + 2 * d) (col pc);
         match t2 with
         | None => Ok [(row pc + d, col pc); (row pc + 2 * d, col pc)]
         | Some _ => Ok [(row pc + d, col pc)]
         end
       else Ok [(row pc + d, col pc)]
     else Ok [])).
  { unfold andM. rewrite bind_Ok.
    destruct (in8 (row pc + d)) eqn:Hn; [|apply returns_all_nil].
    rewrite (board_get_cell g (row pc + d) (col pc)), !bind_Ok by done.
    destruct (cell (board g) (row pc + d) (col pc)) as [q|] eqn:Hcell;
      [apply returns_all_nil|].
    rewrite bool_decide_eq_true_2 by done.
    destruct ((color_eqb (color pc) WHITE && (row pc =? 6))
              || (color_eqb (color pc) BLACK && (row pc =? 1))) eqn:Hstart;
      [|apply returns_all_one; auto].
    assert (Htwo : in8 (row pc + 2 * d) = true).
    { apply in8_spec. subst d. unfold color_eqb in Hstart.
      destruct (color pc); simpl in *.
      - rewrite orb_false_r in Hstart. apply Z.eqb_eq in Hstart. lia.
      - apply Z.eqb_eq in Hstart. lia. }
    rewrite board_get_cell, bind_Ok by done.
    destruct (cell (board g) (row pc + 2 * d) (col pc)) as [q|] eqn:Hcell2.
    - apply returns_all_one; auto.
    - eexists. split; [done|].
      constructor; [by auto|]. constructor; [by auto|]. constructor. }
  destruct Hfwd as (fw & -> & Hfw). rewrite bind_Ok.
  assert (Hcap : returns_all (good_dest g (color pc))
    (extendM (fun c =>
       if in8 c then
         if in8 (row pc + d) then
           target ← board_get g (row pc + d) c;
           match target with
           | Some q => if negb (color_eqb (color (objs g q)) (color pc))
                       then Ok [(row pc + d, c)] else Ok []
           | None => Ok []
           end
         else Ok []
       else Ok []) [col pc - 1; col pc + 1])).
  { apply returns_all_extendM. intros c.
    destruct (in8 c) eqn:Hc'; [|apply returns_all_nil].
    destruct (in8 (row pc + d)) eqn:Hr'; [|apply returns_all_nil].
    rewrite board_get_cell, bind_Ok by done.
    destruct (cell (board g) (row pc + d) c) as [q|] eqn:Hcell;
      [|apply returns_all_nil].
    destruct (color_eqb (color (objs g q)) (color pc)) eqn:Hk; simpl;
      [apply returns_all_nil|].
    apply returns_all_one. unfold good_dest, occupied_by. simpl.
    by rewrite Hcell. }
  destruct Hcap as (cp & -> & Hcp). rewrite bind_Ok.
  eexists. split; [done|]. rewrite app_nil_r. by apply Forall_app.
Qed.
End Generators.

Section King.
Variable g : ChessGame.
Hypothesis Hshape : board_shape (board g) = true.

Lemma is_empty_cell r c :
  in8 r = true → in8 c = true →
  is_empty g r c = Ok (bool_decide (cell (board g) r c = None)).
Proof. intros Hr Hc. unfold is_empty. by rewrite board_get_cell. Qed.

Lemma is_rook_of_total r c k :
  in8 r = true → in8 c = true → ∃ b, is_rook_of g r c k = Ok b.
Proof.
  intros Hr Hc. unfold is_rook_of. rewrite board_get_cell, bind_Ok by done.
  destruct (cell (board g) r c); eauto.
Qed.

(** The chain of [is None] tests of a castling condition: it never raises,
    and when it holds every tested square is empty. *)
Lemma empties_spec between final :
  forallb sq_on_board between = true → (∃ b0, final = Ok b0) →
  ∃ b, foldr (fun s acc => is_empty g s.1 s.2 <&&> acc) final between = Ok b
       ∧ (b = true → ∀ s, In s between → cell (board g) s.1 s.2 = None).
Proof.
  intros Hon Hfinal. induction between as [|s between IH]; simpl.
  - destruct Hfinal as [b0 ->]. exists b0. split; [done|]. intros _ s [].
  - simpl in Hon. apply andb_true_iff in Hon as [Hs Hon].
    apply andb_true_iff in Hs as [Hr Hc].
    destruct (IH Hon) as (b & Hb & Hall). unfold andM at 1.
    rewrite is_empty_cell, bind_Ok by done.
    case_bool_decide as Hcell.
    + exists b. split; [done|]. intros Hbt s' [<-|Hin]; auto.
    + exists false. split; [done|]. discriminate.
Qed.

Lemma castle_option_good king_moved rook_moved between rook_sq k k' dest :
  forallb sq_on_board between = true → sq_on_board rook_sq = true →
  In dest between →
  returns_all (good_dest g k')
    (castle_option g king_moved rook_moved between rook_sq k dest).
Proof.
  intros Hon Hrook Hdest. apply andb_true_iff in Hrook as [Hr Hc].
  destruct (empties_spec between (is_rook_of g rook_sq.1 rook_sq.2 k) Hon)
    as (b & Hb & Hall); [by apply is_rook_of_total|].
  unfold castle_option, andM. rewrite !bind_Ok.
  destruct king_moved; simpl; [apply returns_all_nil|].
  destruct rook_moved; simpl; [apply returns_all_nil|].
  unfold andM in Hb. rewrite Hb, bind_Ok.
  destruct b; [|apply returns_all_nil].
  apply returns_all_one. unfold good_dest, occupied_by.
  rewrite (Hall eq_refl dest Hdest).
  rewrite forallb_forall in Hon. specialize (Hon dest Hdest).
  apply andb_true_iff in Hon as [? ?]. done.
Qed.

Lemma castling_moves_good pc k' :
  returns_all (good_dest g k') (castling_moves g pc).
Proof.
  unfold castling_moves. destruct (has_moved pc); simpl; [apply returns_all_nil|].
  destruct (color pc); apply returns_all_app; apply castle_option_good;
    try reflexivity; simpl; tauto.
Qed.

Lemma get_king_moves_good p :
  returns_all (good_dest g (color (objs g p))) (get_king_moves g p).
Proof.
  apply returns_all_app; [apply offset_moves_good|apply castling_moves_good]; done.
Qed.

Lemma pseudo_moves_good p :
  in8 (row (objs g p)) = true → in8 (col (objs g p)) = true →
  returns_all (good_dest g (color (objs g p))) (pseudo_moves g p).
Proof.
  intros Hr Hc. unfold pseudo_moves. destruct (type (objs g p)).
  - by apply get_pawn_moves_good.
  - by apply slide_moves_good.
  - by apply offset_moves_good.
  - by apply slide_moves_good.
  - by apply get_queen_moves_good.
  - apply get_king_moves_good.
Qed.

(** The attack squares of any piece are computed without an exception. *)
Lemma get_valid_moves_for_opponent_total p :
  ∃ l, get_valid_moves_for_opponent g p = Ok l.
Proof.
  assert (Hw : ∀ r, returns_all (good_dest g (color (objs g p))) r → ∃ l, r = Ok l).
  { intros r (l & -> & _). eauto. }
  unfold get_valid_moves_for_opponent. destruct (type (objs g p)).
  - cbv zeta. cbn [extendM].
    repeat match goal with
           | |- context [in8 ?x && in8 ?y] => destruct (in8 x && in8 y)
           end; simpl; eauto.
  - by apply Hw, slide_moves_good.
  - by apply Hw, offset_moves_good.
  - by apply Hw, slide_moves_good.
  - by apply Hw, get_queen_moves_good.
  - destruct (Hw _ (get_king_moves_good p)) as [l ->]. rewrite bind_Ok. eauto.
Qed.
End King.

(** ** The check detector leaves the game as it found it *)

Lemma same_game_refl g : same_game g g.
Proof. split; [by destruct g|done]. Qed.

Lemma same_game_trans g1 g2 g3 : same_game g1 g2 → same_game g2 g3 → same_game g1 g3.
Proof.
  intros [E12 H12] [E23 H23]. split.
  - rewrite E23, E12. by destruct g1.
  - intros q. by rewrite H23, H12.
Qed.

Lemma same_game_board g g' : same_game g g' → board g' = board g.
Proof. intros [-> _]. done. Qed.

Lemma set_pos_restore g q r c :
  same_game g (set_pos (set_pos g q r c) q (row (objs g q)) (col (objs g q))).
Proof.
  split; [done|]. intros q'. simpl.
  destruct (Nat.eqb_spec q' q) as [->|Hne]; [|done].
  rewrite Nat.eqb_refl. simpl. by destruct (objs g q).
Qed.

Lemma attack_scan_frame opponent_color king_pos sqs :
  ∀ g, board_shape (board g) = true → forallb sq_on_board sqs = true →
       ∃ b g', attack_scan g opponent_color king_pos sqs = Ok (b, g') ∧ same_game g g'.
Proof.
  induction sqs as [|[r c] sqs IH]; intros g Hshape Hon; simpl.
  - exists false, g. split; [done|apply same_game_refl].
  - simpl in Hon. apply andb_true_iff in Hon as [Hs Hon].
    apply andb_true_iff in Hs as [Hr Hc]. simpl in Hr, Hc.
    rewrite board_get_cell, bind_Ok by done.
    destruct (cell (board g) r c) as [q|]; [|by apply IH].
    destruct (color_eqb (color (objs g q)) opponent_color); [|by apply IH].
    destruct (get_valid_moves_for_opponent_total (set_pos g q r c) Hshape q) as [ms ->].
    rewrite bind_Ok.
    pose proof (set_pos_restore g q r c) as Hrest.
    destruct (square_in king_pos ms); [eauto|].
    destruct (IH _ (eq_trans (f_equal board_shape (same_game_board _ _ Hrest)) Hshape) Hon)
      as (b & g' & -> & Hsame).
    exists b, g'. split; [done|]. eapply same_game_trans; eauto.
Qed.

Lemma find_king_total g k sqs :
  board_shape (board g) = true → forallb sq_on_board sqs = true →
  ∃ pos, find_king g k sqs = Ok pos.
Proof.
  intros Hshape. induction sqs as [|[r c] sqs IH]; intros Hon; simpl; [eauto|].
  simpl in Hon. apply andb_true_iff in Hon as [Hs Hon].
  apply andb_true_iff in Hs as [Hr Hc]. simpl in Hr, Hc.
  rewrite board_get_cell, bind_Ok by done.
  destruct (cell (board g) r c) as [q|]; [|by apply IH].
  destruct (type_eqb _ _ && color_eqb _ _); [eauto|by apply IH].
Qed.

Lemma is_king_in_check_frame g k :
  board_shape (board g) = true →
  ∃ b g', is_king_in_check g k = Ok (b, g') ∧ same_game g g'.
Proof.
  intros Hshape. unfold is_king_in_check.
  destruct (find_king_total g k all_squares Hshape all_squares_on_board) as [pos ->].
  rewrite bind_Ok. destruct pos as [pos|].
  - by apply attack_scan_frame.
  - exists false, g. split; [done|apply same_game_refl].
Qed.

(** ** The speculative probe *)

Lemma cell_upd_cell b r c v r' c' :
  board_shape b = true →
  in8 r = true → in8 c = true → in8 r' = true → in8 c' = true →
  cell (cell_upd b r c v) r' c' = if decide ((r', c') = (r, c)) then v else cell b r' c'.
Proof.
  intros Hs Hr Hc Hr' Hc'. case_decide as He.
  - injection He as -> ->. by apply cell_upd_same.
  - by apply cell_upd_other.
Qed.

(** Writing the piece to the destination, clearing its origin, and then
    writing the piece back and the destination's old content back gives the
    board one started with, provided the piece stood on its origin. *)
Lemma probe_board_restored b p orow ocol drow dcol :
  board_shape b = true →
  in8 orow = true → in8 ocol = true → in8 drow = true → in8 dcol = true →
  cell b orow ocol = Some p →
  cell_upd (cell_upd (cell_upd (cell_upd b drow dcol (Some p)) orow ocol None)
                     orow ocol (Some p))
           drow dcol (cell b drow dcol) = b.
Proof.
  intros Hs Hor Hoc Hdr Hdc Hp.
  apply board_ext; [by repeat apply cell_upd_shape|done|].
  intros r c Hr Hc.
  rewrite !cell_upd_cell by (try done; by repeat apply cell_upd_shape).
  repeat case_decide; simplify_eq; done.
Qed.

Lemma on_board_spec g p :
  on_board g p = true ↔
  in8 (row (objs g p)) = true ∧ in8 (col (objs g p)) = true
  ∧ cell (board g) (row (objs g p)) (col (objs g p)) = Some p.
Proof.
  unfold on_board. rewrite !andb_true_iff, bool_decide_eq_true. tauto.
Qed.

Lemma same_game_on_board g g' p :
  same_game g g' → on_board g' p = on_board g p.
Proof.
  intros [E H]. unfold on_board. rewrite H.
  by rewrite (same_game_board g g' (conj E H)).
Qed.

Lemma move_puts_king_in_check_frame g p dest_row dest_col :
  board_shape (board g) = true → on_board g p = true →
  in8 dest_row = true → in8 dest_col = true →
  ∃ b g', move_puts_king_in_check g p dest_row dest_col = Ok (b, g') ∧ same_game g g'.
Proof.
  intros Hshape Hon Hdr Hdc. apply on_board_spec in Hon as (Hor & Hoc & Hp).
  unfold move_puts_king_in_check. cbv zeta.
  set (orow := row (objs g p)) in *. set (ocol := col (objs g p)) in *.
  rewrite (board_get_cell g dest_row dest_col), bind_Ok by done.
  rewrite (board_set_cell g dest_row dest_col), bind_Ok by done.
  cbn [objs set_board]. fold orow ocol.
  set (b1 := cell_upd (board g) dest_row dest_col (Some p)).
  assert (Hs1 : board_shape b1 = true) by by apply cell_upd_shape.
  rewrite (board_set_cell (set_board g b1) orow ocol), bind_Ok by done.
  cbn [board set_board].
  set (b2 := cell_upd b1 orow ocol None).
  assert (Hs2 : board_shape b2 = true) by by apply cell_upd_shape.
  set (g3 := set_pos (set_board (set_board g b1) b2) p dest_row dest_col).
  destruct (is_king_in_check_frame g3 (color (objs g3 p)) Hs2)
    as (b & g4 & -> & [E4 H4]).
  rewrite bind_Ok.
  assert (Hb4 : board g4 = b2) by by rewrite E4.
  rewrite (board_set_cell g4 orow ocol), bind_Ok by (try done; by rewrite Hb4).
  rewrite Hb4. set (b5 := cell_upd b2 orow ocol (Some p)).
  assert (Hs5 : board_shape b5 = true) by by apply cell_upd_shape.
  rewrite (board_set_cell (set_board g4 b5) dest_row dest_col), bind_Ok by done.
  cbn [board set_board].
  assert (Hb : cell_upd b5 dest_row dest_col (cell (board g) dest_row dest_col) = board g)
    by by apply probe_board_restored.
  rewrite Hb. eexists _, _. split; [done|]. split.
  - rewrite E4. subst g3. by destruct g.
  - intros q. simpl. destruct (Nat.eqb_spec q p) as [->|Hne].
    + rewrite H4. subst g3 orow ocol. simpl. rewrite Nat.eqb_refl.
      by destruct (objs g p).
    + rewrite H4. subst g3. simpl.
      by destruct (Nat.eqb_spec q p).
Qed.

Lemma filter_moves_frame p moves :
  ∀ g, board_shape (board g) = true → on_board g p = true →
       forallb sq_on_board moves = true →
       ∃ vs g', filter_moves g p moves = Ok (vs, g') ∧ same_game g g'
                ∧ ∀ s, In s vs → In s moves.
Proof.
  induction moves as [|m moves IH]; intros g Hshape Hon Hmoves; simpl.
  - exists [], g. split; [done|]. split; [apply same_game_refl|done].
  - simpl in Hmoves. apply andb_true_iff in Hmoves as [Hm Hmoves].
    apply andb_true_iff in Hm as [Hr Hc].
    destruct (move_puts_king_in_check_frame g p m.1 m.2 Hshape Hon Hr Hc)
      as (b & g1 & -> & Hsame1).
    rewrite bind_Ok.
    destruct (IH g1) as (vs & g2 & -> & Hsame2 & Hsub); [| |done|].
    { by rewrite (same_game_board _ _ Hsame1). }
    { by rewrite (same_game_on_board _ _ _ Hsame1). }
    rewrite bind_Ok. eexists _, g2. split; [done|].
    split; [by eapply same_game_trans|].
    intros s Hs. destruct b; [right; auto|].
    destruct Hs as [<-|Hs]; [by left|right; auto].
Qed.

(** [get_valid_moves] returns, leaves the game as it was, and every square
    it returns is on the board and not held by the mover's own side. *)
Lemma get_valid_moves_spec g p :
  board_shape (board g) = true → on_board g p = true →
  ∃ vs g', get_valid_moves g p = Ok (vs, g') ∧ same_game g g'
           ∧ Forall (good_dest g (color (objs g p))) vs.
Proof.
  intros Hshape Hon. pose proof (proj1 (on_board_spec _ _) Hon) as (Hr & Hc & _).
  destruct (pseudo_moves_good g Hshape p Hr Hc) as (moves & Hmoves & Hgood).
  unfold get_valid_moves. rewrite Hmoves, bind_Ok.
  destruct (filter_moves_frame p moves g Hshape Hon) as (vs & g' & -> & Hsame & Hsub).
  { apply forallb_forall. intros s Hs. rewrite Forall_forall in Hgood.
    destruct (Hgood s) as (? & ? & _); [by apply list_elem_of_In|].
    by apply andb_true_iff. }
  exists vs, g'. split; [done|]. split; [done|].
  rewrite Forall_forall in *. intros s Hs. apply Hgood.
  apply list_elem_of_In, Hsub, list_elem_of_In, Hs.
Qed.

Lemma all_squares_complete r c :
  in8 r = true → in8 c = true → In (r, c) all_squares.
Proof.
  intros Hr Hc. apply in8_spec in Hr, Hc.
  assert (Hrs : In r range8) by (unfold range8; simpl; lia).
  assert (Hcs : In c range8) by (unfold range8; simpl; lia).
  apply list_elem_of_In. unfold all_squares.
  apply list_elem_of_bind. exists r. split; [|by apply list_elem_of_In].
  apply list_elem_of_bind. exists c. split; [|by apply list_elem_of_In].
  by apply list_elem_of_singleton.
Qed.

Lemma coords_agree_cell g r c q :
  coords_agree g = true → in8 r = true → in8 c = true →
  cell (board g) r c = Some q → row (objs g q) = r ∧ col (objs g q) = c.
Proof.
  intros Hag Hr Hc Hcell. unfold coords_agree in Hag.
  rewrite forallb_forall in Hag.
  specialize (Hag (r, c) (all_squares_complete r c Hr Hc)). simpl in Hag.
  rewrite Hcell in Hag. apply andb_true_iff in Hag as [H1 H2].
  by apply Z.eqb_eq in H1, H2.
Qed.

Lemma coords_agree_on_board g r c q :
  coords_agree g = true → in8 r = true → in8 c = true →
  cell (board g) r c = Some q → on_board g q = true.
Proof.
  intros Hag Hr Hc Hcell.
  destruct (coords_agree_cell g r c q Hag Hr Hc Hcell) as [Er Ec].
  apply on_board_spec. by rewrite Er, Ec.
Qed.

Lemma find_king_none g k sqs :
  board_shape (board g) = true → forallb sq_on_board sqs = true →
  forallb (fun s : Square =>
    match cell (board g) s.1 s.2 with
    | Some q => negb (type_eqb (type (objs g q)) KING && color_eqb (color (objs g q)) k)
    | None => true
    end) sqs = true →
  find_king g k sqs = Ok None.
Proof.
  intros Hshape. induction sqs as [|[r c] sqs IH]; intros Hon Hno; simpl; [done|].
  simpl in Hon, Hno. apply andb_true_iff in Hon as [Hs Hon].
  apply andb_true_iff in Hs as [Hr Hc]. simpl in Hr, Hc.
  apply andb_true_iff in Hno as [Hq Hno].
  rewrite board_get_cell, bind_Ok by done.
  destruct (cell (board g) r c) as [q|]; [|by apply IH].
  apply negb_true_iff in Hq. rewrite Hq. by apply IH.
Qed.

(** ** The blocks of [make_move] *)

Ltac game_cbn :=
  cbn [objs next_ref board selected_piece valid_moves turn white_king_moved
       black_king_moved white_rook_a_moved white_rook_h_moved black_rook_a_moved
       black_rook_h_moved en_passant_target move_history
       set_objs set_next_ref set_board set_selection set_turn set_white_king_moved
       set_black_king_moved set_white_rook_a_moved set_white_rook_h_moved
       set_black_rook_a_moved set_black_rook_h_moved set_en_passant_target
       set_move_history upd_obj set_pos set_col set_has_moved new_piece
       type color row col has_moved fst snd] in *.

Ltac game_simpl := game_cbn; rewrite ?Nat.eqb_refl in *; game_cbn.

Lemma set_board_id g : set_board g (board g) = g.
Proof. by destruct g. Qed.

Lemma castle_rook_skip g p dest_col :
  ¬ (type (objs g p) = KING ∧ Z.abs (dest_col - col (objs g p)) = 2) →
  castle_rook g p dest_col = Ok g.
Proof.
  intros Hno. unfold castle_rook, type_eqb. case_bool_decide as Hk; [|done].
  destruct (Z.eqb_spec (Z.abs (dest_col - col (objs g p))) 2); [|done].
  by destruct Hno.
Qed.

(** The en-passant block writes at most one cell, and writes [None]. *)
Lemma capture_en_passant_spec g p dest_row dest_col :
  board_shape (board g) = true →
  in8 (row (objs g p)) = true → in8 dest_col = true →
  ∃ b, capture_en_passant g p dest_row dest_col = Ok (set_board g b)
       ∧ board_shape b = true
       ∧ ∀ r c, in8 r = true → in8 c = true →
                cell b r c = cell (board g) r c ∨ cell b r c = None.
Proof.
  intros Hshape Hr Hc.
  assert (Hid : ∃ b, Ok g = Ok (set_board g b) ∧ board_shape b = true
       ∧ ∀ r c, in8 r = true → in8 c = true →
                cell b r c = cell (board g) r c ∨ cell b r c = None).
  { exists (board g). rewrite set_board_id. auto. }
  unfold capture_en_passant. destruct (type_eqb _ _); [|done].
  destruct (en_passant_target g) as [[ep_row ep_col]|]; [|done].
  destruct ((dest_row =? ep_row) && (dest_col =? ep_col)); [|done].
  cbv zeta. rewrite board_set_cell by done.
  eexists. split; [done|]. split; [by apply cell_upd_shape|].
  intros r c Hr' Hc'. rewrite cell_upd_cell by done. case_decide; auto.
Qed.

Lemma record_en_passant_spec g p dest_row dest_col :
  ∃ t, record_en_passant g p dest_row dest_col = set_en_passant_target g t.
Proof. unfold record_en_passant. destruct (_ && _); eauto. Qed.

Lemma relocate_spec g p dest_row dest_col :
  board_shape (board g) = true →
  in8 (row (objs g p)) = true → in8 (col (objs g p)) = true →
  in8 dest_row = true → in8 dest_col = true →
  relocate g p dest_row dest_col =
  Ok (set_has_moved
        (set_pos
           (set_board g
              (cell_upd (cell_upd (board g) dest_row dest_col (Some p))
                        (row (objs g p)) (col (objs g p)) None))
           p dest_row dest_col) p).
Proof.
  intros Hshape Hr Hc Hdr Hdc. unfold relocate.
  rewrite board_set_cell, bind_Ok by done. game_simpl.
  rewrite board_set_cell, bind_Ok by (try done; by apply cell_upd_shape).
  reflexivity.
Qed.

(** The rights block only ever writes [True] to a tracking flag. *)
Lemma update_castling_rights_spec g p :
  ∃ wk bk wa wh ba bh,
    update_castling_rights g p =
    mkGame (objs g) (next_ref g) (board g) (selected_piece g) (valid_moves g)
           (turn g) (white_king_moved g || wk) (black_king_moved g || bk)
           (white_rook_a_moved g || wa) (white_rook_h_moved g || wh)
           (black_rook_a_moved g || ba) (black_rook_h_moved g || bh)
           (en_passant_target g) (move_history g).
Proof.
  assert (Hid : ∃ wk bk wa wh ba bh,
    g = mkGame (objs g) (next_ref g) (board g) (selected_piece g) (valid_moves g)
           (turn g) (white_king_moved g || wk) (black_king_moved g || bk)
           (white_rook_a_moved g || wa) (white_rook_h_moved g || wh)
           (black_rook_a_moved g || ba) (black_rook_h_moved g || bh)
           (en_passant_target g) (move_history g)).
  { exists false, false, false, false, false, false.
    rewrite !orb_false_r. by destruct g. }
  unfold update_castling_rights.
  destruct (type (objs g p)); try exact Hid;
    destruct (color (objs g p));
    repeat match goal with |- context [if ?b then _ else _] => destruct b end;
    try exact Hid.
  all: unfold set_white_king_moved, set_black_king_moved, set_white_rook_a_moved,
         set_white_rook_h_moved, set_black_rook_a_moved, set_black_rook_h_moved.
  - exists false, false, true, false, false, false. by rewrite !orb_false_r, orb_true_r.
  - exists false, false, false, true, false, false. by rewrite !orb_false_r, orb_true_r.
  - exists false, false, false, false, true, false. by rewrite !orb_false_r, orb_true_r.
  - exists false, false, false, false, false, true. by rewrite !orb_false_r, orb_true_r.
  - exists true, false, false, false, false, false. by rewrite !orb_false_r, orb_true_r.
  - exists false, true, false, false, false, false. by rewrite !orb_false_r, orb_true_r.
Qed.

(** ** Tracking flags are only ever raised *)

Lemma board_set_inv g r c v g' :
  board_set g r c v = Ok g' → g' = set_board g (board g').
Proof.
  unfold board_set.
  destruct (py_index (board g) r) as [rw|]; [|done]. rewrite bind_Ok.
  destruct (py_setitem rw c v) as [rw'|]; [|done]. rewrite bind_Ok.
  destruct (py_setitem (board g) r rw') as [b'|]; [|done]. rewrite bind_Ok.
  by intros [= <-].
Qed.

Lemma board_set_flags g r c v g' :
  board_set g r c v = Ok g' → moved_flags g' = moved_flags g.
Proof. intros H. apply board_set_inv in H. by rewrite H. Qed.

Lemma castle_rook_flags g p dest_col g' :
  castle_rook g p dest_col = Ok g' → moved_flags g' = moved_flags g.
Proof.
  unfold castle_rook. destruct (type_eqb _ _); [|by intros [= <-]].
  destruct (_ =? 2); [|by intros [= <-]]. cbv zeta.
  destruct (board_get g _ _) as [rook|]; [|done]. rewrite bind_Ok.
  destruct (board_set g _ _ rook) as [g1|] eqn:H1; [|done]. rewrite bind_Ok.
  destruct (board_set g1 _ _ None) as [g2|] eqn:H2; [|done]. rewrite bind_Ok.
  destruct rook as [rk|]; [|done]. intros [= <-].
  apply board_set_flags in H1, H2. by rewrite <- H1, <- H2.
Qed.

Lemma capture_en_passant_flags g p dest_row dest_col g' :
  capture_en_passant g p dest_row dest_col = Ok g' → moved_flags g' = moved_flags g.
Proof.
  unfold capture_en_passant. destruct (type_eqb _ _); [|by intros [= <-]].
  destruct (en_passant_target g) as [[ep_row ep_col]|]; [|by intros [= <-]].
  destruct (_ && _); [|by intros [= <-]]. apply board_set_flags.
Qed.

Lemma relocate_flags g p dest_row dest_col g' :
  relocate g p dest_row dest_col = Ok g' → moved_flags g' = moved_flags g.
Proof.
  unfold relocate.
  destruct (board_set g _ _ _) as [g1|] eqn:H1; [|done]. rewrite bind_Ok.
  destruct (board_set g1 _ _ _) as [g2|] eqn:H2; [|done]. rewrite bind_Ok.
  intros [= <-]. apply board_set_flags in H1, H2. by rewrite <- H1, <- H2.
Qed.

Lemma promote_flags g p dest_row dest_col g' :
  promote g p dest_row dest_col = Ok g' → moved_flags g' = moved_flags g.
Proof.
  unfold promote. destruct (type_eqb _ _); [|by intros [= <-]].
  destruct (_ || _); [|by intros [= <-]].
  cbn [new_piece]. intros H. by apply board_set_flags in H.
Qed.

Lemma update_castling_rights_flags g p :
  Forall2 (fun a b : bool => a = true → b = true)
          (moved_flags g) (moved_flags (update_castling_rights g p)).
Proof.
  destruct (update_castling_rights_spec g p) as (wk & bk & wa & wh & ba & bh & ->).
  unfold moved_flags. game_cbn.
  repeat constructor; intros ->; done.
Qed.

(** No call of [make_move] that returns lowers a tracking flag. *)
Lemma make_move_flags_monotone g p dest_row dest_col g' :
  make_move g p dest_row dest_col = Ok g' →
  Forall2 (fun a b : bool => a = true → b = true) (moved_flags g) (moved_flags g').
Proof.
  unfold make_move.
  destruct (castle_rook g p dest_col) as [g1|] eqn:H1; [|done]. rewrite bind_Ok.
  destruct (capture_en_passant g1 p dest_row dest_col) as [g2|] eqn:H2; [|done].
  rewrite bind_Ok. cbv zeta.
  destruct (record_en_passant_spec g2 p dest_row dest_col) as [t Ht]. rewrite Ht.
  destruct (board_get _ dest_row dest_col) as [cp|]; [|done]. rewrite bind_Ok.
  destruct (relocate _ p dest_row dest_col) as [g4|] eqn:H4; [|done]. rewrite bind_Ok.
  destruct (promote _ p dest_row dest_col) as [g6|] eqn:H6; [|done]. rewrite bind_Ok.
  intros [= <-].
  apply castle_rook_flags in H1. apply capture_en_passant_flags in H2.
  apply relocate_flags in H4. apply promote_flags in H6.
  replace (moved_flags g) with (moved_flags g4)
    by (by rewrite H4, <- H1, <- H2).
  replace (moved_flags (set_selection _ _ _)) with (moved_flags (update_castling_rights g4 p))
    by (by rewrite <- H6).
  apply update_castling_rights_flags.
Qed.

(** ** What a call of [make_move] does

    No legality test is involved: for a piece standing on its square and any
    destination on the board (a two-column king move aside, which drags a
    rook along) the call returns, the turn passes, one entry is appended to
    the history, the origin is emptied and the destination holds the piece
    or the queen it was promoted to.  The entry records the piece's
    coordinates after they were overwritten, so its origin equals its
    destination. *)
Lemma make_move_spec g p dest_row dest_col :
  board_shape (board g) = true → on_board g p = true →
  in8 dest_row = true → in8 dest_col = true →
  ¬ (type (objs g p) = KING ∧ Z.abs (dest_col - col (objs g p)) = 2) →
  ∃ g',
    make_move g p dest_row dest_col = Ok g'
    ∧ turn g' = opponent (turn g)
    ∧ (∃ e, move_history g' = move_history g ++ [e]
            ∧ h_piece e = p ∧ h_to e = (dest_row, dest_col)
            ∧ h_from e = (dest_row, dest_col))
    ∧ ((dest_row, dest_col) ≠ (row (objs g p), col (objs g p)) →
       board_get g' (row (objs g p)) (col (objs g p)) = Ok None
       ∧ ∃ q, board_get g' dest_row dest_col = Ok (Some q)
              ∧ (q = p ∨ type (objs g' q) = QUEEN)).
Proof.
  intros Hshape Hon Hdr Hdc Hnocastle.
  pose proof (proj1 (on_board_spec _ _) Hon) as (Hor & Hoc & Hp).
  unfold make_move.
  rewrite castle_rook_skip, bind_Ok by done.
  destruct (capture_en_passant_spec g p dest_row dest_col Hshape Hor Hdc)
    as (b2 & -> & Hs2 & _).
  rewrite bind_Ok. cbv zeta.
  destruct (record_en_passant_spec (set_board g b2) p dest_row dest_col) as [t ->].
  rewrite board_get_cell, bind_Ok by done.
  rewrite relocate_spec, bind_Ok by done.
  match goal with
  | |- context [update_castling_rights ?g4 p] =>
      destruct (update_castling_rights_spec g4 p) as (wk & bk & wa & wh & ba & bh & ->)
  end.
  unfold promote. game_simpl.
  set (b4 := cell_upd (cell_upd b2 dest_row dest_col (Some p))
                      (row (objs g p)) (col (objs g p)) None).
  assert (Hs4 : board_shape b4 = true) by (by repeat apply cell_upd_shape).
  assert (Hb4o : cell b4 (row (objs g p)) (col (objs g p)) = None)
    by (subst b4; by rewrite cell_upd_same by (try done; by apply cell_upd_shape)).
  assert (Hb4d : (dest_row, dest_col) ≠ (row (objs g p), col (objs g p)) →
                 cell b4 dest_row dest_col = Some p).
  { intros Hne. subst b4. rewrite cell_upd_other by done. by rewrite cell_upd_same. }
  destruct (type_eqb (type (objs g p)) PAWN);
    [destruct ((color_eqb (color (objs g p)) WHITE && (dest_row =? 0))
               || (color_eqb (color (objs g p)) BLACK && (dest_row =? 7)))|].
  - rewrite board_set_cell, bind_Ok by (game_simpl; done). game_simpl.
    eexists. split; [reflexivity|]. game_simpl.
    split; [done|]. split; [eexists; split; [reflexivity|]; game_simpl; by destruct (p =? next_ref g)%nat|].
    intros Hne.
    rewrite !board_get_cell by (game_simpl; try done; by apply cell_upd_shape).
    game_simpl. split.
    + rewrite cell_upd_other by (try done; congruence). by rewrite Hb4o.
    + exists (next_ref g). rewrite cell_upd_same by done. split; [done|].
      right. by game_simpl.
  - rewrite bind_Ok. eexists. split; [reflexivity|]. game_simpl.
    split; [done|]. split; [eexists; split; [reflexivity|done]|].
    intros Hne. rewrite !board_get_cell by (game_simpl; done). game_simpl.
    rewrite Hb4o, Hb4d by done. eauto.
  - rewrite bind_Ok. eexists. split; [reflexivity|]. game_simpl.
    split; [done|]. split; [eexists; split; [reflexivity|done]|].
    intros Hne. rewrite !board_get_cell by (game_simpl; done). game_simpl.
    rewrite Hb4o, Hb4d by done. eauto.
Qed.

(** * Properties of the rules engine *)

(** C1. After 1. e4 a6 2. e5 d5 the en-passant target is the empty midpoint
    square d6 = (2, 3) and the white pawn on e5 = (3, 4) stands beside the
    pawn that just advanced two squares; [get_valid_moves] for that white
    pawn returns the advance to (2, 4) only, without the capture onto (2, 3). *)
Theorem en_passant_capture_not_offered :
  ∃ g, play new_game en_passant_line = Some g
       ∧ en_passant_target g = Some (2, 3)
       ∧ piece_at g 3 3 = Some (PAWN, BLACK)
       ∧ board_get g 3 4 = Ok (Some 9%nat)
       ∧ (type (objs g 9%nat), color (objs g 9%nat)) = (PAWN, WHITE)
       ∧ board_get g 2 3 = Ok None
       ∧ ∃ g', get_valid_moves g 9%nat = Ok ([(2, 4)], g').
Proof.
  eexists. split; [vm_compute; reflexivity|].
  repeat split; try (vm_compute; reflexivity).
  eexists. vm_compute. reflexivity.
Qed.

(** The attack squares [get_valid_moves_for_opponent] gives a pawn lie one
    row against its direction of advance. *)
Lemma pawn_attack_squares g p :
  type (objs g p) = PAWN →
  get_valid_moves_for_opponent g p =
  Ok (filter (fun s => sq_on_board s = true)
        [(row (objs g p) - pawn_direction (color (objs g p)), col (objs g p) - 1);
         (row (objs g p) - pawn_direction (color (objs g p)), col (objs g p) + 1)]).
Proof.
  intros Hpawn. unfold get_valid_moves_for_opponent. rewrite Hpawn. cbv zeta.
  cbn [extendM]. unfold sq_on_board.
  assert (Hrow : row (objs g p) + match color (objs g p) with WHITE => 1 | BLACK => -1 end
                 = row (objs g p) - pawn_direction (color (objs g p)))
    by (destruct (color (objs g p)); simpl; lia).
  rewrite Hrow. replace (col (objs g p) + -1) with (col (objs g p) - 1) by lia.
  rewrite !filter_cons, filter_nil. cbn [fst snd].
  destruct (in8 (row (objs g p) - pawn_direction (color (objs g p)))
            && in8 (col (objs g p) - 1)) eqn:E1;
  destruct (in8 (row (objs g p) - pawn_direction (color (objs g p)))
            && in8 (col (objs g p) + 1)) eqn:E2;
  repeat case_decide; try done.
Qed.

(** C2. After 1. e4 e5 2. Ke2 d5 3. Ke3 d4 the white king on e3 = (5, 4)
    stands diagonally in front of the black pawn on d4 = (4, 3), which
    advances towards row 7.  The detector gives that pawn the squares
    (3, 2) and (3, 4) behind it, and reports no check. *)
Theorem pawn_check_looks_backwards :
  ∃ g, play new_game pawn_check_line = Some g
       ∧ piece_at g 5 4 = Some (KING, WHITE)
       ∧ board_get g 4 3 = Ok (Some 6%nat)
       ∧ (type (objs g 6%nat), color (objs g 6%nat)) = (PAWN, BLACK)
       ∧ get_valid_moves_for_opponent g 6%nat = Ok [(3, 2); (3, 4)]
       ∧ ∃ g', is_king_in_check g WHITE = Ok (false, g').
Proof.
  eexists. split; [vm_compute; reflexivity|].
  repeat split; try (vm_compute; reflexivity).
  eexists. vm_compute. reflexivity.
Qed.

(** C3. After 1. Nc3 a6 the white rook stands on its home square a1 = (7, 0);
    the move Ra1-b1 is applied, the rook object is marked as moved, and the
    tracking flag [white_rook_a_moved] is still [False]. *)
Theorem home_rook_move_leaves_flag :
  ∃ g0 g, play new_game rook_line = Some g0
          ∧ board_get g0 7 0 = Ok (Some 17%nat)
          ∧ (type (objs g0 17%nat), color (objs g0 17%nat)) = (ROOK, WHITE)
          ∧ click_move g0 (7, 0) (7, 1) = Some g
          ∧ board_get g 7 1 = Ok (Some 17%nat)
          ∧ has_moved (objs g 17%nat) = true
          ∧ white_rook_a_moved g = false.
Proof.
  eexists _, _. split; [vm_compute; reflexivity|].
  split; [vm_compute; reflexivity|]. split; [vm_compute; reflexivity|].
  split; [vm_compute; reflexivity|].
  repeat split; vm_compute; reflexivity.
Qed.

(** C4. The first move 1. e4 takes the pawn from (6, 4) to (4, 4); the one
    history entry it appends records (4, 4) as origin and as destination. *)
Theorem history_entry_loses_origin :
  board_get new_game 6 4 = Ok (Some 9%nat)
  ∧ ∃ g, click_move new_game (6, 4) (4, 4) = Some g
         ∧ move_history g = [mkEntry 9%nat (4, 4) (4, 4) None].
Proof.
  split; [vm_compute; reflexivity|].
  eexists. split; vm_compute; reflexivity.
Qed.

(** C5. After 1. Nf3 a6 2. e3 b6 3. Be2 c6 the white king on e1 = (7, 4) has
    one regular move and may castle king-side; the squares taken as attacked
    by it are (7, 5) and the castling destination (7, 6), two columns away. *)
Theorem king_attack_set_has_castling_square :
  ∃ g, play new_game castle_ready_line = Some g
       ∧ board_get g 7 4 = Ok (Some 25%nat)
       ∧ (type (objs g 25%nat), color (objs g 25%nat)) = (KING, WHITE)
       ∧ get_valid_moves_for_opponent g 25%nat = Ok [(7, 5); (7, 6)].
Proof.
  eexists. split; [vm_compute; reflexivity|].
  repeat split; vm_compute; reflexivity.
Qed.

(** C6. On a board without a king of the queried colour [is_king_in_check]
    returns [False], raises nothing and leaves the game untouched. *)
Theorem is_king_in_check_without_king g k :
  board_shape (board g) = true → no_king g k = true →
  is_king_in_check g k = Ok (false, g).
Proof.
  intros Hshape Hno. unfold is_king_in_check.
  by rewrite (find_king_none g k all_squares Hshape all_squares_on_board Hno).
Qed.

Lemma is_king_in_check_without_king_witness :
  is_king_in_check without_white_king WHITE = Ok (false, without_white_king).
Proof.
  apply (is_king_in_check_without_king without_white_king WHITE).
  - vm_compute; reflexivity.
  - vm_compute; reflexivity.
Defined.

(** C7. The probe [move_puts_king_in_check], called for a piece standing on
    its square and a destination on the board, returns with the board equal
    to the board before the call and with every piece object carrying the
    row and column it carried before. *)
Theorem probe_restores_board_and_coordinates g p dest_row dest_col :
  board_shape (board g) = true → on_board g p = true →
  in8 dest_row = true → in8 dest_col = true →
  ∃ in_check g',
    move_puts_king_in_check g p dest_row dest_col = Ok (in_check, g')
    ∧ board g' = board g
    ∧ ∀ q, row (objs g' q) = row (objs g q) ∧ col (objs g' q) = col (objs g q).
Proof.
  intros Hshape Hon Hdr Hdc.
  destruct (move_puts_king_in_check_frame g p dest_row dest_col Hshape Hon Hdr Hdc)
    as (b & g' & Hrun & Hsame).
  exists b, g'. split; [done|]. split; [by apply same_game_board|].
  intros q. destruct Hsame as [_ Hobjs]. by rewrite Hobjs.
Qed.

Lemma probe_restores_board_and_coordinates_witness :
  ∃ in_check g',
    move_puts_king_in_check new_game 9%nat 4 4 = Ok (in_check, g')
    ∧ board g' = board new_game
    ∧ ∀ q, row (objs g' q) = row (objs new_game q)
           ∧ col (objs g' q) = col (objs new_game q).
Proof.
  apply (probe_restores_board_and_coordinates new_game 9%nat 4 4).
  - vm_compute; reflexivity.
  - vm_compute; reflexivity.
  - vm_compute; reflexivity.
  - vm_compute; reflexivity.
Defined.

(** C8, as stated, fails: on the initial position the square (3, 4) is not
    among the legal destinations of the pawn on (6, 4), and [make_move]
    returns normally with the pawn moved there and the turn passed. *)
Lemma make_move_accepts_illegal_destination :
  ∃ vs g1 g',
    get_valid_moves new_game 9%nat = Ok (vs, g1)
    ∧ square_in (3, 4) vs = false
    ∧ make_move new_game 9%nat 3 4 = Ok g'
    ∧ board_get g' 3 4 = Ok (Some 9%nat)
    ∧ board g' ≠ board new_game
    ∧ turn g' ≠ turn new_game.
Proof.
  eexists _, _, _. split; [vm_compute; reflexivity|].
  split; [vm_compute; reflexivity|]. split; [vm_compute; reflexivity|].
  split; [vm_compute; reflexivity|]. split.
  - intros H. apply (f_equal (fun b => cell b 3 4)) in H. vm_compute in H. discriminate.
  - vm_compute. discriminate.
Qed.

(** C8, amended. [make_move] does not look at the legal-move set: for every
    piece standing on its square and every destination on the board, legal or
    not (a two-column king move aside), it returns without an error, passes
    the turn, appends one history entry for the piece and the destination,
    and for a destination other than the origin empties the origin and puts
    the piece, or the queen it is promoted to, on the destination. *)
Theorem make_move_applies_without_validation g p dest_row dest_col :
  board_shape (board g) = true → on_board g p = true →
  in8 dest_row = true → in8 dest_col = true →
  ¬ (type (objs g p) = KING ∧ Z.abs (dest_col - col (objs g p)) = 2) →
  ∃ g',
    make_move g p dest_row dest_col = Ok g'
    ∧ turn g' = opponent (turn g)
    ∧ (∃ e, move_history g' = move_history g ++ [e]
            ∧ h_piece e = p ∧ h_to e = (dest_row, dest_col))
    ∧ ((dest_row, dest_col) ≠ (row (objs g p), col (objs g p)) →
       board_get g' (row (objs g p)) (col (objs g p)) = Ok None
       ∧ ∃ q, board_get g' dest_row dest_col = Ok (Some q)
              ∧ (q = p ∨ type (objs g' q) = QUEEN)).
Proof.
  intros Hshape Hon Hdr Hdc Hnocastle.
  destruct (make_move_spec g p dest_row dest_col Hshape Hon Hdr Hdc Hnocastle)
    as (g' & Hrun & Hturn & (e & He & Hp & Hto & _) & Hboard).
  exists g'. split; [done|]. split; [done|]. split; [by exists e|]. exact Hboard.
Qed.

Lemma make_move_applies_without_validation_witness :
  ∃ g',
    make_move new_game 9%nat 3 4 = Ok g'
    ∧ turn g' = opponent (turn new_game)
    ∧ (∃ e, move_history g' = move_history new_game ++ [e]
            ∧ h_piece e = 9%nat ∧ h_to e = (3, 4))
    ∧ ((3, 4) ≠ (row (objs new_game 9%nat), col (objs new_game 9%nat)) →
       board_get g' (row (objs new_game 9%nat)) (col (objs new_game 9%nat)) = Ok None
       ∧ ∃ q, board_get g' 3 4 = Ok (Some q)
              ∧ (q = 9%nat ∨ type (objs g' q) = QUEEN)).
Proof.
  apply (make_move_applies_without_validation new_game 9%nat 3 4).
  - vm_compute; reflexivity.
  - vm_compute; reflexivity.
  - vm_compute; reflexivity.
  - vm_compute; reflexivity.
  - intros [H _]. vm_compute in H. discriminate.
Defined.

(** C9. Promotion: on a board whose pieces record the coordinates of their
    cells, when [make_move] takes a pawn (an existing object standing on its
    square) to the opposite back rank (row 0 for White, row 7 for Black),
    the call returns, the destination cell afterwards holds a queen of the
    pawn's colour, and no cell of the board holds the pawn. *)
Theorem promotion_replaces_pawn g p dest_row dest_col :
  board_shape (board g) = true → coords_agree g = true →
  on_board g p = true → (p < next_ref g)%nat →
  type (objs g p) = PAWN →
  dest_row = match color (objs g p) with WHITE => 0 | BLACK => 7 end →
  in8 dest_col = true →
  ∃ g' q,
    make_move g p dest_row dest_col = Ok g'
    ∧ board_get g' dest_row dest_col = Ok (Some q)
    ∧ type (objs g' q) = QUEEN
    ∧ color (objs g' q) = color (objs g p)
    ∧ ∀ r c, in8 r = true → in8 c = true → board_get g' r c ≠ Ok (Some p).
Proof.
  intros Hshape Hag Hon Halloc Hpawn Hdr Hdc.
  pose proof (proj1 (on_board_spec _ _) Hon) as (Hor & Hoc & Hp).
  assert (Hdr8 : in8 dest_row = true) by (subst; by destruct (color (objs g p))).
  unfold make_move.
  rewrite castle_rook_skip, bind_Ok by (rewrite Hpawn; intros [? _]; done).
  destruct (capture_en_passant_spec g p dest_row dest_col Hshape Hor Hdc)
    as (b2 & -> & Hs2 & Hcells2).
  rewrite bind_Ok. cbv zeta.
  destruct (record_en_passant_spec (set_board g b2) p dest_row dest_col) as [t ->].
  rewrite board_get_cell, bind_Ok by done.
  rewrite relocate_spec, bind_Ok by done.
  destruct (update_castling_rights_spec
    (set_has_moved
       (set_pos
          (set_board (set_en_passant_target (set_board g b2) t)
             (cell_upd
                (cell_upd (board (set_en_passant_target (set_board g b2) t))
                   dest_row dest_col (Some p))
                (row (objs (set_en_passant_target (set_board g b2) t) p))
                (col (objs (set_en_passant_target (set_board g b2) t) p)) None))
          p dest_row dest_col) p) p) as (wk & bk & wa & wh & ba & bh & ->).
  unfold promote. game_simpl. rewrite Hpawn.
  replace (type_eqb PAWN PAWN) with true by done.
  assert (Hcond : (color_eqb (color (objs g p)) WHITE && (dest_row =? 0))
                  || (color_eqb (color (objs g p)) BLACK && (dest_row =? 7)) = true).
  { subst dest_row. by destruct (color (objs g p)). }
  rewrite Hcond.
  rewrite board_set_cell by (game_simpl; try done; by repeat apply cell_upd_shape).
  rewrite bind_Ok. game_simpl.
  set (b4 := cell_upd (cell_upd b2 dest_row dest_col (Some p))
                      (row (objs g p)) (col (objs g p)) None).
  assert (Hs4 : board_shape b4 = true) by (by repeat apply cell_upd_shape).
  eexists _, (next_ref g). split; [reflexivity|].
  split; [|split; [|split]].
  - rewrite board_get_cell by (game_simpl; try done; by apply cell_upd_shape).
    game_simpl. by rewrite cell_upd_same.
  - by game_simpl.
  - by game_simpl.
  - intros r c Hr Hc.
    rewrite board_get_cell by (game_simpl; try done; by apply cell_upd_shape).
    game_simpl. rewrite cell_upd_cell by done. case_decide as Hd.
    + intros [= Heq]. lia.
    + subst b4. rewrite !cell_upd_cell by (try done; by apply cell_upd_shape).
      case_decide as Ho; [done|]. case_decide; [done|].
      intros [= Hcell]. destruct (Hcells2 r c Hr Hc) as [E|E]; rewrite E in Hcell; [|done].
      destruct (coords_agree_cell g r c p Hag Hr Hc Hcell) as [<- <-]. by apply Ho.
Qed.

Lemma promotion_replaces_pawn_witness :
  ∃ g' q,
    make_move (position_after promotion_line) 15%nat 0 7 = Ok g'
    ∧ board_get g' 0 7 = Ok (Some q)
    ∧ type (objs g' q) = QUEEN
    ∧ color (objs g' q) = color (objs (position_after promotion_line) 15%nat)
    ∧ ∀ r c, in8 r = true → in8 c = true → board_get g' r c ≠ Ok (Some 15%nat).
Proof.
  apply (promotion_replaces_pawn (position_after promotion_line) 15%nat 0 7).
  - vm_compute; reflexivity.
  - vm_compute; reflexivity.
  - vm_compute; reflexivity.
  - vm_compute; lia.
  - vm_compute; reflexivity.
  - vm_compute; reflexivity.
  - vm_compute; reflexivity.
Defined.

(** C10. On a board whose pieces record the coordinates of their cells, for
    every piece on it [get_valid_moves] returns, and every destination it
    returns has row and column in [0, 7] and is not a cell holding a piece of
    the mover's colour; the board is as before the call. *)
Theorem get_valid_moves_on_board_not_own g p r c :
  board_shape (board g) = true → coords_agree g = true →
  in8 r = true → in8 c = true → board_get g r c = Ok (Some p) →
  ∃ vs g',
    get_valid_moves g p = Ok (vs, g')
    ∧ board g' = board g
    ∧ ∀ s, In s vs →
           0 ≤ s.1 < 8 ∧ 0 ≤ s.2 < 8
           ∧ ∀ q, board_get g s.1 s.2 = Ok (Some q) →
                  color (objs g q) ≠ color (objs g p).
Proof.
  intros Hshape Hag Hr Hc Hcell. rewrite board_get_cell in Hcell by done.
  injection Hcell as Hcell.
  pose proof (coords_agree_on_board g r c p Hag Hr Hc Hcell) as Hon.
  destruct (get_valid_moves_spec g p Hshape Hon) as (vs & g' & Hrun & Hsame & Hgood).
  exists vs, g'. split; [done|]. split; [by apply same_game_board|].
  intros s Hs. rewrite Forall_forall in Hgood.
  destruct (Hgood s) as (H1 & H2 & Hocc); [by apply list_elem_of_In|].
  split; [by apply in8_spec|]. split; [by apply in8_spec|].
  intros q Hq. rewrite board_get_cell in Hq by done. injection Hq as Hq.
  unfold occupied_by in Hocc. rewrite Hq in Hocc.
  unfold color_eqb in Hocc. by apply bool_decide_eq_false in Hocc.
Qed.

Lemma get_valid_moves_on_board_not_own_witness :
  ∃ vs g',
    get_valid_moves new_game 9%nat = Ok (vs, g')
    ∧ board g' = board new_game
    ∧ ∀ s, In s vs →
           0 ≤ s.1 < 8 ∧ 0 ≤ s.2 < 8
           ∧ ∀ q, board_get new_game s.1 s.2 = Ok (Some q) →
                  color (objs new_game q) ≠ color (objs new_game 9%nat).
Proof.
  apply (get_valid_moves_on_board_not_own new_game 9%nat 6 4).
  - vm_compute; reflexivity.
  - vm_compute; reflexivity.
  - vm_compute; reflexivity.
  - vm_compute; reflexivity.
  - vm_compute; reflexivity.
Defined.


(** * Further properties of the engine *)

(** ** Mouse positions and squares *)

Lemma SQUARE_SIZE_value : SQUARE_SIZE = 80 ∧ MARGIN_X = 80 ∧ MARGIN_Y = 80.
Proof. done. Qed.

(** X1. A mouse position is mapped to the square [(row, col)] exactly when
    both are in [0, 7] and the position lies in the rectangle that
    [draw_board] paints for that square; every other position gives [None]. *)
Theorem get_square_from_mouse_rect pos row col :
  get_square_from_mouse pos = Some (row, col) ↔
  (0 ≤ row < 8 ∧ 0 ≤ col < 8) ∧ in_rect pos (square_rect row col).
Proof.
  destruct pos as [x y]. unfold get_square_from_mouse, in_rect, square_rect.
  destruct SQUARE_SIZE_value as (-> & -> & ->).
  change BOARD_SIZE with 640. cbn [fst snd].
  pose proof (Z.div_mod (x - 80) 80 ltac:(lia)) as Hx.
  pose proof (Z.mod_pos_bound (x - 80) 80 ltac:(lia)) as Hxm.
  pose proof (Z.div_mod (y - 80) 80 ltac:(lia)) as Hy.
  pose proof (Z.mod_pos_bound (y - 80) 80 ltac:(lia)) as Hym.
  destruct ((80 <=? x) && (x <? 80 + 640) && ((80 <=? y) && (y <? 80 + 640))) eqn:Hin.
  - apply andb_true_iff in Hin as [Hx' Hy'].
    apply andb_true_iff in Hx' as [Hx1 Hx2]. apply andb_true_iff in Hy' as [Hy1 Hy2].
    apply Z.leb_le in Hx1, Hy1. apply Z.ltb_lt in Hx2, Hy2.
    assert (Hr : in8 ((y - 80) / 80) = true) by (apply in8_spec; lia).
    assert (Hc : in8 ((x - 80) / 80) = true) by (apply in8_spec; lia).
    rewrite Hr, Hc. cbn [andb]. split.
    + intros [= <- <-]. apply in8_spec in Hr, Hc. lia.
    + intros [[Hrow Hcol] [Hxr Hyr]]. f_equal. f_equal; lia.
  - split; [done|]. intros [[Hrow Hcol] [Hxr Hyr]].
    apply andb_false_iff in Hin as [Hin|Hin]; apply andb_false_iff in Hin as [Hin|Hin];
      first [apply Z.leb_gt in Hin | apply Z.ltb_ge in Hin]; lia.
Qed.

(** ** Sliding pieces *)

Lemma extendM_In {A} (f : A → result (list Square)) xs s :
  ∀ l, extendM f xs = Ok l →
       (In s l ↔ ∃ x l', In x xs ∧ f x = Ok l' ∧ In s l').
Proof.
  induction xs as [|x xs IH]; intros l; simpl.
  - intros [= <-]. split; [done|]. by intros (? & ? & [] & _).
  - destruct (f x) as [ys|] eqn:Hx; [|done]. rewrite bind_Ok.
    destruct (extendM f xs) as [zs|]; [|done]. rewrite bind_Ok.
    intros [= <-]. rewrite in_app_iff, (IH zs eq_refl). split.
    + intros [Hs|(x' & l' & Hin & Hf & Hs)].
      * exists x, ys. auto.
      * exists x', l'. auto.
    + intros (x' & l' & [<-|Hin] & Hf & Hs).
      * left. congruence.
      * right. eauto.
Qed.

(** The squares one ray yields, for the steps [a, a + 1, ..., a + n - 1]. *)
Lemma slide_seq g pc dr dc :
  board_shape (board g) = true →
  ∀ n a l, slide g pc dr dc (map Z.of_nat (seq a n)) = Ok l →
  ∀ s, In s l ↔
       ∃ i : nat, (a ≤ i < a + n)%nat
         ∧ s = (row pc + Z.of_nat i * dr, col pc + Z.of_nat i * dc)
         ∧ in8 s.1 = true ∧ in8 s.2 = true
         ∧ (∀ j : nat, (a ≤ j < i)%nat →
               in8 (row pc + Z.of_nat j * dr) = true ∧ in8 (col pc + Z.of_nat j * dc) = true
               ∧ cell (board g) (row pc + Z.of_nat j * dr) (col pc + Z.of_nat j * dc) = None)
         ∧ occupied_by g (color pc) s = false.
Proof.
  intros Hshape. induction n as [|n IH]; intros a l; simpl.
  - intros [= <-] s. split; [done|]. intros (i & Hi & _). lia.
  - destruct (in8 (row pc + Z.of_nat a * dr) && in8 (col pc + Z.of_nat a * dc)) eqn:Hin; simpl.
    + apply andb_true_iff in Hin as [Hr Hc].
      rewrite board_get_cell, bind_Ok by done.
      destruct (cell (board g) (row pc + Z.of_nat a * dr) (col pc + Z.of_nat a * dc)) as [q|] eqn:Hcell.
      * (* an occupied square ends the ray *)
        assert (Hstop : ∀ i : nat, (a < i)%nat →
          ¬ ∀ j : nat, (a ≤ j < i)%nat →
               in8 (row pc + Z.of_nat j * dr) = true ∧ in8 (col pc + Z.of_nat j * dc) = true
               ∧ cell (board g) (row pc + Z.of_nat j * dr) (col pc + Z.of_nat j * dc) = None).
        { intros i Hi Hall. destruct (Hall a) as (_ & _ & Hn); [lia|]. congruence. }
        destruct (color_eqb (color (objs g q)) (color pc)) eqn:Hk; simpl;
          intros [= <-] s; simpl; split.
        -- done.
        -- intros (i & Hi & -> & _ & _ & Hall & Hocc).
           destruct (decide (i = a)) as [->|Hne].
           ++ unfold occupied_by in Hocc. simpl in Hocc. rewrite Hcell in Hocc. congruence.
           ++ destruct (Hstop i); [lia|done].
        -- intros [<-|[]]. exists a. split; [lia|]. split; [done|].
           split; [done|]. split; [done|]. split; [intros j Hj; lia|].
           unfold occupied_by. simpl. by rewrite Hcell.
        -- intros (i & Hi & -> & _ & _ & Hall & Hocc).
           destruct (decide (i = a)) as [->|Hne]; [by left|].
           destruct (Hstop i); [lia|done].
      * destruct (slide g pc dr dc (map Z.of_nat (seq (S a) n))) as [rest|] eqn:Hrest;
          [|done].
        rewrite bind_Ok. intros [= <-] s. simpl. rewrite (IH (S a) rest Hrest s). split.
        -- intros [<-|(i & Hi & -> & Hr' & Hc' & Hall & Hocc)].
           ++ exists a. split; [lia|]. split; [done|].
              split; [done|]. split; [done|]. split; [intros j Hj; lia|].
              unfold occupied_by. simpl. by rewrite Hcell.
           ++ exists i. split; [lia|]. split; [done|].
              split; [done|]. split; [done|]. split; [|done].
              intros j Hj. destruct (decide (j = a)) as [->|Hne]; [done|].
              apply Hall. lia.
        -- intros (i & Hi & -> & Hr' & Hc' & Hall & Hocc).
           destruct (decide (i = a)) as [->|Hne]; [by left|].
           right. exists i. split; [lia|]. split; [done|].
           split; [done|]. split; [done|]. split; [|done].
           intros j Hj. apply Hall. lia.
    + intros [= <-] s. split; [done|].
      intros (i & Hi & -> & Hr' & Hc' & Hall & _). simpl in Hr', Hc'.
      apply andb_false_iff in Hin.
      destruct (decide (i = a)) as [->|Hne].
      * destruct Hin; congruence.
      * destruct (Hall a) as (? & ? & _); [lia|]. destruct Hin; congruence.
Qed.

Lemma slide_moves_slides_to g p directions :
  board_shape (board g) = true →
  ∃ l, slide_moves g p directions = Ok l
       ∧ ∀ s, In s l ↔ slides_to g p directions s.
Proof.
  intros Hshape.
  destruct (slide_moves_good g Hshape p directions) as (l & Hl & _).
  exists l. split; [done|]. intros s. unfold slide_moves in Hl.
  rewrite (extendM_In _ _ s l Hl). unfold slides_to, ray_clear. split.
  - intros (d & l' & Hd & Hray & Hs).
    change range_1_8 with (map Z.of_nat (seq 1 7)) in Hray.
    apply (slide_seq g (objs g p) d.1 d.2 Hshape 7 1 l' Hray s) in Hs
      as (i & Hi & -> & Hr & Hc & Hall & Hocc).
    exists d, (Z.of_nat i). split; [done|]. split; [lia|]. split; [done|].
    split; [done|]. split; [done|]. split; [|done].
    intros j Hj. replace j with (Z.of_nat (Z.to_nat j)) by lia. apply Hall. lia.
  - intros (d & i & Hd & Hi & -> & Hr & Hc & Hall & Hocc).
    destruct (slide_good g Hshape (objs g p) d.1 d.2 range_1_8) as (l' & Hray & _).
    exists d, l'. split; [done|]. split; [done|].
    change range_1_8 with (map Z.of_nat (seq 1 7)) in Hray.
    apply (slide_seq g (objs g p) d.1 d.2 Hshape 7 1 l' Hray).
    exists (Z.to_nat i). split; [lia|]. rewrite Z2Nat.id by lia.
    split; [done|]. split; [done|]. split; [done|]. split; [|done].
    intros j Hj. apply Hall. lia.
Qed.

(** X2. The destinations of a rook are exactly the squares reached along
    its row or column over empty squares that are on the board and empty or
    held by the other side; the call does not raise. *)
Theorem get_rook_moves_exact g p :
  board_shape (board g) = true →
  ∃ l, get_rook_moves g p = Ok l
       ∧ ∀ s, In s l ↔ slides_to g p [(0, 1); (0, -1); (1, 0); (-1, 0)] s.
Proof. apply slide_moves_slides_to. Qed.

(** X3. The destinations of a bishop are exactly the squares reached along
    a diagonal over empty squares that are on the board and empty or held
    by the other side. *)
Theorem get_bishop_moves_exact g p :
  board_shape (board g) = true →
  ∃ l, get_bishop_moves g p = Ok l
       ∧ ∀ s, In s l ↔ slides_to g p [(1, 1); (1, -1); (-1, 1); (-1, -1)] s.
Proof. apply slide_moves_slides_to. Qed.

(** X4. The destinations of a queen are exactly those of a rook and of a
    bishop on her square. *)
Theorem get_queen_moves_exact g p :
  board_shape (board g) = true →
  ∃ l, get_queen_moves g p = Ok l
       ∧ ∀ s, In s l ↔
              slides_to g p [(0, 1); (0, -1); (1, 0); (-1, 0);
                             (1, 1); (1, -1); (-1, 1); (-1, -1)] s.
Proof.
  intros Hshape. unfold get_queen_moves, get_rook_moves, get_bishop_moves.
  destruct (slide_moves_slides_to g p [(0, 1); (0, -1); (1, 0); (-1, 0)] Hshape)
    as (a & -> & Ha).
  destruct (slide_moves_slides_to g p [(1, 1); (1, -1); (-1, 1); (-1, -1)] Hshape)
    as (b & -> & Hb).
  rewrite !bind_Ok. exists (a ++ b). split; [done|]. intros s.
  rewrite in_app_iff, Ha, Hb. unfold slides_to. split.
  - intros [(d & i & Hd & H)|(d & i & Hd & H)]; exists d, i; (split; [|done]);
      simpl in *; tauto.
  - intros (d & i & Hd & H).
    assert (In d [(0, 1); (0, -1); (1, 0); (-1, 0)]
            ∨ In d [(1, 1); (1, -1); (-1, 1); (-1, -1)]) as [Hd'|Hd']
      by (simpl in *; tauto); [left|right]; exists d, i; done.
Qed.

(** ** Knight, king and pawn *)

Lemma offset_moves_exact g p offsets :
  board_shape (board g) = true →
  ∃ l, offset_moves g p offsets = Ok l
       ∧ ∀ s, In s l ↔
              ∃ d, In d offsets
                   ∧ s = (row (objs g p) + d.1, col (objs g p) + d.2)
                   ∧ in8 s.1 = true ∧ in8 s.2 = true
                   ∧ occupied_by g (color (objs g p)) s = false.
Proof.
  intros Hshape.
  destruct (offset_moves_good g Hshape p offsets) as (l & Hl & _).
  exists l. split; [done|]. intros s. unfold offset_moves in Hl.
  rewrite (extendM_In _ _ s l Hl). cbv zeta.
  assert (Hone : ∀ d l',
    (if in8 (row (objs g p) + d.1) && in8 (col (objs g p) + d.2)
     then target ← board_get g (row (objs g p) + d.1) (col (objs g p) + d.2);
          match target with
          | None => Ok [(row (objs g p) + d.1, col (objs g p) + d.2)]
          | Some q => if negb (color_eqb (color (objs g q)) (color (objs g p)))
                      then Ok [(row (objs g p) + d.1, col (objs g p) + d.2)]
                      else Ok []
          end
     else Ok []) = Ok l' →
    (In s l' ↔ s = (row (objs g p) + d.1, col (objs g p) + d.2)
               ∧ in8 s.1 = true ∧ in8 s.2 = true
               ∧ occupied_by g (color (objs g p)) s = false)).
  { intros d l'.
    destruct (in8 (row (objs g p) + d.1) && in8 (col (objs g p) + d.2)) eqn:Hin.
    - apply andb_true_iff in Hin as [Hr Hc].
      rewrite board_get_cell, bind_Ok by done.
      destruct (cell (board g) (row (objs g p) + d.1) (col (objs g p) + d.2))
        as [q|] eqn:Hcell;
        [destruct (color_eqb (color (objs g q)) (color (objs g p))) eqn:Hk|];
        simpl; intros [= <-]; simpl; split.
      + done.
      + intros (-> & _ & _ & Hocc). unfold occupied_by in Hocc. simpl in Hocc.
        rewrite Hcell in Hocc. congruence.
      + intros [<-|[]]. unfold occupied_by. simpl. by rewrite Hcell.
      + intros (-> & _). by left.
      + intros [<-|[]]. unfold occupied_by. simpl. by rewrite Hcell.
      + intros (-> & _). by left.
    - intros [= <-]. split; [done|]. intros (-> & Hr & Hc & _). simpl in Hr, Hc.
      apply andb_false_iff in Hin. destruct Hin; congruence. }
  split.
  - intros (d & l' & Hd & Hf & Hs). exists d. split; [done|]. by apply (Hone d l').
  - intros (d & Hd & Hs).
    destruct (in8 (row (objs g p) + d.1) && in8 (col (objs g p) + d.2)) eqn:Hin.
    + pose proof Hin as Hin'. apply andb_true_iff in Hin' as [Hr Hc].
      destruct (target_good g Hshape (color (objs g p)) _ _ Hr Hc) as (l' & Hl' & _).
      exists d, l'. split; [done|]. rewrite Hin. split; [done|].
      apply (Hone d l'); [by rewrite Hin|done].
    + destruct Hs as (-> & Hr & Hc & _). simpl in Hr, Hc.
      apply andb_false_iff in Hin. destruct Hin; congruence.
Qed.

(** X5. The destinations of a knight are exactly the squares on the board
    one row and two columns, or two rows and one column, away from it that
    are empty or held by the other side. *)
Theorem get_knight_moves_exact g p :
  board_shape (board g) = true →
  ∃ l, get_knight_moves g p = Ok l
       ∧ ∀ s, In s l ↔
              (0 ≤ s.1 < 8 ∧ 0 ≤ s.2 < 8)
              ∧ ((Z.abs (s.1 - row (objs g p)) = 1 ∧ Z.abs (s.2 - col (objs g p)) = 2)
                 ∨ (Z.abs (s.1 - row (objs g p)) = 2 ∧ Z.abs (s.2 - col (objs g p)) = 1))
              ∧ occupied_by g (color (objs g p)) s = false.
Proof.
  intros Hshape. unfold get_knight_moves.
  destruct (offset_moves_exact g p
    [(-2, -1); (-2, 1); (-1, -2); (-1, 2); (1, -2); (1, 2); (2, -1); (2, 1)] Hshape)
    as (l & Hl & Hin).
  exists l. split; [done|]. intros s. rewrite Hin. split.
  - intros (d & Hd & -> & Hr & Hc & Hocc). apply in8_spec in Hr, Hc. simpl in *.
    split; [done|]. split; [|done].
    repeat (destruct Hd as [<-|Hd]; [simpl; lia|]). done.
  - intros ([Hr Hc] & Habs & Hocc).
    exists (s.1 - row (objs g p), s.2 - col (objs g p)).
    split; [|split; [|split; [|split]]].
    + set (dr := s.1 - row (objs g p)) in *. set (dc := s.2 - col (objs g p)) in *.
      assert (Hcases : (dr = -2 ∧ dc = -1) ∨ (dr = -2 ∧ dc = 1) ∨ (dr = -1 ∧ dc = -2)
                       ∨ (dr = -1 ∧ dc = 2) ∨ (dr = 1 ∧ dc = -2) ∨ (dr = 1 ∧ dc = 2)
                       ∨ (dr = 2 ∧ dc = -1) ∨ (dr = 2 ∧ dc = 1)) by lia.
      simpl. repeat (destruct Hcases as [[-> ->]|Hcases]; [tauto|]).
      destruct Hcases as [-> ->]. tauto.
    + destruct s as [r c]. simpl. f_equal; lia.
    + by apply in8_spec.
    + by apply in8_spec.
    + done.
Qed.

Lemma is_rook_of_exact g r c k :
  board_shape (board g) = true → in8 r = true → in8 c = true →
  ∃ b, is_rook_of g r c k = Ok b ∧ (b = true ↔ rook_at g (r, c) k).
Proof.
  intros Hshape Hr Hc. unfold is_rook_of, rook_at. simpl.
  rewrite board_get_cell, bind_Ok by done.
  destruct (cell (board g) r c) as [q|].
  - eexists. split; [done|]. unfold type_eqb, color_eqb.
    rewrite andb_true_iff, !bool_decide_eq_true. split.
    + intros [Ht Hk]. by exists q.
    + intros (q' & [= <-] & Ht & Hk). done.
  - exists false. split; [done|]. split; [done|]. by intros (q & ? & _).
Qed.

Lemma empties_exact g between final b0 :
  board_shape (board g) = true →
  forallb sq_on_board between = true → final = Ok b0 →
  ∃ b, foldr (fun s acc => is_empty g s.1 s.2 <&&> acc) final between = Ok b
       ∧ (b = true ↔ (∀ s, In s between → cell (board g) s.1 s.2 = None) ∧ b0 = true).
Proof.
  intros Hshape Hon ->. induction between as [|s between IH]; simpl.
  - exists b0. split; [done|]. split; [by intros ->|by intros [_ ->]].
  - simpl in Hon. apply andb_true_iff in Hon as [Hs Hon].
    apply andb_true_iff in Hs as [Hr Hc].
    destruct (IH Hon) as (b & Hb & Hall). unfold andM at 1.
    rewrite (is_empty_cell g Hshape), bind_Ok by done.
    case_bool_decide as Hcell.
    + exists b. split; [done|]. rewrite Hall. split.
      * intros [Hrest ->]. split; [|done]. intros s' [<-|Hin]; auto.
      * intros [Hrest ->]. split; [|done]. intros s' Hin. apply Hrest. by right.
    + exists false. split; [done|]. split; [done|].
      intros [Hrest _]. destruct Hcell. apply Hrest. by left.
Qed.

Lemma castle_option_exact g king_moved rook_moved between rook_sq k dest :
  board_shape (board g) = true →
  forallb sq_on_board between = true → sq_on_board rook_sq = true →
  ∃ l, castle_option g king_moved rook_moved between rook_sq k dest = Ok l
       ∧ ∀ s, In s l ↔
              s = dest ∧ castle_ready g king_moved rook_moved between rook_sq k.
Proof.
  intros Hshape Hon Hrook. apply andb_true_iff in Hrook as [Hr Hc].
  destruct (is_rook_of_exact g rook_sq.1 rook_sq.2 k Hshape Hr Hc) as (b0 & Hb0 & Hrk).
  destruct (empties_exact g between _ b0 Hshape Hon Hb0) as (b & Hb & Hall).
  replace (rook_sq.1, rook_sq.2) with rook_sq in Hrk by by destruct rook_sq.
  unfold castle_option, castle_ready, andM. rewrite !bind_Ok.
  destruct king_moved; simpl.
  { exists []. split; [done|]. intros s. split; [done|]. by intros (_ & ? & _). }
  destruct rook_moved; simpl.
  { exists []. split; [done|]. intros s. split; [done|]. by intros (_ & _ & ? & _). }
  unfold andM in Hb. rewrite Hb, bind_Ok. destruct b.
  - exists [dest]. split; [done|]. intros s. simpl.
    destruct (proj1 Hall eq_refl) as [Hempty Hb0t]. apply Hrk in Hb0t. split.
    + intros [<-|[]]. done.
    + intros [-> _]. by left.
  - exists []. split; [done|]. intros s. split; [done|].
    intros (_ & _ & _ & Hempty & Hrook). apply Hrk in Hrook.
    assert (false = true) by (apply Hall; done). done.
Qed.

Lemma castling_moves_exact g pc :
  board_shape (board g) = true →
  ∃ l, castling_moves g pc = Ok l ∧ ∀ s, In s l ↔ castling_offer g pc s.
Proof.
  intros Hshape. unfold castling_moves, castling_offer.
  destruct (has_moved pc); simpl.
  { exists []. split; [done|]. intros s. split; [done|]. by intros [? _]. }
  destruct (color pc).
  - destruct (castle_option_exact g (white_king_moved g) (white_rook_h_moved g)
      [(7, 5); (7, 6)] (7, 7) WHITE (7, 6) Hshape eq_refl eq_refl) as (ks & -> & Hks).
    destruct (castle_option_exact g (white_king_moved g) (white_rook_a_moved g)
      [(7, 1); (7, 2); (7, 3)] (7, 0) WHITE (7, 2) Hshape eq_refl eq_refl) as (qs & -> & Hqs).
    rewrite !bind_Ok. exists (ks ++ qs). split; [done|]. intros s.
    rewrite in_app_iff, Hks, Hqs. tauto.
  - destruct (castle_option_exact g (black_king_moved g) (black_rook_h_moved g)
      [(0, 5); (0, 6)] (0, 7) BLACK (0, 6) Hshape eq_refl eq_refl) as (ks & -> & Hks).
    destruct (castle_option_exact g (black_king_moved g) (black_rook_a_moved g)
      [(0, 1); (0, 2); (0, 3)] (0, 0) BLACK (0, 2) Hshape eq_refl eq_refl) as (qs & -> & Hqs).
    rewrite !bind_Ok. exists (ks ++ qs). split; [done|]. intros s.
    rewrite in_app_iff, Hks, Hqs. tauto.
Qed.

(** The destinations of a king: adjacent squares and castling offers. *)
Lemma get_king_moves_char g p :
  board_shape (board g) = true →
  ∃ l, get_king_moves g p = Ok l
       ∧ ∀ s, In s l ↔
              ((0 ≤ s.1 < 8 ∧ 0 ≤ s.2 < 8)
               ∧ Z.abs (s.1 - row (objs g p)) ≤ 1 ∧ Z.abs (s.2 - col (objs g p)) ≤ 1
               ∧ s ≠ (row (objs g p), col (objs g p))
               ∧ occupied_by g (color (objs g p)) s = false)
              ∨ castling_offer g (objs g p) s.
Proof.
  intros Hshape. unfold get_king_moves.
  destruct (offset_moves_exact g p king_offsets Hshape) as (a & -> & Ha).
  destruct (castling_moves_exact g (objs g p) Hshape) as (b & -> & Hb).
  rewrite !bind_Ok. exists (a ++ b). split; [done|]. intros s.
  rewrite in_app_iff, Ha, Hb.
  assert (Hadj : (∃ d, In d king_offsets
                   ∧ s = (row (objs g p) + d.1, col (objs g p) + d.2)
                   ∧ in8 s.1 = true ∧ in8 s.2 = true
                   ∧ occupied_by g (color (objs g p)) s = false) ↔
                 ((0 ≤ s.1 < 8 ∧ 0 ≤ s.2 < 8)
                  ∧ Z.abs (s.1 - row (objs g p)) ≤ 1 ∧ Z.abs (s.2 - col (objs g p)) ≤ 1
                  ∧ s ≠ (row (objs g p), col (objs g p))
                  ∧ occupied_by g (color (objs g p)) s = false)); [|tauto].
  split.
  - intros (d & Hd & -> & Hr & Hc & Hocc). apply in8_spec in Hr, Hc. simpl in *.
    split; [done|].
    repeat (destruct Hd as [<-|Hd];
            [simpl; repeat split; try lia; try done; intros [= ? ?]; lia|]).
    done.
  - intros ([Hr Hc] & Har & Hac & Hne & Hocc).
    exists (s.1 - row (objs g p), s.2 - col (objs g p)).
    split; [|split; [|split; [|split]]].
    + assert (Hnz : s.1 - row (objs g p) ≠ 0 ∨ s.2 - col (objs g p) ≠ 0).
      { destruct (decide (s.1 - row (objs g p) = 0)) as [E1|]; [|by left].
        destruct (decide (s.2 - col (objs g p) = 0)) as [E2|]; [|by right].
        destruct Hne. destruct s as [r c]. simpl in *. f_equal; lia. }
      set (dr := s.1 - row (objs g p)) in *. set (dc := s.2 - col (objs g p)) in *.
      assert (Hcases : (dr = -1 ∧ dc = -1) ∨ (dr = -1 ∧ dc = 0) ∨ (dr = -1 ∧ dc = 1)
                       ∨ (dr = 0 ∧ dc = -1) ∨ (dr = 0 ∧ dc = 1) ∨ (dr = 1 ∧ dc = -1)
                       ∨ (dr = 1 ∧ dc = 0) ∨ (dr = 1 ∧ dc = 1)) by lia.
      unfold king_offsets. simpl.
      repeat (destruct Hcases as [[-> ->]|Hcases]; [tauto|]).
      destruct Hcases as [-> ->]. tauto.
    + destruct s as [r c]. simpl. f_equal; lia.
    + by apply in8_spec.
    + by apply in8_spec.
    + done.
Qed.

(** X6. The destinations of a king are exactly the adjacent squares on the
    board that are empty or held by the other side, together with the
    castling squares: for a king object not marked as moved, the square two
    columns towards a corner of its colour's back rank whenever neither the
    king flag nor that rook's flag is raised, the squares between the e-file
    and the corner are empty and the corner holds a rook of its colour.
    Nothing else is asked for castling: not where the king stands, and not
    whether any of the squares is attacked. *)
Theorem get_king_moves_exact g p :
  board_shape (board g) = true →
  ∃ l, get_king_moves g p = Ok l
       ∧ ∀ s, In s l ↔
              ((0 ≤ s.1 < 8 ∧ 0 ≤ s.2 < 8)
               ∧ Z.abs (s.1 - row (objs g p)) ≤ 1 ∧ Z.abs (s.2 - col (objs g p)) ≤ 1
               ∧ s ≠ (row (objs g p), col (objs g p))
               ∧ occupied_by g (color (objs g p)) s = false)
              ∨ castling_offer g (objs g p) s.
Proof. apply get_king_moves_char. Qed.

(** X7. The destinations of a pawn standing on the board are exactly: the
    square ahead when it is on the board and empty; the square two ahead
    when the pawn is on its starting rank and both squares are empty; and
    each of the two squares diagonally ahead that is on the board and holds
    a piece of the other side.  In particular no destination in another
    column is an empty square. *)
Theorem get_pawn_moves_exact g p :
  board_shape (board g) = true →
  in8 (row (objs g p)) = true → in8 (col (objs g p)) = true →
  ∃ l, get_pawn_moves g p = Ok l
       ∧ ∀ s, In s l ↔
          let pc := objs g p in
          let ahead := row pc + pawn_direction (color pc) in
          (s = (ahead, col pc) ∧ 0 ≤ ahead < 8 ∧ cell (board g) ahead (col pc) = None)
          ∨ (s = (ahead + pawn_direction (color pc), col pc) ∧ pawn_start_rank pc
             ∧ cell (board g) ahead (col pc) = None
             ∧ cell (board g) (ahead + pawn_direction (color pc)) (col pc) = None)
          ∨ (s.1 = ahead ∧ (s.2 = col pc - 1 ∨ s.2 = col pc + 1)
             ∧ 0 ≤ s.1 < 8 ∧ 0 ≤ s.2 < 8
             ∧ ∃ q, cell (board g) s.1 s.2 = Some q ∧ color (objs g q) ≠ color pc).
Proof.
  intros Hshape Hr Hc. unfold get_pawn_moves. rewrite en_passant_moves_nil. cbv zeta.
  set (pc := objs g p) in *. set (d := pawn_direction (color pc)).
  replace (row pc + 2 * d) with (row pc + d + d) by lia.
  assert (Hstart : (color_eqb (color pc) WHITE && (row pc =? 6))
                   || (color_eqb (color pc) BLACK && (row pc =? 1)) = true
                   ↔ pawn_start_rank pc).
  { unfold pawn_start_rank, color_eqb.
    rewrite orb_true_iff, !andb_true_iff, !bool_decide_eq_true, !Z.eqb_eq. tauto. }
  assert (Htwo : pawn_start_rank pc → in8 (row pc + d + d) = true).
  { intros [[Hk Hrow]|[Hk Hrow]]; subst d; rewrite Hk, Hrow; done. }
  (* Forward moves *)
  assert (Hfwd : ∃ fw,
    (free ← Ok (in8 (row pc + d)) <&&>
            (t ← board_get g (row pc + d) (col pc); Ok (bool_decide (t = None)));
     if (free : bool) then
       if (color_eqb (color pc) WHITE && (row pc =? 6))
          || (color_eqb (color pc) BLACK && (row pc =? 1)) then
         t2 ← board_get g (row pc + d + d) (col pc);
         match t2 with
         | None => Ok [(row pc + d, col pc); (row pc + d + d, col pc)]
         | Some _ => Ok [(row pc + d, col pc)]
         end
       else Ok [(row pc + d, col pc)]
     else Ok []) = Ok fw
    ∧ ∀ s, In s fw ↔
        (s = (row pc + d, col pc) ∧ 0 ≤ row pc + d < 8
         ∧ cell (board g) (row pc + d) (col pc) = None)
        ∨ (s = (row pc + d + d, col pc) ∧ pawn_start_rank pc
           ∧ cell (board g) (row pc + d) (col pc) = None
           ∧ cell (board g) (row pc + d + d) (col pc) = None)).
  { unfold andM. rewrite bind_Ok.
    destruct (in8 (row pc + d)) eqn:Hn.
    - pose proof (proj1 (in8_spec _) Hn) as Hn'.
      rewrite (board_get_cell g (row pc + d) (col pc)), !bind_Ok by done.
      destruct (cell (board g) (row pc + d) (col pc)) as [q|] eqn:Hcell.
      + rewrite bool_decide_eq_false_2 by done. exists []. split; [done|].
        intros s. split; [done|]. intros [(_ & _ & ?)|(_ & _ & ? & _)]; done.
      + rewrite bool_decide_eq_true_2 by done.
        destruct ((color_eqb (color pc) WHITE && (row pc =? 6))
                  || (color_eqb (color pc) BLACK && (row pc =? 1))) eqn:Hst.
        * pose proof (proj1 Hstart eq_refl) as Hsr.
          rewrite board_get_cell, bind_Ok by auto.
          destruct (cell (board g) (row pc + d + d) (col pc)) as [q|] eqn:Hcell2;
            eexists; (split; [done|]); intros s; simpl; split.
          -- intros [<-|[]]. by left.
          -- intros [(-> & _)|(_ & _ & _ & ?)]; [by left|done].
          -- intros [<-|[<-|[]]]; [by left|by right].
          -- intros [(-> & _)|(-> & _)]; auto.
        * assert (Hnot : ¬ pawn_start_rank pc) by (rewrite <- Hstart; congruence).
          eexists. split; [done|]. intros s. simpl. split.
          -- intros [<-|[]]. by left.
          -- intros [(-> & _)|(_ & ? & _)]; [by left|done].
    - exists []. split; [done|]. intros s. split; [done|].
      apply Z.eqb_neq in Hn || idtac. intros [(_ & Hb & _)|(_ & Hsr & _)].
      + apply in8_spec in Hb. congruence.
      + assert (in8 (row pc + d) = true); [|congruence].
        destruct Hsr as [[Hk Hrow]|[Hk Hrow]]; subst d; rewrite Hk, Hrow; done. }
  destruct Hfwd as (fw & -> & Hfw). rewrite bind_Ok.
  (* Captures *)
  set (f := fun c : Z =>
         if in8 c then
           if in8 (row pc + d) then
             target ← board_get g (row pc + d) c;
             match target with
             | Some q => if negb (color_eqb (color (objs g q)) (color pc))
                         then Ok [(row pc + d, c)] else Ok []
             | None => Ok []
             end
           else Ok []
         else Ok []).
  assert (Hone : ∀ c, ∃ l', f c = Ok l'
    ∧ ∀ s, In s l' ↔ s = (row pc + d, c) ∧ 0 ≤ row pc + d < 8 ∧ 0 ≤ c < 8
                      ∧ ∃ q, cell (board g) (row pc + d) c = Some q
                             ∧ color (objs g q) ≠ color pc).
  { intros c. unfold f.
    destruct (in8 c) eqn:Hc'.
    2:{ exists []. split; [done|]. intros s. split; [done|].
        intros (_ & _ & Hb & _). apply in8_spec in Hb. congruence. }
    destruct (in8 (row pc + d)) eqn:Hr'.
    2:{ exists []. split; [done|]. intros s. split; [done|].
        intros (_ & Hb & _). apply in8_spec in Hb. congruence. }
    rewrite board_get_cell, bind_Ok by done.
    apply in8_spec in Hc', Hr'.
    destruct (cell (board g) (row pc + d) c) as [q|] eqn:Hcell.
    2:{ exists []. split; [done|]. intros s. split; [done|].
        by intros (_ & _ & _ & q & ? & _). }
    unfold color_eqb. case_bool_decide as Hk; simpl.
    - exists []. split; [done|]. intros s. split; [done|].
      intros (_ & _ & _ & q' & [= <-] & Hq). done.
    - eexists. split; [done|]. intros s. simpl. split.
      + intros [<-|[]]. eauto 10.
      + intros (-> & _). by left. }
  destruct (Hone (col pc - 1)) as (l1 & Hl1 & Hin1).
  destruct (Hone (col pc + 1)) as (l2 & Hl2 & Hin2).
  cbn [extendM]. fold f. rewrite Hl1, Hl2, !bind_Ok.
  eexists. split; [done|]. intros s. rewrite !app_nil_r, !in_app_iff, Hfw, Hin1, Hin2.
  destruct s as [sr sc]. simpl. split.
  - intros [[H|H]|[H|H]]; [by left|by (right; left)| |];
      destruct H as ([= -> ->] & Hb1 & Hb2 & Hq); right; right; repeat split; auto; lia.
  - intros [H|[H|(-> & [-> | ->] & Hb1 & Hb2 & Hq)]]; [by (left; left)|by (left; right)| |];
      right; [left|right]; done.
Qed.

(** ** Well-formed games are kept well-formed *)

Lemma all_squares_sound s : In s all_squares → in8 s.1 = true ∧ in8 s.2 = true.
Proof.
  intros Hin. pose proof all_squares_on_board as Hall.
  rewrite forallb_forall in Hall. by apply andb_true_iff, Hall.
Qed.

Lemma cell_ok_spec g r c :
  cell_ok g (r, c) = true ↔
  ∀ q, cell (board g) r c = Some q → piece_ok g q r c.
Proof.
  unfold cell_ok, piece_ok. simpl. destruct (cell (board g) r c) as [q|].
  - rewrite !andb_true_iff, !Z.eqb_eq, Nat.ltb_lt. unfold type_eqb. split.
    + intros [[[Hr Hc] Hlt] Hk] q' [= <-].
      split; [done|]. split; [done|]. split; [done|].
      intros Ht Hm. rewrite bool_decide_eq_true_2, Hm in Hk by done.
      simpl in Hk. apply andb_true_iff in Hk as [H1 H2].
      by apply Z.eqb_eq in H1, H2.
    + intros H. destruct (H q eq_refl) as (Hr & Hc & Hlt & Hk).
      split; [done|].
      case_bool_decide as Ht; [|done]. destruct (has_moved (objs g q)); [done|].
      simpl. destruct (Hk Ht eq_refl) as [-> ->]. by rewrite !Z.eqb_refl.
  - split; [done|done].
Qed.

Lemma well_formed_spec g :
  well_formed g = true ↔
  board_shape (board g) = true
  ∧ ∀ r c q, in8 r = true → in8 c = true →
             cell (board g) r c = Some q → piece_ok g q r c.
Proof.
  unfold well_formed. rewrite andb_true_iff, forallb_forall. split.
  - intros [Hs Hall]. split; [done|]. intros r c q Hr Hc.
    apply cell_ok_spec, Hall, all_squares_complete; done.
  - intros [Hs Hall]. split; [done|]. intros [r c] Hin.
    destruct (all_squares_sound _ Hin) as [Hr Hc]. apply cell_ok_spec. eauto.
Qed.

Lemma well_formed_coords_agree g : well_formed g = true → coords_agree g = true.
Proof.
  intros Hwf. apply well_formed_spec in Hwf as [_ Hall].
  unfold coords_agree. apply forallb_forall. intros [r c] Hin. simpl.
  destruct (all_squares_sound _ Hin) as [Hr Hc]. simpl in Hr, Hc.
  destruct (cell (board g) r c) as [q|] eqn:Hcell; [|done].
  destruct (Hall r c q Hr Hc Hcell) as (-> & -> & _). by rewrite !Z.eqb_refl.
Qed.

(** Only the board, the store and the allocation counter matter. *)
Lemma well_formed_ext g g' :
  board g' = board g → objs g' = objs g → next_ref g' = next_ref g →
  well_formed g' = well_formed g.
Proof.
  intros Hb Ho Hn. unfold well_formed, cell_ok. by rewrite Hb, Ho, Hn.
Qed.

Lemma relocate_well_formed g p dest_row dest_col :
  well_formed g = true →
  in8 (row (objs g p)) = true → in8 (col (objs g p)) = true →
  (p < next_ref g)%nat →
  in8 dest_row = true → in8 dest_col = true →
  ∃ g', relocate g p dest_row dest_col = Ok g'
        ∧ well_formed g' = true
        ∧ objs g' p = mkPiece (type (objs g p)) (color (objs g p)) dest_row dest_col true
        ∧ next_ref g' = next_ref g
        ∧ moved_flags g' = moved_flags g
        ∧ ((dest_row, dest_col) ≠ (row (objs g p), col (objs g p)) →
           cell (board g') dest_row dest_col = Some p).
Proof.
  intros Hwf Hor Hoc Hlt Hdr Hdc. apply well_formed_spec in Hwf as [Hshape Hall].
  rewrite relocate_spec by done. eexists. split; [reflexivity|].
  set (b1 := cell_upd (board g) dest_row dest_col (Some p)).
  assert (Hs1 : board_shape b1 = true) by by apply cell_upd_shape.
  split; [|split; [by game_simpl|split; [done|split; [done|]]]].
  - apply well_formed_spec. game_simpl. split; [by apply cell_upd_shape|].
    intros r c q Hr Hc. subst b1. rewrite !cell_upd_cell by done.
    case_decide as Ho; [done|]. case_decide as Hd.
    + intros [= <-]. injection Hd as -> ->. unfold piece_ok. game_simpl.
      repeat split; done.
    + intros Hcell. pose proof (Hall r c q Hr Hc Hcell) as (Hqr & Hqc & Hqlt & Hqk).
      assert (Hne : q ≠ p) by (intros ->; apply Ho; by rewrite Hqr, Hqc).
      unfold piece_ok. game_cbn. apply Nat.eqb_neq in Hne. rewrite Hne. done.
  - intros Hne. game_simpl. subst b1.
    rewrite cell_upd_other by done. by rewrite cell_upd_same.
Qed.

Lemma capture_en_passant_well_formed g p dest_row dest_col :
  well_formed g = true → in8 (row (objs g p)) = true → in8 dest_col = true →
  ∃ g', capture_en_passant g p dest_row dest_col = Ok g'
        ∧ well_formed g' = true ∧ objs g' = objs g ∧ next_ref g' = next_ref g
        ∧ moved_flags g' = moved_flags g.
Proof.
  intros Hwf Hr Hc. apply well_formed_spec in Hwf as [Hshape Hall].
  destruct (capture_en_passant_spec g p dest_row dest_col Hshape Hr Hc)
    as (b & -> & Hs & Hcells).
  eexists. split; [reflexivity|]. split; [|done].
  apply well_formed_spec. game_simpl. split; [done|].
  intros r c q Hr' Hc' Hcell. destruct (Hcells r c Hr' Hc') as [E|E];
    rewrite E in Hcell; [|done]. by apply Hall.
Qed.

(** The rook taken along by a castling king move. *)
Lemma castle_rook_well_formed g p dest_col :
  well_formed g = true → on_board g p = true → in8 dest_col = true →
  (type (objs g p) = KING → Z.abs (dest_col - col (objs g p)) = 2 →
   cell (board g) (row (objs g p)) (if dest_col >? col (objs g p) then 7 else 0) ≠ None) →
  ∃ g', castle_rook g p dest_col = Ok g'
        ∧ well_formed g' = true ∧ objs g' p = objs g p ∧ next_ref g' = next_ref g
        ∧ moved_flags g' = moved_flags g.
Proof.
  intros Hwf Hon Hdc Hrook. pose proof Hwf as Hwf'.
  apply well_formed_spec in Hwf' as [Hshape Hall].
  apply on_board_spec in Hon as (Hor & Hoc & Hp).
  destruct (decide (type (objs g p) = KING ∧ Z.abs (dest_col - col (objs g p)) = 2))
    as [[Hk Habs]|Hno]; [|rewrite castle_rook_skip by done; eauto 10].
  specialize (Hrook Hk Habs). unfold castle_rook, type_eqb.
  rewrite bool_decide_eq_true_2 by done.
  rewrite (proj2 (Z.eqb_eq _ _) Habs). cbv zeta.
  set (orow := row (objs g p)) in *. set (ocol := col (objs g p)) in *.
  set (start := if dest_col >? ocol then 7 else 0) in *.
  set (rd := if dest_col >? ocol then dest_col - 1 else dest_col + 1).
  pose proof (proj1 (in8_spec _) Hdc) as Hdc'. pose proof (proj1 (in8_spec _) Hoc) as Hoc'.
  assert (Hgeo : in8 start = true ∧ in8 rd = true ∧ start ≠ ocol ∧ rd ≠ ocol).
  { subst start rd. destruct (Z.gtb_spec dest_col ocol);
      (split; [done|]); (split; [apply in8_spec; lia|]); lia. }
  destruct Hgeo as (Hst & Hrd & Hso & Hro).
  rewrite board_get_cell, bind_Ok by done.
  destruct (cell (board g) orow start) as [rk|] eqn:Hrk; [|done].
  pose proof (Hall orow start rk Hor Hst Hrk) as (Hrkr & Hrkc & Hrklt & _).
  assert (Hne : rk ≠ p) by (intros ->; subst ocol; lia).
  rewrite board_set_cell, bind_Ok by done. game_simpl. fold orow.
  rewrite board_set_cell, bind_Ok by (try done; by apply cell_upd_shape).
  game_simpl. eexists. split; [reflexivity|].
  split; [|split; [game_cbn; destruct (Nat.eqb_spec p rk) as [E|]; [by destruct Hne|done]
                  |done]].
  apply well_formed_spec. game_simpl. split; [by repeat apply cell_upd_shape|].
  intros r c q Hr Hc. rewrite !cell_upd_cell by (try done; by apply cell_upd_shape).
  case_decide as Hs; [done|]. case_decide as Hd.
  - intros [= <-]. injection Hd as -> ->. unfold piece_ok. game_simpl.
    repeat split; done.
  - intros Hcell. pose proof (Hall r c q Hr Hc Hcell) as (Hqr & Hqc & Hqlt & Hqk).
    assert (Hne' : q ≠ rk) by (intros ->; apply Hs; by rewrite <- Hqr, <- Hqc, Hrkr, Hrkc).
    unfold piece_ok. game_cbn. apply Nat.eqb_neq in Hne'. rewrite Hne'. done.
Qed.

Lemma promote_well_formed g p dest_row dest_col :
  well_formed g = true → in8 dest_row = true → in8 dest_col = true →
  ∃ g', promote g p dest_row dest_col = Ok g' ∧ well_formed g' = true
        ∧ moved_flags g' = moved_flags g.
Proof.
  intros Hwf Hdr Hdc. unfold promote.
  destruct (type_eqb _ _); [|by exists g].
  destruct (_ || _); [|by exists g].
  apply well_formed_spec in Hwf as [Hshape Hall]. game_simpl.
  rewrite board_set_cell by (game_simpl; done). game_simpl.
  eexists. split; [reflexivity|]. split; [|done].
  apply well_formed_spec. game_simpl. split; [by apply cell_upd_shape|].
  intros r c q Hr Hc. rewrite cell_upd_cell by done. case_decide as Hd.
  - intros [= <-]. injection Hd as -> ->. unfold piece_ok. game_simpl.
    repeat split; try done. lia.
  - intros Hcell. pose proof (Hall r c q Hr Hc Hcell) as (Hqr & Hqc & Hqlt & Hqk).
    unfold piece_ok. game_cbn.
    rewrite (proj2 (Nat.eqb_neq q (next_ref g))) by lia.
    split; [done|]. split; [done|]. split; [lia|done].
Qed.

Lemma well_formed_same_game g g' :
  same_game g g' → well_formed g = true → well_formed g' = true.
Proof.
  intros [E H] Hwf. apply well_formed_spec in Hwf as [Hshape Hall].
  apply well_formed_spec. rewrite E. game_cbn. split; [done|].
  intros r c q Hr Hc Hcell. specialize (Hall r c q Hr Hc Hcell).
  unfold piece_ok in *. game_cbn. by rewrite H.
Qed.

Lemma well_formed_piece g r c p :
  well_formed g = true → in8 r = true → in8 c = true →
  cell (board g) r c = Some p →
  on_board g p = true ∧ (p < next_ref g)%nat
  ∧ row (objs g p) = r ∧ col (objs g p) = c.
Proof.
  intros Hwf Hr Hc Hcell. pose proof (well_formed_coords_agree g Hwf) as Hag.
  apply well_formed_spec in Hwf as [_ Hall].
  destruct (Hall r c p Hr Hc Hcell) as (Hpr & Hpc & Hlt & _).
  split; [by apply (coords_agree_on_board g r c)|done].
Qed.

(** [make_move] keeps a game well-formed, whatever the destination on the
    board, provided a king sent two columns sideways finds a piece on the
    corner [make_move] takes the rook from. *)
Lemma make_move_well_formed g p dest_row dest_col :
  well_formed g = true → on_board g p = true →
  in8 dest_row = true → in8 dest_col = true →
  (type (objs g p) = KING → Z.abs (dest_col - col (objs g p)) = 2 →
   cell (board g) (row (objs g p)) (if dest_col >? col (objs g p) then 7 else 0) ≠ None) →
  ∃ g', make_move g p dest_row dest_col = Ok g'
        ∧ well_formed g' = true ∧ turn g' = opponent (turn g).
Proof.
  intros Hwf Hon Hdr Hdc Hrook.
  pose proof (proj1 (on_board_spec _ _) Hon) as (Hor & Hoc & Hp).
  destruct (well_formed_piece g _ _ p Hwf Hor Hoc Hp) as (_ & Hlt & _).
  destruct (castle_rook_well_formed g p dest_col Hwf Hon Hdc Hrook)
    as (g1 & H1 & Hwf1 & Ho1 & Hn1 & _).
  unfold make_move. rewrite H1, bind_Ok.
  destruct (capture_en_passant_well_formed g1 p dest_row dest_col Hwf1)
    as (g2 & H2 & Hwf2 & Ho2 & Hn2 & _); [by rewrite Ho1|done|].
  rewrite H2, bind_Ok. cbv zeta.
  destruct (record_en_passant_spec g2 p dest_row dest_col) as [t ->].
  assert (Hwf3 : well_formed (set_en_passant_target g2 t) = true)
    by by rewrite (well_formed_ext g2).
  pose proof (proj1 (well_formed_spec _) Hwf3) as [Hs3 _].
  rewrite board_get_cell, bind_Ok by done.
  destruct (relocate_well_formed (set_en_passant_target g2 t) p dest_row dest_col Hwf3)
    as (g4 & H4 & Hwf4 & Ho4 & Hn4 & _); try done.
  { game_cbn. by rewrite Ho2, Ho1. }
  { game_cbn. by rewrite Ho2, Ho1. }
  { game_cbn. by rewrite Hn2, Hn1. }
  rewrite H4, bind_Ok.
  assert (Hwf5 : well_formed (update_castling_rights g4 p) = true).
  { destruct (update_castling_rights_spec g4 p) as (? & ? & ? & ? & ? & ? & ->).
    by rewrite (well_formed_ext g4). }
  destruct (promote_well_formed (update_castling_rights g4 p) p dest_row dest_col Hwf5 Hdr Hdc)
    as (g6 & H6 & Hwf6 & _).
  rewrite H6, bind_Ok. eexists. split; [reflexivity|]. split.
  - by rewrite (well_formed_ext g6).
  - game_cbn. f_equal.
    assert (Hturn : ∀ ga gb r c v, board_set ga r c v = Ok gb → turn gb = turn ga)
      by (intros ga gb r c v Hset; apply board_set_inv in Hset; by rewrite Hset).
    assert (Ht6 : turn g6 = turn (update_castling_rights g4 p)).
    { revert H6. unfold promote. destruct (type_eqb _ _); [|by intros [= <-]].
      destruct (_ || _); [|by intros [= <-]]. cbn [new_piece]. intros H6.
      by apply Hturn in H6. }
    assert (Ht4 : turn g4 = turn g2).
    { revert H4. unfold relocate.
      destruct (board_set _ dest_row dest_col _) as [ga|] eqn:Ha; [|done]. rewrite bind_Ok.
      destruct (board_set ga _ _ _) as [gb|] eqn:Hb; [|done]. rewrite bind_Ok.
      intros [= <-]. apply Hturn in Ha, Hb. game_cbn. by rewrite Hb, Ha. }
    assert (Ht2 : turn g2 = turn g1).
    { revert H2. unfold capture_en_passant. destruct (type_eqb _ _); [|by intros [= <-]].
      destruct (en_passant_target g1) as [[? ?]|]; [|by intros [= <-]].
      destruct (_ && _); [|by intros [= <-]]. apply Hturn. }
    assert (Ht1 : turn g1 = turn g).
    { revert H1. unfold castle_rook. destruct (type_eqb _ _); [|by intros [= <-]].
      destruct (_ =? 2); [|by intros [= <-]]. cbv zeta.
      destruct (board_get g _ _) as [rook|]; [|done]. rewrite bind_Ok.
      destruct (board_set g _ _ rook) as [ga|] eqn:Ha; [|done]. rewrite bind_Ok.
      destruct (board_set ga _ _ None) as [gb|] eqn:Hb; [|done]. rewrite bind_Ok.
      destruct rook; [|done]. intros [= <-]. apply Hturn in Ha, Hb. game_cbn.
      by rewrite Hb, Ha. }
    rewrite Ht6.
    destruct (update_castling_rights_spec g4 p) as (? & ? & ? & ? & ? & ? & ->).
    game_cbn. by rewrite Ht4, Ht2, Ht1.
Qed.

Lemma square_in_In s l : square_in s l = true ↔ In s l.
Proof.
  unfold square_in. rewrite existsb_exists. split.
  - intros ([r c] & Hin & Heq). apply andb_true_iff in Heq as [H1 H2].
    apply Z.eqb_eq in H1, H2. simpl in *. destruct s as [sr sc]. simpl in *. by subst.
  - intros Hin. exists s. split; [done|]. by rewrite !Z.eqb_refl.
Qed.

Lemma get_valid_moves_sub g p vs g1 :
  board_shape (board g) = true → on_board g p = true →
  get_valid_moves g p = Ok (vs, g1) →
  same_game g g1
  ∧ ∃ moves, pseudo_moves g p = Ok moves
             ∧ Forall (good_dest g (color (objs g p))) moves
             ∧ ∀ s, In s vs → In s moves.
Proof.
  intros Hshape Hon Hrun.
  pose proof (proj1 (on_board_spec _ _) Hon) as (Hr & Hc & _).
  destruct (pseudo_moves_good g Hshape p Hr Hc) as (moves & Hmoves & Hgood).
  unfold get_valid_moves in Hrun. rewrite Hmoves, bind_Ok in Hrun.
  destruct (filter_moves_frame p moves g Hshape Hon) as (vs' & g' & Hf & Hsame & Hsub).
  { apply forallb_forall. intros s Hs. rewrite Forall_forall in Hgood.
    destruct (Hgood s) as (? & ? & _); [by apply list_elem_of_In|].
    by apply andb_true_iff. }
  rewrite Hf in Hrun. injection Hrun as <- <-. split; [done|]. eauto.
Qed.

(** A two-column king move among the pseudo-legal moves comes from the
    castling block, so the rook is on the corner [make_move] will look at. *)
Lemma castling_move_has_rook g p moves dest :
  well_formed g = true → on_board g p = true →
  pseudo_moves g p = Ok moves → In dest moves →
  type (objs g p) = KING → Z.abs (dest.2 - col (objs g p)) = 2 →
  cell (board g) (row (objs g p)) (if dest.2 >? col (objs g p) then 7 else 0) ≠ None.
Proof.
  intros Hwf Hon Hmoves Hin Hk Habs.
  pose proof (proj1 (on_board_spec _ _) Hon) as (Hor & Hoc & Hp).
  pose proof (proj1 (well_formed_spec _) Hwf) as [Hshape Hall].
  destruct (Hall _ _ p Hor Hoc Hp) as (_ & _ & _ & Hhome).
  unfold pseudo_moves in Hmoves. rewrite Hk in Hmoves.
  destruct (get_king_moves_char g p Hshape) as (l & Hl & Hchar).
  rewrite Hl in Hmoves. injection Hmoves as <-.
  apply Hchar in Hin as [(_ & _ & Hc & _)|[Hm Hoffer]]; [lia|].
  destruct (Hhome Hk Hm) as [Hrow Hcol]. rewrite Hrow, Hcol.
  destruct (color (objs g p)); simpl in *;
    destruct Hoffer as [[-> (_ & _ & _ & q & Hq & _)]|[-> (_ & _ & _ & q & Hq & _)]];
    simpl in *; congruence.
Qed.

(** A move offered for a piece of the side to move is carried out. *)
Lemma offered_move_applies g r c p :
  well_formed g = true → in8 r = true → in8 c = true →
  board_get g r c = Ok (Some p) → color (objs g p) = turn g →
  ∃ vs g1,
    get_valid_moves g p = Ok (vs, g1)
    ∧ ∀ dst, In dst vs →
             ∃ g', click_move g (r, c) dst = Some g'
                   ∧ well_formed g' = true ∧ turn g' = opponent (turn g).
Proof.
  intros Hwf Hr Hc Hget Hturn.
  pose proof (proj1 (well_formed_spec _) Hwf) as [Hshape _].
  pose proof Hget as Hcell. rewrite board_get_cell in Hcell by done.
  injection Hcell as Hcell.
  destruct (well_formed_piece g r c p Hwf Hr Hc Hcell) as (Hon & Hlt & _).
  destruct (get_valid_moves_spec g p Hshape Hon) as (vs & g1 & Hrun & Hsame & _).
  exists vs, g1. split; [done|]. intros dst Hdst.
  destruct (get_valid_moves_sub g p vs g1 Hshape Hon Hrun)
    as (_ & moves & Hmoves & Hgood & Hsub).
  rewrite Forall_forall in Hgood.
  destruct (Hgood dst) as (Hdr & Hdc & _); [by apply list_elem_of_In, Hsub|].
  pose proof (castling_move_has_rook g p moves dst Hwf Hon Hmoves (Hsub _ Hdst)) as Hrook.
  set (g2 := set_selection g1 (Some p) vs).
  pose proof Hsame as [E1 Ho1].
  destruct (make_move_well_formed g2 p dst.1 dst.2) as (g' & Hmv & Hwf' & Hturn').
  - rewrite (well_formed_ext g1) by done. by apply (well_formed_same_game g).
  - change (on_board g2 p) with (on_board g1 p).
    by rewrite (same_game_on_board g g1 p Hsame).
  - done.
  - done.
  - change (board g2) with (board g1). change (objs g2) with (objs g1).
    rewrite (same_game_board g g1 Hsame), !Ho1. apply Hrook.
  - exists g'. unfold click_move. cbn [fst snd]. rewrite Hget.
    unfold color_eqb. rewrite bool_decide_eq_true_2 by done. rewrite Hrun.
    rewrite (proj2 (square_in_In dst vs) Hdst). fold g2. rewrite Hmv.
    split; [done|]. split; [done|]. rewrite Hturn'.
    change (turn g2) with (turn g1). by rewrite E1.
Qed.

(** X8. In a well-formed game, selecting a piece of the side to move and
    then clicking any square that [get_valid_moves] returned for it is
    carried out without an exception: the move is applied, the result is a
    well-formed game and the turn passes to the other side. *)
Theorem offered_move_is_applied g r c p :
  well_formed g = true → in8 r = true → in8 c = true →
  board_get g r c = Ok (Some p) → color (objs g p) = turn g →
  ∃ vs g1,
    get_valid_moves g p = Ok (vs, g1)
    ∧ ∀ dst, In dst vs →
             ∃ g', click_move g (r, c) dst = Some g'
                   ∧ well_formed g' = true ∧ turn g' = opponent (turn g).
Proof. apply offered_move_applies. Qed.

Lemma py_index_inv {A} (l : list A) i x :
  length l = 8%nat → py_index l i = Ok x → ∃ j, (j < 8)%nat ∧ l !! j = Some x.
Proof.
  intros Hl. unfold py_index, py_norm. rewrite Hl. change (Z.of_nat 8) with 8.
  destruct ((0 <=? (if i <? 0 then i + 8 else i)) && ((if i <? 0 then i + 8 else i) <? 8))
    eqn:Hin; [|done].
  apply andb_true_iff in Hin as [H1 H2]. apply Z.leb_le in H1. apply Z.ltb_lt in H2.
  destruct (l !! Z.to_nat _) as [y|] eqn:Hy; [|done].
  intros [= <-]. eexists. split; [|exact Hy]. lia.
Qed.

(** A piece read from the board, at whatever index Python accepts, stands
    on one of the 64 cells. *)
Lemma board_get_on_board g r c p :
  board_shape (board g) = true → board_get g r c = Ok (Some p) →
  ∃ r' c', in8 r' = true ∧ in8 c' = true ∧ board_get g r' c' = Ok (Some p).
Proof.
  intros Hshape Hget. pose proof (proj1 (board_shape_spec _) Hshape) as [Hl Hrows].
  unfold board_get in Hget.
  destruct (py_index (board g) r) as [rw|] eqn:Hrw; [|done]. rewrite bind_Ok in Hget.
  apply py_index_inv in Hrw as (i & Hi & Hrw); [|done].
  apply py_index_inv in Hget as (j & Hj & Hget); [|by eapply Hrows].
  exists (Z.of_nat i), (Z.of_nat j).
  assert (Hr : in8 (Z.of_nat i) = true) by (apply in8_spec; lia).
  assert (Hc : in8 (Z.of_nat j) = true) by (apply in8_spec; lia).
  split; [done|]. split; [done|]. rewrite board_get_cell by done.
  unfold cell. by rewrite !Nat2Z.id, Hrw, Hget.
Qed.

Lemma click_move_well_formed g src dst g' :
  well_formed g = true → click_move g src dst = Some g' →
  well_formed g' = true ∧ turn g' = opponent (turn g).
Proof.
  intros Hwf Hclick. pose proof (proj1 (well_formed_spec _) Hwf) as [Hshape _].
  unfold click_move in Hclick.
  destruct (board_get g src.1 src.2) as [[p|]|] eqn:Hget; try done.
  destruct (color_eqb (color (objs g p)) (turn g)) eqn:Hk; [|done].
  apply bool_decide_eq_true in Hk.
  destruct (board_get_on_board g _ _ p Hshape Hget) as (r & c & Hr & Hc & Hget').
  destruct (offered_move_applies g r c p Hwf Hr Hc Hget' Hk) as (vs & g1 & Hrun & Happly).
  rewrite Hrun in Hclick.
  destruct (square_in dst vs) eqn:Hin; [|done]. apply square_in_In in Hin.
  destruct (Happly dst Hin) as (g'' & Hclick' & Hwf' & Hturn').
  unfold click_move in Hclick'. cbn [fst snd] in Hclick'.
  rewrite Hget' in Hclick'. unfold color_eqb in Hclick'.
  rewrite bool_decide_eq_true_2, Hrun in Hclick' by done.
  rewrite (proj2 (square_in_In dst vs) Hin) in Hclick'.
  destruct (make_move _ p dst.1 dst.2) as [g3|]; [|done].
  injection Hclick as <-. injection Hclick' as <-. done.
Qed.

Lemma play_well_formed ms :
  ∀ g g', well_formed g = true → play g ms = Some g' → well_formed g' = true.
Proof.
  induction ms as [|[src dst] ms IH]; intros g g' Hwf; simpl.
  - by intros [= <-].
  - destruct (click_move g src dst) as [g1|] eqn:Hclick; [|done].
    apply IH. by apply (click_move_well_formed g src dst).
Qed.

(** X9. Every position reached from the initial position by moves the
    event loop accepts is well-formed: the board is 8 x 8, every piece on it
    records the coordinates of its cell, and an unmoved king stands on its
    home square. *)
Theorem reachable_well_formed ms g :
  play new_game ms = Some g → well_formed g = true.
Proof. apply play_well_formed. by vm_compute. Qed.

Lemma reachable_well_formed_witness :
  well_formed (position_after promotion_line) = true.
Proof.
  apply (reachable_well_formed promotion_line (position_after promotion_line)).
  vm_compute; reflexivity.
Defined.

(** X10. The side to move alternates: after [n] accepted moves from the
    initial position it is White's turn when [n] is even and Black's turn
    when [n] is odd. *)
Theorem reachable_turn ms g :
  play new_game ms = Some g →
  turn g = if Nat.even (length ms) then WHITE else BLACK.
Proof.
  assert (Hgen : ∀ ms g0 g', well_formed g0 = true → play g0 ms = Some g' →
            turn g' = if Nat.even (length ms) then turn g0 else opponent (turn g0)).
  { clear ms g. induction ms as [|[src dst] ms IH]; intros g0 g' Hwf; simpl length.
    - by intros [= <-].
    - simpl play. destruct (click_move g0 src dst) as [g1|] eqn:Hclick; [|done].
      destruct (click_move_well_formed g0 src dst g1 Hwf Hclick) as [Hwf1 Hturn1].
      intros Hplay. rewrite (IH g1 g' Hwf1 Hplay), Hturn1.
      rewrite Nat.even_succ, <- Nat.negb_even.
      destruct (Nat.even (length ms)), (turn g0); done. }
  intros Hplay. by rewrite (Hgen ms new_game g eq_refl Hplay).
Qed.

Lemma reachable_turn_witness :
  turn (position_after promotion_line)
  = if Nat.even (length promotion_line) then WHITE else BLACK.
Proof.
  apply (reachable_turn promotion_line (position_after promotion_line)).
  vm_compute; reflexivity.
Defined.

(** ** Tracking flags and the en-passant target along a game *)

Lemma flags_le_trans (a b c : list bool) :
  Forall2 (fun x y : bool => x = true → y = true) a b →
  Forall2 (fun x y : bool => x = true → y = true) b c →
  Forall2 (fun x y : bool => x = true → y = true) a c.
Proof.
  intros Hab. revert c. induction Hab as [|x y a b Hxy Hab IH]; intros c Hbc.
  - by inversion Hbc.
  - inversion Hbc as [|y' z b' c' Hyz Hbc']; subst. constructor; auto.
Qed.

Lemma flags_le_refl (a : list bool) :
  Forall2 (fun x y : bool => x = true → y = true) a a.
Proof. induction a; constructor; auto. Qed.

Lemma click_move_flags g src dst g' :
  well_formed g = true → click_move g src dst = Some g' →
  Forall2 (fun x y : bool => x = true → y = true) (moved_flags g) (moved_flags g').
Proof.
  intros Hwf Hclick. pose proof (proj1 (well_formed_spec _) Hwf) as [Hshape _].
  unfold click_move in Hclick.
  destruct (board_get g src.1 src.2) as [[p|]|] eqn:Hget; try done.
  destruct (color_eqb (color (objs g p)) (turn g)); [|done].
  destruct (board_get_on_board g _ _ p Hshape Hget) as (r & c & Hr & Hc & Hget').
  rewrite board_get_cell in Hget' by done. injection Hget' as Hcell.
  destruct (well_formed_piece g r c p Hwf Hr Hc Hcell) as (Hon & _).
  destruct (get_valid_moves g p) as [[vs g1]|] eqn:Hrun; [|done].
  destruct (get_valid_moves_sub g p vs g1 Hshape Hon Hrun) as ([E _] & _).
  destruct (square_in dst vs); [|done].
  destruct (make_move _ p dst.1 dst.2) as [g2|] eqn:Hmv; [|done].
  injection Hclick as <-. apply make_move_flags_monotone in Hmv.
  replace (moved_flags g) with (moved_flags (set_selection g1 (Some p) vs)); [done|].
  rewrite E. done.
Qed.

Lemma play_flags_le ms g g' :
  well_formed g = true → play g ms = Some g' →
  Forall2 (fun x y : bool => x = true → y = true) (moved_flags g) (moved_flags g').
Proof.
  revert g. induction ms as [|[src dst] ms IH]; intros g Hwf; simpl.
  - intros [= <-]. apply flags_le_refl.
  - destruct (click_move g src dst) as [g1|] eqn:Hclick; [|done]. intros Hplay.
    eapply flags_le_trans; [by eapply click_move_flags|].
    apply IH; [|done]. by apply (click_move_well_formed g src dst).
Qed.

(** X11. Along a game the six castling tracking flags are only ever
    raised: a flag that is [True] in a well-formed position is [True] in
    every position reached from it by accepted moves. *)
Theorem play_flags_monotone ms g g' :
  well_formed g = true → play g ms = Some g' →
  Forall2 (fun x y : bool => x = true → y = true) (moved_flags g) (moved_flags g').
Proof. apply play_flags_le. Qed.

Lemma play_flags_monotone_witness :
  Forall2 (fun x y : bool => x = true → y = true)
          (moved_flags new_game) (moved_flags (position_after pawn_check_line)).
Proof.
  apply (play_flags_monotone pawn_check_line new_game (position_after pawn_check_line)).
  - vm_compute; reflexivity.
  - vm_compute; reflexivity.
Defined.

Lemma board_set_en_passant g r c v g' :
  board_set g r c v = Ok g' →
  en_passant_target g' = en_passant_target g ∧ objs g' = objs g.
Proof. intros H. apply board_set_inv in H. by rewrite H. Qed.

Lemma castle_rook_piece g p dest_col g' :
  castle_rook g p dest_col = Ok g' →
  type (objs g' p) = type (objs g p) ∧ (type (objs g p) ≠ KING → g' = g).
Proof.
  unfold castle_rook, type_eqb. case_bool_decide as Hk; [|by intros [= <-]].
  destruct (_ =? 2); [|by intros [= <-]]. cbv zeta.
  destruct (board_get g _ _) as [rook|]; [|done]. rewrite bind_Ok.
  destruct (board_set g _ _ rook) as [ga|] eqn:Ha; [|done]. rewrite bind_Ok.
  destruct (board_set ga _ _ None) as [gb|] eqn:Hb; [|done]. rewrite bind_Ok.
  destruct rook as [rk|]; [|done]. intros [= <-].
  apply board_set_en_passant in Ha as [_ Ha]. apply board_set_en_passant in Hb as [_ Hb].
  split; [|done]. game_cbn. rewrite Hb, Ha.
  destruct (Nat.eqb_spec p rk) as [->|]; [|done]. by rewrite Nat.eqb_refl.
Qed.

(** X12. The en-passant target after a move: a pawn moved two rows leaves
    the square between its origin and its destination as target, and every
    other move leaves no target. *)
Theorem make_move_en_passant_target g p dest_row dest_col g' :
  make_move g p dest_row dest_col = Ok g' →
  en_passant_target g' =
  if type_eqb (type (objs g p)) PAWN && (Z.abs (dest_row - row (objs g p)) =? 2)
  then Some ((dest_row + row (objs g p)) / 2, dest_col)
  else None.
Proof.
  unfold make_move.
  destruct (castle_rook g p dest_col) as [g1|] eqn:H1; [|done]. rewrite bind_Ok.
  destruct (capture_en_passant g1 p dest_row dest_col) as [g2|] eqn:H2; [|done].
  rewrite bind_Ok. cbv zeta.
  destruct (board_get _ dest_row dest_col) as [cp|]; [|done]. rewrite bind_Ok.
  destruct (relocate _ p dest_row dest_col) as [g4|] eqn:H4; [|done]. rewrite bind_Ok.
  destruct (promote _ p dest_row dest_col) as [g6|] eqn:H6; [|done]. rewrite bind_Ok.
  intros [= <-]. game_cbn.
  (* the blocks after the recording block leave the target alone *)
  assert (E6 : en_passant_target g6 = en_passant_target (update_castling_rights g4 p)).
  { revert H6. unfold promote. destruct (type_eqb _ _); [|by intros [= <-]].
    destruct (_ || _); [|by intros [= <-]]. cbn [new_piece]. intros H6.
    by apply board_set_en_passant in H6 as [-> _]. }
  assert (E4 : en_passant_target g4
               = en_passant_target (record_en_passant g2 p dest_row dest_col)).
  { revert H4. unfold relocate.
    destruct (board_set _ dest_row dest_col _) as [ga|] eqn:Ha; [|done]. rewrite bind_Ok.
    destruct (board_set ga _ _ _) as [gb|] eqn:Hb; [|done]. rewrite bind_Ok.
    intros [= <-]. apply board_set_en_passant in Ha as [Ha _], Hb as [Hb _].
    game_cbn. by rewrite Hb, Ha. }
  rewrite E6.
  destruct (update_castling_rights_spec g4 p) as (? & ? & ? & ? & ? & ? & ->).
  game_cbn. rewrite E4.
  (* the piece as the recording block sees it *)
  assert (Ho2 : objs g2 = objs g1).
  { revert H2. unfold capture_en_passant. destruct (type_eqb _ _); [|by intros [= <-]].
    destruct (en_passant_target g1) as [[? ?]|]; [|by intros [= <-]].
    destruct (_ && _); [|by intros [= <-]]. intros H2.
    by apply board_set_en_passant in H2 as [_ ->]. }
  unfold record_en_passant. rewrite Ho2.
  destruct (castle_rook_piece g p dest_col g1 H1) as [Ht Hsame].
  rewrite Ht. unfold type_eqb.
  case_bool_decide as Hk; [|done]. rewrite Hsame by (by rewrite Hk). simpl.
  by destruct (_ =? 2).
Qed.

Lemma make_move_en_passant_target_witness :
  ∃ g', make_move new_game 9%nat 4 4 = Ok g' ∧ en_passant_target g' = Some (5, 4).
Proof.
  eexists. split; [vm_compute; reflexivity|].
  etransitivity;
    [apply (make_move_en_passant_target new_game 9%nat 4 4); vm_compute; reflexivity|].
  vm_compute; reflexivity.
Defined.

(** ** Instances on positions of a game *)

Lemma get_rook_moves_exact_witness :
  ∃ l, get_rook_moves (position_after rook_line) 17%nat = Ok l
       ∧ ∀ s, In s l ↔
              slides_to (position_after rook_line) 17%nat
                        [(0, 1); (0, -1); (1, 0); (-1, 0)] s.
Proof.
  apply (get_rook_moves_exact (position_after rook_line) 17%nat).
  vm_compute; reflexivity.
Defined.

Lemma get_bishop_moves_exact_witness :
  ∃ l, get_bishop_moves (position_after castle_ready_line) 27%nat = Ok l
       ∧ ∀ s, In s l ↔
              slides_to (position_after castle_ready_line) 27%nat
                        [(1, 1); (1, -1); (-1, 1); (-1, -1)] s.
Proof.
  apply (get_bishop_moves_exact (position_after castle_ready_line) 27%nat).
  vm_compute; reflexivity.
Defined.

Lemma get_queen_moves_exact_witness :
  ∃ l, get_queen_moves (position_after castle_ready_line) 23%nat = Ok l
       ∧ ∀ s, In s l ↔
              slides_to (position_after castle_ready_line) 23%nat
                        [(0, 1); (0, -1); (1, 0); (-1, 0);
                         (1, 1); (1, -1); (-1, 1); (-1, -1)] s.
Proof.
  apply (get_queen_moves_exact (position_after castle_ready_line) 23%nat).
  vm_compute; reflexivity.
Defined.

Lemma get_knight_moves_exact_witness :
  ∃ l, get_knight_moves new_game 19%nat = Ok l
       ∧ ∀ s, In s l ↔
              (0 ≤ s.1 < 8 ∧ 0 ≤ s.2 < 8)
              ∧ ((Z.abs (s.1 - row (objs new_game 19%nat)) = 1
                  ∧ Z.abs (s.2 - col (objs new_game 19%nat)) = 2)
                 ∨ (Z.abs (s.1 - row (objs new_game 19%nat)) = 2
                    ∧ Z.abs (s.2 - col (objs new_game 19%nat)) = 1))
              ∧ occupied_by new_game (color (objs new_game 19%nat)) s = false.
Proof.
  apply (get_knight_moves_exact new_game 19%nat).
  vm_compute; reflexivity.
Defined.

Lemma get_king_moves_exact_witness :
  ∃ l, get_king_moves (position_after castle_ready_line) 25%nat = Ok l
       ∧ ∀ s, In s l ↔
              ((0 ≤ s.1 < 8 ∧ 0 ≤ s.2 < 8)
               ∧ Z.abs (s.1 - row (objs (position_after castle_ready_line) 25%nat)) ≤ 1
               ∧ Z.abs (s.2 - col (objs (position_after castle_ready_line) 25%nat)) ≤ 1
               ∧ s ≠ (row (objs (position_after castle_ready_line) 25%nat),
                      col (objs (position_after castle_ready_line) 25%nat))
               ∧ occupied_by (position_after castle_ready_line)
                   (color (objs (position_after castle_ready_line) 25%nat)) s = false)
              ∨ castling_offer (position_after castle_ready_line)
                  (objs (position_after castle_ready_line) 25%nat) s.
Proof.
  apply (get_king_moves_exact (position_after castle_ready_line) 25%nat).
  vm_compute; reflexivity.
Defined.

Lemma get_pawn_moves_exact_witness :
  ∃ l, get_pawn_moves (position_after en_passant_line) 9%nat = Ok l
       ∧ ∀ s, In s l ↔
          let pc := objs (position_after en_passant_line) 9%nat in
          let ahead := row pc + pawn_direction (color pc) in
          (s = (ahead, col pc) ∧ 0 ≤ ahead < 8
           ∧ cell (board (position_after en_passant_line)) ahead (col pc) = None)
          ∨ (s = (ahead + pawn_direction (color pc), col pc) ∧ pawn_start_rank pc
             ∧ cell (board (position_after en_passant_line)) ahead (col pc) = None
             ∧ cell (board (position_after en_passant_line))
                    (ahead + pawn_direction (color pc)) (col pc) = None)
          ∨ (s.1 = ahead ∧ (s.2 = col pc - 1 ∨ s.2 = col pc + 1)
             ∧ 0 ≤ s.1 < 8 ∧ 0 ≤ s.2 < 8
             ∧ ∃ q, cell (board (position_after en_passant_line)) s.1 s.2 = Some q
                    ∧ color (objs (position_after en_passant_line) q) ≠ color pc).
Proof.
  apply (get_pawn_moves_exact (position_after en_passant_line) 9%nat).
  - vm_compute; reflexivity.
  - vm_compute; reflexivity.
  - vm_compute; reflexivity.
Defined.

Lemma offered_move_is_applied_witness :
  ∃ vs g1,
    get_valid_moves (position_after castle_ready_line) 25%nat = Ok (vs, g1)
    ∧ ∀ dst, In dst vs →
             ∃ g', click_move (position_after castle_ready_line) (7, 4) dst = Some g'
                   ∧ well_formed g' = true
                   ∧ turn g' = opponent (turn (position_after castle_ready_line)).
Proof.
  apply (offered_move_is_applied (position_after castle_ready_line) 7 4 25%nat).
  - vm_compute; reflexivity.
  - vm_compute; reflexivity.
  - vm_compute; reflexivity.
  - vm_compute; reflexivity.
  - vm_compute; reflexivity.
Defined.

(** ** The check detector and the legality filter *)

(** Functions of the game read the store only through the objects, so two
    stores holding the same object under every reference give the same
    results. *)

Lemma extendM_ext {A B} (f f' : A → result (list B)) xs :
  (∀ x, f x = f' x) → extendM f xs = extendM f' xs.
Proof. intros H. induction xs as [|x xs IH]; simpl; [done|]. by rewrite H, IH. Qed.

Section SameStore.
Variable g : ChessGame.
Variable o' : ref → Piece.
Hypothesis Ho : ∀ q, o' q = objs g q.

Lemma slide_same pc dr dc steps :
  slide (set_objs g o') pc dr dc steps = slide g pc dr dc steps.
Proof.
  induction steps as [|i steps IH]; simpl; [done|].
  destruct (negb _); [done|].
  change (board_get (set_objs g o') ?r ?c) with (board_get g r c).
  destruct (board_get g _ _) as [[q|]|]; simpl; [|by rewrite IH|done].
  by rewrite Ho.
Qed.

Lemma slide_moves_same p ds : slide_moves (set_objs g o') p ds = slide_moves g p ds.
Proof.
  unfold slide_moves. cbn [objs set_objs]. rewrite Ho.
  apply extendM_ext. intros d. apply slide_same.
Qed.

Lemma offset_moves_same p ds : offset_moves (set_objs g o') p ds = offset_moves g p ds.
Proof.
  unfold offset_moves. cbn [objs set_objs]. rewrite Ho. cbv zeta.
  apply extendM_ext. intros d. destruct (_ && _); [|done].
  change (board_get (set_objs g o') ?r ?c) with (board_get g r c).
  destruct (board_get g _ _) as [[q|]|]; simpl; [|done|done].
  by rewrite Ho.
Qed.

Lemma is_rook_of_same r c k : is_rook_of (set_objs g o') r c k = is_rook_of g r c k.
Proof.
  unfold is_rook_of. change (board_get (set_objs g o') r c) with (board_get g r c).
  destruct (board_get g r c) as [[q|]|]; simpl; [|done|done]. by rewrite Ho.
Qed.

Lemma castle_option_same km rm between rook_sq k dest :
  castle_option (set_objs g o') km rm between rook_sq k dest
  = castle_option g km rm between rook_sq k dest.
Proof. unfold castle_option. by rewrite is_rook_of_same. Qed.

Lemma castling_moves_same pc : castling_moves (set_objs g o') pc = castling_moves g pc.
Proof.
  unfold castling_moves. destruct (negb _); [|done].
  destruct (color pc); by rewrite !castle_option_same.
Qed.

Lemma get_valid_moves_for_opponent_same p :
  get_valid_moves_for_opponent (set_objs g o') p = get_valid_moves_for_opponent g p.
Proof.
  unfold get_valid_moves_for_opponent, get_rook_moves, get_bishop_moves,
    get_knight_moves, get_queen_moves, get_king_moves, get_rook_moves, get_bishop_moves.
  rewrite !slide_moves_same, !offset_moves_same. cbn [objs set_objs].
  by rewrite castling_moves_same, !Ho.
Qed.

Lemma find_king_same k sqs : find_king (set_objs g o') k sqs = find_king g k sqs.
Proof.
  induction sqs as [|[r c] sqs IH]; simpl; [done|].
  change (board_get (set_objs g o') r c) with (board_get g r c).
  destruct (board_get g r c) as [[q|]|]; simpl; [|done|done].
  by rewrite Ho, IH.
Qed.
End SameStore.

Lemma same_game_set_pos g g' q r c :
  same_game g g' → same_game (set_pos g q r c) (set_pos g' q r c).
Proof.
  intros [E H]. split; [by rewrite E|]. intros x. simpl. rewrite !H. done.
Qed.

Lemma same_game_attacks g g' r c q target :
  same_game g g' → attacks g' r c q target ↔ attacks g r c q target.
Proof.
  intros Hsame. destruct (same_game_set_pos g g' q r c Hsame) as [E H].
  unfold attacks. rewrite E, get_valid_moves_for_opponent_same by done. done.
Qed.

Lemma same_game_king_at g g' k s : same_game g g' → king_at g' k s ↔ king_at g k s.
Proof.
  intros Hsame. pose proof (same_game_board g g' Hsame) as Hb. destruct Hsame as [_ H].
  unfold king_at. rewrite Hb. split; intros (q & Hq & Ht & Hk); exists q.
  - by rewrite <- H.
  - by rewrite H.
Qed.

Lemma same_game_in_check g g' k : same_game g g' → in_check g' k ↔ in_check g k.
Proof.
  intros Hsame. pose proof (same_game_board g g' Hsame) as Hb.
  pose proof Hsame as [_ H]. unfold in_check, first_king.
  split; intros (kp & (before & after & Hsplit & Hking & Hnone) & s & q & Hin & Hq & Hk & Hatt);
    exists kp; (split; [exists before, after; split; [done|]; split|exists s, q]).
  - by apply (same_game_king_at g g').
  - intros s' Hs' Hk'. apply (Hnone s' Hs'). by apply (same_game_king_at g g').
  - rewrite <- Hb, <- H. split; [done|]. split; [done|]. split; [done|].
    by apply (same_game_attacks g g').
  - by apply (same_game_king_at g g').
  - intros s' Hs' Hk'. apply (Hnone s' Hs'). by apply (same_game_king_at g g') in Hk'.
  - rewrite Hb, H. split; [done|]. split; [done|]. split; [done|].
    by apply (same_game_attacks g g').
Qed.

(** The first loop nest finds the first king, or tells there is none. *)
Lemma find_king_char g k :
  board_shape (board g) = true →
  ∀ sqs, forallb sq_on_board sqs = true →
  ∃ res, find_king g k sqs = Ok res
         ∧ match res with
           | Some kp => ∃ before after, sqs = before ++ kp :: after
                          ∧ king_at g k kp ∧ ∀ s, In s before → ¬ king_at g k s
           | None => ∀ s, In s sqs → ¬ king_at g k s
           end.
Proof.
  intros Hshape. induction sqs as [|[r c] sqs IH]; intros Hon; simpl.
  - exists None. split; [done|]. by intros s [].
  - simpl in Hon. apply andb_true_iff in Hon as [Hs Hon].
    apply andb_true_iff in Hs as [Hr Hc]. simpl in Hr, Hc.
    rewrite board_get_cell, bind_Ok by done.
    assert (Hhere : ∀ q, cell (board g) r c = Some q →
              type_eqb (type (objs g q)) KING && color_eqb (color (objs g q)) k = true
              ↔ king_at g k (r, c)).
    { intros q Hq. unfold king_at, type_eqb, color_eqb. simpl.
      rewrite andb_true_iff, !bool_decide_eq_true, Hq. split.
      - intros [Ht Hk]. by exists q.
      - by intros (q' & [= <-] & Ht & Hk). }
    destruct (IH Hon) as (res & Hres & Hchar).
    assert (Hskip : ¬ king_at g k (r, c) →
      ∃ res, find_king g k sqs = Ok res
         ∧ match res with
           | Some kp => ∃ before after, (r, c) :: sqs = before ++ kp :: after
                          ∧ king_at g k kp ∧ ∀ s, In s before → ¬ king_at g k s
           | None => ∀ s, In s ((r, c) :: sqs) → ¬ king_at g k s
           end).
    { intros Hno. exists res. split; [done|]. destruct res as [kp|].
      - destruct Hchar as (before & after & -> & Hking & Hnone).
        exists ((r, c) :: before), after. split; [done|]. split; [done|].
        intros s [<-|Hin]; auto.
      - intros s [<-|Hin]; auto. }
    destruct (cell (board g) r c) as [q|] eqn:Hcell.
    + destruct (type_eqb _ _ && color_eqb _ _) eqn:Hk.
      * exists (Some (r, c)). split; [done|]. exists [], sqs. split; [done|].
        split; [by apply (Hhere q)|]. by intros s [].
      * apply Hskip. intros Hking. apply (Hhere q eq_refl) in Hking. congruence.
    + apply Hskip. intros (q & Hq & _). simpl in Hq. congruence.
Qed.

(** The second loop nest: some visited opposing piece attacks the square. *)
Lemma attack_scan_char opponent_color king_pos sqs :
  ∀ g, board_shape (board g) = true → forallb sq_on_board sqs = true →
       ∃ b g', attack_scan g opponent_color king_pos sqs = Ok (b, g')
               ∧ same_game g g'
               ∧ (b = true ↔
                  ∃ s q, In s sqs ∧ cell (board g) s.1 s.2 = Some q
                         ∧ color (objs g q) = opponent_color
                         ∧ attacks g s.1 s.2 q king_pos).
Proof.
  induction sqs as [|[r c] sqs IH]; intros g Hshape Hon; simpl.
  - exists false, g. split; [done|]. split; [apply same_game_refl|].
    split; [done|]. by intros (s & q & [] & _).
  - simpl in Hon. apply andb_true_iff in Hon as [Hs Hon].
    apply andb_true_iff in Hs as [Hr Hc]. simpl in Hr, Hc.
    rewrite board_get_cell, bind_Ok by done.
    (* a square that contributes nothing *)
    assert (Hskip : (∀ q, cell (board g) r c = Some q →
                          color (objs g q) = opponent_color → False) →
      ∃ b g', attack_scan g opponent_color king_pos sqs = Ok (b, g')
               ∧ same_game g g'
               ∧ (b = true ↔
                  ∃ s q, In s ((r, c) :: sqs) ∧ cell (board g) s.1 s.2 = Some q
                         ∧ color (objs g q) = opponent_color
                         ∧ attacks g s.1 s.2 q king_pos)).
    { intros Hno. destruct (IH g Hshape Hon) as (b & g' & Hrun & Hsame & Hb).
      exists b, g'. split; [done|]. split; [done|]. rewrite Hb. split.
      - intros (s & q & Hin & H). exists s, q. split; [by right|done].
      - intros (s & q & [<-|Hin] & Hq & Hk & Hatt); [by destruct (Hno q)|].
        exists s, q. done. }
    destruct (cell (board g) r c) as [q|] eqn:Hcell; [|by apply Hskip].
    unfold color_eqb. case_bool_decide as Hk; [|apply Hskip; by intros q' [= <-]].
    destruct (get_valid_moves_for_opponent_total (set_pos g q r c) Hshape q) as [ms Hms].
    rewrite Hms, bind_Ok.
    pose proof (set_pos_restore g q r c) as Hrest.
    destruct (square_in king_pos ms) eqn:Hin.
    + eexists true, _. split; [done|]. split; [done|]. split; [|done].
      intros _. exists (r, c), q. split; [by left|]. split; [done|]. split; [done|].
      exists ms. split; [done|]. by apply square_in_In.
    + destruct (IH _ (eq_trans (f_equal board_shape (same_game_board _ _ Hrest)) Hshape) Hon)
        as (b & g' & Hrun & Hsame & Hb).
      exists b, g'. split; [done|]. split; [by eapply same_game_trans|].
      rewrite Hb. pose proof (same_game_board _ _ Hrest) as Hbd.
      pose proof Hrest as [_ Hobjs]. split.
      * intros (s & q' & Hs & Hq' & Hk' & Hatt). exists s, q'.
        split; [by right|]. rewrite <- Hbd, <- (Hobjs q').
        split; [done|]. split; [done|]. by apply (same_game_attacks _ _ _ _ _ _ Hrest).
      * intros (s & q' & [<-|Hs] & Hq' & Hk' & Hatt).
        -- simpl in Hq'. rewrite Hcell in Hq'. injection Hq' as <-.
           destruct Hatt as (ms' & Hms' & Hin'). simpl in Hms'.
           rewrite Hms in Hms'. injection Hms' as <-.
           apply square_in_In in Hin'. congruence.
        -- exists s, q'. split; [done|]. rewrite Hbd, (Hobjs q').
           split; [done|]. split; [done|]. by apply (same_game_attacks _ _ _ _ _ _ Hrest).
Qed.

Lemma first_split_unique {A} (P : A → Prop) (b1 : list A) :
  ∀ l x1 a1 b2 x2 a2,
    l = b1 ++ x1 :: a1 → l = b2 ++ x2 :: a2 → P x1 → P x2 →
    (∀ s, In s b1 → ¬ P s) → (∀ s, In s b2 → ¬ P s) → x1 = x2.
Proof.
  induction b1 as [|y b1 IH]; intros l x1 a1 b2 x2 a2 H1 H2 Hp1 Hp2 Hn1 Hn2;
    destruct b2 as [|z b2]; simpl in *; subst l.
  - by injection H2.
  - injection H2 as Hx _. destruct (Hn2 z); [by left|by rewrite <- Hx].
  - injection H2 as Hx _. destruct (Hn1 y); [by left|by rewrite Hx].
  - injection H2 as _ Hrest.
    apply (IH _ x1 a1 b2 x2 a2 eq_refl Hrest Hp1 Hp2); intros s Hs;
      [apply Hn1|apply Hn2]; by right.
Qed.

Lemma is_king_in_check_char g k :
  board_shape (board g) = true →
  ∃ b g', is_king_in_check g k = Ok (b, g') ∧ same_game g g'
          ∧ (b = true ↔ in_check g k).
Proof.
  intros Hshape. unfold is_king_in_check.
  destruct (find_king_char g k Hshape all_squares all_squares_on_board)
    as (res & -> & Hres).
  rewrite bind_Ok. destruct res as [kp|].
  - destruct (attack_scan_char (opponent k) kp all_squares g Hshape all_squares_on_board)
      as (b & g' & Hrun & Hsame & Hb).
    exists b, g'. split; [done|]. split; [done|]. rewrite Hb.
    unfold in_check, first_king. split.
    + intros H. exists kp. split; [done|]. done.
    + intros (kp' & (before' & after' & Hsplit' & Hking' & Hnone') & H).
      destruct Hres as (before & after & Hsplit & Hking & Hnone).
      assert (kp' = kp); [|by subst].
      exact (first_split_unique (king_at g k) before' all_squares kp' after'
               before kp after Hsplit' Hsplit Hking' Hking Hnone' Hnone).
  - exists false, g. split; [done|]. split; [apply same_game_refl|].
    split; [done|]. intros (kp & (before & after & Hsplit & Hking & _) & _).
    destruct (Hres kp); [|done]. rewrite Hsplit. apply in_app_iff. right. by left.
Qed.

(** X13. On an 8 x 8 board [is_king_in_check] returns without an exception
    and leaves the game as it was; it answers [True] exactly when some
    piece of the other colour, taken to stand on the cell it is found on,
    has the square of the first king of the queried colour among its attack
    squares. *)
Theorem is_king_in_check_exact g k :
  board_shape (board g) = true →
  ∃ b g', is_king_in_check g k = Ok (b, g') ∧ same_game g g'
          ∧ (b = true ↔ in_check g k).
Proof. apply is_king_in_check_char. Qed.

Lemma is_king_in_check_exact_witness :
  ∃ b g', is_king_in_check (position_after pawn_check_line) WHITE = Ok (b, g')
          ∧ same_game (position_after pawn_check_line) g'
          ∧ (b = true ↔ in_check (position_after pawn_check_line) WHITE).
Proof.
  apply (is_king_in_check_exact (position_after pawn_check_line) WHITE).
  vm_compute; reflexivity.
Defined.

Lemma same_game_tentative g g' p dest_row dest_col :
  same_game g g' →
  same_game (tentative g p dest_row dest_col) (tentative g' p dest_row dest_col).
Proof.
  intros [E H]. unfold tentative. rewrite E. game_cbn. rewrite !H.
  split; [done|]. intros q. game_cbn. by rewrite !H.
Qed.

Lemma tentative_color g p dest_row dest_col :
  color (objs (tentative g p dest_row dest_col) p) = color (objs g p).
Proof. unfold tentative. by game_simpl. Qed.

(** The probe answers whether the mover's king is attacked in the
    tentative position, and hands the game back as it was. *)
Lemma move_puts_king_in_check_char g p dest_row dest_col :
  board_shape (board g) = true → on_board g p = true →
  in8 dest_row = true → in8 dest_col = true →
  ∃ b g', move_puts_king_in_check g p dest_row dest_col = Ok (b, g')
          ∧ same_game g g'
          ∧ (b = true ↔ in_check (tentative g p dest_row dest_col) (color (objs g p))).
Proof.
  intros Hshape Hon Hdr Hdc. apply on_board_spec in Hon as (Hor & Hoc & Hp).
  unfold move_puts_king_in_check. cbv zeta.
  rewrite (board_get_cell g dest_row dest_col), bind_Ok by done.
  rewrite (board_set_cell g dest_row dest_col), bind_Ok by done.
  cbn [objs set_board].
  assert (Hs1 : board_shape (cell_upd (board g) dest_row dest_col (Some p)) = true)
    by by apply cell_upd_shape.
  rewrite (board_set_cell (set_board g _) (row (objs g p)) (col (objs g p))), bind_Ok
    by done.
  cbn [board set_board].
  change (set_pos (set_board (set_board g _) _) p dest_row dest_col)
    with (tentative g p dest_row dest_col).
  assert (Hs2 : board_shape (board (tentative g p dest_row dest_col)) = true)
    by (unfold tentative; game_cbn; by apply cell_upd_shape).
  destruct (is_king_in_check_char (tentative g p dest_row dest_col)
              (color (objs (tentative g p dest_row dest_col) p)) Hs2)
    as (b & g4 & -> & [E4 H4] & Hb).
  rewrite tentative_color in Hb. rewrite bind_Ok.
  assert (Hb4 : board g4 = board (tentative g p dest_row dest_col)) by by rewrite E4.
  rewrite (board_set_cell g4 (row (objs g p)) (col (objs g p))), bind_Ok
    by (try done; by rewrite Hb4).
  rewrite Hb4.
  assert (Hs5 : board_shape (cell_upd (board (tentative g p dest_row dest_col))
                               (row (objs g p)) (col (objs g p)) (Some p)) = true)
    by by apply cell_upd_shape.
  rewrite (board_set_cell (set_board g4 _) dest_row dest_col), bind_Ok by done.
  cbn [board set_board].
  assert (Hrestored :
    cell_upd (cell_upd (board (tentative g p dest_row dest_col))
                       (row (objs g p)) (col (objs g p)) (Some p))
             dest_row dest_col (cell (board g) dest_row dest_col) = board g)
    by (unfold tentative; game_cbn; by apply probe_board_restored).
  rewrite Hrestored. eexists _, _. split; [done|]. split; [|done]. split.
  - rewrite E4. unfold tentative. by destruct g.
  - intros q. simpl. destruct (Nat.eqb_spec q p) as [->|Hne].
    + rewrite H4. unfold tentative. simpl. rewrite Nat.eqb_refl.
      by destruct (objs g p).
    + rewrite H4. unfold tentative. simpl. by destruct (Nat.eqb_spec q p).
Qed.

Lemma filter_moves_char p moves :
  ∀ g, board_shape (board g) = true → on_board g p = true →
       forallb sq_on_board moves = true →
       ∃ vs g', filter_moves g p moves = Ok (vs, g') ∧ same_game g g'
                ∧ ∀ s, In s vs ↔
                       In s moves
                       ∧ ¬ in_check (tentative g p s.1 s.2) (color (objs g p)).
Proof.
  induction moves as [|m moves IH]; intros g Hshape Hon Hmoves; simpl.
  - exists [], g. split; [done|]. split; [apply same_game_refl|].
    intros s. split; [done|]. by intros [[] _].
  - simpl in Hmoves. apply andb_true_iff in Hmoves as [Hm Hmoves].
    apply andb_true_iff in Hm as [Hr Hc].
    destruct (move_puts_king_in_check_char g p m.1 m.2 Hshape Hon Hr Hc)
      as (b & g1 & -> & Hsame1 & Hb).
    rewrite bind_Ok.
    destruct (IH g1) as (vs & g2 & -> & Hsame2 & Hvs); [| |done|].
    { by rewrite (same_game_board _ _ Hsame1). }
    { by rewrite (same_game_on_board _ _ _ Hsame1). }
    rewrite bind_Ok. eexists _, g2. split; [done|].
    split; [by eapply same_game_trans|].
    assert (Hvs' : ∀ s, In s vs ↔
              In s moves ∧ ¬ in_check (tentative g p s.1 s.2) (color (objs g p))).
    { intros s. rewrite Hvs. pose proof Hsame1 as [_ H1]. rewrite H1.
      by rewrite (same_game_in_check _ _ _ (same_game_tentative g g1 p s.1 s.2 Hsame1)). }
    intros s. destruct b.
    + rewrite Hvs'. split.
      * intros [Hin Hno]. split; [by right|done].
      * intros [[<-|Hin] Hno]; [|done]. destruct Hno. by apply Hb.
    + simpl. rewrite Hvs'. split.
      * intros [<-|[Hin Hno]]; [|split; [by right|done]].
        split; [by left|]. intros Hc'. apply Hb in Hc'. done.
      * intros [[<-|Hin] Hno]; [by left|by right].
Qed.

(** X14. For a piece standing on its square of an 8 x 8 board,
    [get_valid_moves] returns, leaves the game as it was, and keeps exactly
    those pseudo-legal destinations for which, with the piece written to
    the destination and its origin cleared, no piece of the other colour
    attacks the mover's king. *)
Theorem get_valid_moves_exact g p :
  board_shape (board g) = true → on_board g p = true →
  ∃ moves vs g',
    pseudo_moves g p = Ok moves
    ∧ get_valid_moves g p = Ok (vs, g') ∧ same_game g g'
    ∧ ∀ s, In s vs ↔
           In s moves ∧ ¬ in_check (tentative g p s.1 s.2) (color (objs g p)).
Proof.
  intros Hshape Hon. pose proof (proj1 (on_board_spec _ _) Hon) as (Hr & Hc & _).
  destruct (pseudo_moves_good g Hshape p Hr Hc) as (moves & Hmoves & Hgood).
  destruct (filter_moves_char p moves g Hshape Hon) as (vs & g' & Hf & Hsame & Hvs).
  { apply forallb_forall. intros s Hs. rewrite Forall_forall in Hgood.
    destruct (Hgood s) as (? & ? & _); [by apply list_elem_of_In|].
    by apply andb_true_iff. }
  exists moves, vs, g'. split; [done|]. unfold get_valid_moves.
  rewrite Hmoves, bind_Ok. done.
Qed.

Lemma get_valid_moves_exact_witness :
  ∃ moves vs g',
    pseudo_moves (position_after pawn_check_line) 25%nat = Ok moves
    ∧ get_valid_moves (position_after pawn_check_line) 25%nat = Ok (vs, g')
    ∧ same_game (position_after pawn_check_line) g'
    ∧ ∀ s, In s vs ↔
           In s moves
           ∧ ¬ in_check (tentative (position_after pawn_check_line) 25%nat s.1 s.2)
                        (color (objs (position_after pawn_check_line) 25%nat)).
Proof.
  apply (get_valid_moves_exact (position_after pawn_check_line) 25%nat).
  - vm_compute; reflexivity.
  - vm_compute; reflexivity.
Defined.

(** ** What a move changes and what it leaves alone *)

Lemma capture_en_passant_skip g p dest_row dest_col :
  ¬ (type (objs g p) = PAWN ∧ en_passant_target g = Some (dest_row, dest_col)) →
  capture_en_passant g p dest_row dest_col = Ok g.
Proof.
  intros Hno. unfold capture_en_passant, type_eqb. case_bool_decide as Hk; [|done].
  destruct (en_passant_target g) as [[ep_row ep_col]|]; [|done].
  destruct (Z.eqb_spec dest_row ep_row) as [->|]; [|done].
  destruct (Z.eqb_spec dest_col ep_col) as [->|]; [|done].
  by destruct Hno.
Qed.

(** X15. An ordinary move (no castling, no en-passant capture) of a piece
    standing on its square to a square on the board changes two cells at
    most: every cell other than origin and destination holds what it held,
    every other existing piece object is untouched, and the history entry
    records as captured what stood on the destination. *)
Theorem make_move_frame g p dest_row dest_col :
  board_shape (board g) = true → on_board g p = true →
  in8 dest_row = true → in8 dest_col = true →
  ¬ (type (objs g p) = KING ∧ Z.abs (dest_col - col (objs g p)) = 2) →
  ¬ (type (objs g p) = PAWN ∧ en_passant_target g = Some (dest_row, dest_col)) →
  ∃ g',
    make_move g p dest_row dest_col = Ok g'
    ∧ (∀ r c, in8 r = true → in8 c = true →
              (r, c) ≠ (row (objs g p), col (objs g p)) → (r, c) ≠ (dest_row, dest_col) →
              board_get g' r c = board_get g r c)
    ∧ (∀ q, q ≠ p → (q < next_ref g)%nat → objs g' q = objs g q)
    ∧ ∃ e, move_history g' = move_history g ++ [e]
           ∧ board_get g dest_row dest_col = Ok (h_captured e).
Proof.
  intros Hshape Hon Hdr Hdc Hnocastle Hnoep.
  pose proof (proj1 (on_board_spec _ _) Hon) as (Hor & Hoc & Hp).
  unfold make_move.
  rewrite castle_rook_skip, bind_Ok by done.
  rewrite capture_en_passant_skip, bind_Ok by done. cbv zeta.
  destruct (record_en_passant_spec g p dest_row dest_col) as [t ->].
  rewrite board_get_cell, bind_Ok by done.
  rewrite relocate_spec, bind_Ok by done.
  match goal with
  | |- context [update_castling_rights ?g4 p] =>
      destruct (update_castling_rights_spec g4 p) as (wk & bk & wa & wh & ba & bh & ->)
  end.
  unfold promote. game_simpl.
  set (b4 := cell_upd (cell_upd (board g) dest_row dest_col (Some p))
                      (row (objs g p)) (col (objs g p)) None).
  assert (Hs4 : board_shape b4 = true) by (by repeat apply cell_upd_shape).
  assert (Hb4 : ∀ r c, in8 r = true → in8 c = true →
                (r, c) ≠ (row (objs g p), col (objs g p)) → (r, c) ≠ (dest_row, dest_col) →
                cell b4 r c = cell (board g) r c).
  { intros r c Hr Hc Ho Hd. subst b4. by rewrite !cell_upd_other. }
  assert (Hobj : ∀ q, q ≠ p → (if (q =? p)%nat
                  then mkPiece (type (objs g p)) (color (objs g p)) dest_row dest_col true
                  else objs g q) = objs g q).
  { intros q Hne. by destruct (Nat.eqb_spec q p). }
  destruct (type_eqb (type (objs g p)) PAWN);
    [destruct ((color_eqb (color (objs g p)) WHITE && (dest_row =? 0))
               || (color_eqb (color (objs g p)) BLACK && (dest_row =? 7)))|].
  - rewrite board_set_cell, bind_Ok by (game_simpl; done). game_simpl.
    eexists. split; [reflexivity|]. game_simpl. split; [|split].
    + intros r c Hr Hc Ho Hd.
      rewrite !board_get_cell by (game_simpl; try done; by apply cell_upd_shape).
      game_simpl. rewrite cell_upd_other by done. by rewrite Hb4.
    + intros q Hne Hlt. rewrite (proj2 (Nat.eqb_neq q (next_ref g))) by lia.
      destruct (Nat.eqb_spec q p); done.
    + eexists. split; [reflexivity|]. by rewrite board_get_cell.
  - rewrite bind_Ok. eexists. split; [reflexivity|]. game_simpl. split; [|split].
    + intros r c Hr Hc Ho Hd. rewrite !board_get_cell by (game_simpl; done).
      game_simpl. by rewrite Hb4.
    + intros q Hne Hlt. destruct (Nat.eqb_spec q p); done.
    + eexists. split; [reflexivity|]. by rewrite board_get_cell.
  - rewrite bind_Ok. eexists. split; [reflexivity|]. game_simpl. split; [|split].
    + intros r c Hr Hc Ho Hd. rewrite !board_get_cell by (game_simpl; done).
      game_simpl. by rewrite Hb4.
    + intros q Hne Hlt. destruct (Nat.eqb_spec q p); done.
    + eexists. split; [reflexivity|]. by rewrite board_get_cell.
Qed.

Lemma make_move_frame_witness :
  ∃ g',
    make_move new_game 9%nat 4 4 = Ok g'
    ∧ (∀ r c, in8 r = true → in8 c = true →
              (r, c) ≠ (row (objs new_game 9%nat), col (objs new_game 9%nat)) →
              (r, c) ≠ (4, 4) →
              board_get g' r c = board_get new_game r c)
    ∧ (∀ q, q ≠ 9%nat → (q < next_ref new_game)%nat → objs g' q = objs new_game q)
    ∧ ∃ e, move_history g' = move_history new_game ++ [e]
           ∧ board_get new_game 4 4 = Ok (h_captured e).
Proof.
  apply (make_move_frame new_game 9%nat 4 4).
  - vm_compute; reflexivity.
  - vm_compute; reflexivity.
  - vm_compute; reflexivity.
  - vm_compute; reflexivity.
  - intros [H _]. vm_compute in H. discriminate.
  - intros [_ H]. vm_compute in H. discriminate.
Defined.

Lemma castle_rook_spec g p dest_col rk :
  board_shape (board g) = true →
  type (objs g p) = KING → Z.abs (dest_col - col (objs g p)) = 2 →
  in8 (row (objs g p)) = true →
  in8 (if dest_col >? col (objs g p) then 7 else 0) = true →
  in8 (if dest_col >? col (objs g p) then dest_col - 1 else dest_col + 1) = true →
  cell (board g) (row (objs g p)) (if dest_col >? col (objs g p) then 7 else 0) = Some rk →
  castle_rook g p dest_col =
  Ok (set_has_moved
        (set_col
           (set_board g
              (cell_upd
                 (cell_upd (board g) (row (objs g p))
                    (if dest_col >? col (objs g p) then dest_col - 1 else dest_col + 1)
                    (Some rk))
                 (row (objs g p)) (if dest_col >? col (objs g p) then 7 else 0) None))
           rk (if dest_col >? col (objs g p) then dest_col - 1 else dest_col + 1))
        rk).
Proof.
  intros Hshape Hk Habs Hor Hst Hrd Hrk. unfold castle_rook, type_eqb.
  rewrite bool_decide_eq_true_2 by done. rewrite (proj2 (Z.eqb_eq _ _) Habs). cbv zeta.
  rewrite board_get_cell, bind_Ok by done. rewrite Hrk.
  rewrite board_set_cell, bind_Ok by done. game_cbn.
  rewrite board_set_cell, bind_Ok by (try done; by apply cell_upd_shape).
  reflexivity.
Qed.

(** Castling carried out, for a king on the e-file of row [hr] and the
    destination column 6 or 2. *)
Lemma castle_move_spec g p rk hr dest_col :
  board_shape (board g) = true →
  type (objs g p) = KING → row (objs g p) = hr → col (objs g p) = 4 →
  in8 hr = true → cell (board g) hr 4 = Some p →
  dest_col = 6 ∨ dest_col = 2 →
  cell (board g) hr (if dest_col =? 6 then 7 else 0) = Some rk → rk ≠ p →
  ∃ g',
    make_move g p hr dest_col = Ok g'
    ∧ board_get g' hr dest_col = Ok (Some p)
    ∧ board_get g' hr (if dest_col =? 6 then 5 else 3) = Ok (Some rk)
    ∧ board_get g' hr 4 = Ok None
    ∧ board_get g' hr (if dest_col =? 6 then 7 else 0) = Ok None
    ∧ objs g' p = mkPiece KING (color (objs g p)) hr dest_col true
    ∧ objs g' rk = mkPiece (type (objs g rk)) (color (objs g rk)) (row (objs g rk))
                           (if dest_col =? 6 then 5 else 3) true
    ∧ moved_flags g' = match color (objs g p) with
                       | WHITE => <[0%nat := true]> (moved_flags g)
                       | BLACK => <[1%nat := true]> (moved_flags g)
                       end.
Proof.
  intros Hshape Hk Hrow Hcol Hhr Hp Hdc Hrk Hne.
  assert (Hnp : (p =? rk)%nat = false) by (apply Nat.eqb_neq; congruence).
  assert (Hpn : (rk =? p)%nat = false) by (by apply Nat.eqb_neq).
  unfold make_move.
  rewrite (castle_rook_spec g p dest_col rk), bind_Ok;
    try done; rewrite ?Hrow, ?Hcol; try (by destruct Hdc as [-> | ->]).
  unfold capture_en_passant. game_cbn. rewrite Hnp, Hk.
  replace (type_eqb KING PAWN) with false by done. rewrite bind_Ok. cbv zeta.
  unfold record_en_passant. game_cbn. rewrite Hnp, Hk.
  replace (type_eqb KING PAWN) with false by done. cbn [andb].
  set (rd := if dest_col >? 4 then dest_col - 1 else dest_col + 1).
  set (start := if dest_col >? 4 then 7 else 0).
  assert (Hgeo : in8 dest_col = true ∧ in8 rd = true ∧ in8 start = true
                 ∧ rd = (if dest_col =? 6 then 5 else 3)
                 ∧ start = (if dest_col =? 6 then 7 else 0)).
  { subst rd start. by destruct Hdc as [-> | ->]. }
  destruct Hgeo as (Hdc8 & Hrd & Hst & Erd & Est).
  set (b2 := cell_upd (cell_upd (board g) hr rd (Some rk)) hr start None).
  assert (Hs2 : board_shape b2 = true) by (by repeat apply cell_upd_shape).
  rewrite board_get_cell, bind_Ok by (game_cbn; done).
  rewrite relocate_spec, bind_Ok by (game_cbn; rewrite ?Hnp, ?Hrow, ?Hcol; done).
  repeat (progress (game_simpl; rewrite ?Hnp, ?Hpn, ?Hk, ?Hrow, ?Hcol)).
  set (b4 := cell_upd (cell_upd b2 hr dest_col (Some p)) hr 4 None).
  assert (Hs4 : board_shape b4 = true) by (by repeat apply cell_upd_shape).
  assert (Hcells : cell b4 hr dest_col = Some p ∧ cell b4 hr rd = Some rk
                   ∧ cell b4 hr 4 = None ∧ cell b4 hr start = None).
  { subst b4 b2. rewrite !cell_upd_cell by (try done; by repeat apply cell_upd_shape).
    rewrite Erd, Est. destruct Hdc as [-> | ->]; simpl;
      repeat case_decide; simplify_eq; done. }
  destruct Hcells as (Hc1 & Hc2 & Hc3 & Hc4). rewrite Erd in Hc2. rewrite Est in Hc4.
  unfold update_castling_rights, promote.
  destruct (color (objs g p)) eqn:Hcolor;
    repeat (progress (game_simpl; rewrite ?Hnp, ?Hpn, ?Hk, ?Hcolor, ?Hrow, ?Hcol));
    replace (type_eqb KING PAWN) with false by done;
    rewrite bind_Ok;
    (eexists; split; [reflexivity|]);
    rewrite !board_get_cell by (game_cbn; try done; by destruct Hdc as [-> | ->]);
    game_simpl; rewrite ?Hnp, ?Hpn, ?Hk, ?Hcolor, ?Erd; game_simpl;
    rewrite Hc1, Hc2, Hc3, Hc4; repeat split; done.
Qed.

(** X16. Castling is carried out as a king move and a rook move: when the
    castling block offers a square to a king standing on its square of a
    well-formed game, [make_move] puts the king on that square (column 6 or
    2 of its back rank) and the rook from the corner on the square the king
    passed over (column 5 or 3), empties the e-file square and the corner,
    marks both objects as moved, and raises the king flag of that colour
    while leaving the rook flags as they were. *)
Theorem castling_is_carried_out g p dest_row dest_col :
  well_formed g = true → on_board g p = true → type (objs g p) = KING →
  castling_offer g (objs g p) (dest_row, dest_col) →
  let hr := home_row (color (objs g p)) in
  ∃ g' rk,
    make_move g p dest_row dest_col = Ok g'
    ∧ dest_row = hr ∧ (dest_col = 6 ∨ dest_col = 2)
    ∧ board_get g' hr dest_col = Ok (Some p)
    ∧ board_get g' hr (if dest_col =? 6 then 5 else 3) = Ok (Some rk)
    ∧ type (objs g' rk) = ROOK ∧ color (objs g' rk) = color (objs g p)
    ∧ board_get g' hr 4 = Ok None
    ∧ board_get g' hr (if dest_col =? 6 then 7 else 0) = Ok None
    ∧ has_moved (objs g' p) = true ∧ has_moved (objs g' rk) = true
    ∧ (row (objs g' rk), col (objs g' rk)) = (hr, if dest_col =? 6 then 5 else 3)
    ∧ moved_flags g' = match color (objs g p) with
                       | WHITE => <[0%nat := true]> (moved_flags g)
                       | BLACK => <[1%nat := true]> (moved_flags g)
                       end.
Proof.
  intros Hwf Hon Hk [Hm Hoffer] hr.
  pose proof (proj1 (on_board_spec _ _) Hon) as (Hor & Hoc & Hp).
  pose proof (proj1 (well_formed_spec _) Hwf) as [Hshape Hall].
  destruct (Hall _ _ p Hor Hoc Hp) as (_ & _ & _ & Hhome).
  destruct (Hhome Hk Hm) as [Hrow Hcol]. fold hr in Hrow.
  assert (Hhr : in8 hr = true) by (subst hr; by destruct (color (objs g p))).
  rewrite Hrow, Hcol in Hp.
  assert (Hside : dest_row = hr ∧ (dest_col = 6 ∨ dest_col = 2)
                  ∧ rook_at g (hr, if dest_col =? 6 then 7 else 0) (color (objs g p))).
  { subst hr. destruct (color (objs g p)); simpl in *;
      destruct Hoffer as [[[= -> ->] (_ & _ & _ & Hrk)]|[[= -> ->] (_ & _ & _ & Hrk)]];
      auto. }
  destruct Hside as (-> & Hdc & (rk & Hrk & Hrt & Hrc)). simpl in Hrk.
  assert (Hst : in8 (if dest_col =? 6 then 7 else 0) = true)
    by (by destruct Hdc as [-> | ->]).
  destruct (Hall _ _ rk Hhr Hst Hrk) as (Hrkr & Hrkc & _).
  assert (Hne : rk ≠ p).
  { intros ->. rewrite Hcol in Hrkc. destruct Hdc as [-> | ->]; simpl in Hrkc; lia. }
  destruct (castle_move_spec g p rk hr dest_col Hshape Hk Hrow Hcol Hhr Hp Hdc Hrk Hne)
    as (g' & Hmv & H1 & H2 & H3 & H4 & Hop & Hork & Hflags).
  exists g', rk. rewrite Hop, Hork. simpl. rewrite Hrkr.
  repeat split; done.
Qed.

Lemma castling_is_carried_out_witness :
  let hr := home_row (color (objs (position_after castle_ready_line) 25%nat)) in
  ∃ g' rk,
    make_move (position_after castle_ready_line) 25%nat 7 6 = Ok g'
    ∧ 7 = hr ∧ (6 = 6 ∨ 6 = 2)
    ∧ board_get g' hr 6 = Ok (Some 25%nat)
    ∧ board_get g' hr (if 6 =? 6 then 5 else 3) = Ok (Some rk)
    ∧ type (objs g' rk) = ROOK
    ∧ color (objs g' rk) = color (objs (position_after castle_ready_line) 25%nat)
    ∧ board_get g' hr 4 = Ok None
    ∧ board_get g' hr (if 6 =? 6 then 7 else 0) = Ok None
    ∧ has_moved (objs g' 25%nat) = true ∧ has_moved (objs g' rk) = true
    ∧ (row (objs g' rk), col (objs g' rk)) = (hr, if 6 =? 6 then 5 else 3)
    ∧ moved_flags g' =
      match color (objs (position_after castle_ready_line) 25%nat) with
      | WHITE => <[0%nat := true]> (moved_flags (position_after castle_ready_line))
      | BLACK => <[1%nat := true]> (moved_flags (position_after castle_ready_line))
      end.
Proof.
  apply (castling_is_carried_out (position_after castle_ready_line) 25%nat 7 6).
  - vm_compute; reflexivity.
  - vm_compute; reflexivity.
  - vm_compute; reflexivity.
  - unfold castling_offer. split; [vm_compute; reflexivity|].
    replace (color (objs (position_after castle_ready_line) 25%nat)) with WHITE
      by (vm_compute; reflexivity).
    left. split; [reflexivity|]. unfold castle_ready.
    split; [vm_compute; reflexivity|]. split; [vm_compute; reflexivity|]. split.
    + intros b [<-|[<-|[]]]; vm_compute; reflexivity.
    + exists 31%nat. split; [vm_compute; reflexivity|].
      split; vm_compute; reflexivity.
Defined.

(** ** The random mover and the click handler never raise *)

Lemma same_game_sym g g' : same_game g g' → same_game g' g.
Proof.
  intros [E H]. split; [|by intros q; rewrite H]. rewrite E. by destruct g.
Qed.

Lemma applicable_same_game g g' p s :
  same_game g g' → applicable g p s → applicable g' p s.
Proof.
  intros Hsame (Hon & Hr & Hc & Hrook). pose proof Hsame as [_ H].
  split; [by rewrite (same_game_on_board g g' p Hsame)|]. split; [done|].
  split; [done|]. rewrite (same_game_board g g' Hsame), !H. done.
Qed.

Lemma applicable_make_move g p s :
  well_formed g = true → applicable g p s →
  ∃ g', make_move g p s.1 s.2 = Ok g'
        ∧ well_formed g' = true ∧ turn g' = opponent (turn g).
Proof.
  intros Hwf (Hon & Hr & Hc & Hrook). by apply make_move_well_formed.
Qed.

Lemma valid_moves_applicable g p vs g1 :
  well_formed g = true → on_board g p = true →
  get_valid_moves g p = Ok (vs, g1) →
  same_game g g1 ∧ Forall (applicable g p) vs.
Proof.
  intros Hwf Hon Hrun. pose proof (proj1 (well_formed_spec _) Hwf) as [Hshape _].
  destruct (get_valid_moves_sub g p vs g1 Hshape Hon Hrun)
    as (Hsame & moves & Hmoves & Hgood & Hsub).
  split; [done|]. apply Forall_forall. intros s Hs. apply list_elem_of_In in Hs.
  rewrite Forall_forall in Hgood.
  destruct (Hgood s) as (Hr & Hc & _); [by apply list_elem_of_In, Hsub|].
  split; [done|]. split; [done|]. split; [done|].
  by apply (castling_move_has_rook g p moves s Hwf Hon Hmoves (Hsub _ Hs)).
Qed.

Lemma collect_moves_spec sqs :
  ∀ g, well_formed g = true → forallb sq_on_board sqs = true →
       ∃ pm g1, collect_moves g sqs = Ok (pm, g1) ∧ same_game g g1
                ∧ Forall (fun m : ref * Z * Z => applicable g m.1.1 (m.1.2, m.2)) pm.
Proof.
  induction sqs as [|[r c] sqs IH]; intros g Hwf Hon; simpl.
  - exists [], g. split; [done|]. split; [apply same_game_refl|constructor].
  - pose proof (proj1 (well_formed_spec _) Hwf) as [Hshape _].
    simpl in Hon. apply andb_true_iff in Hon as [Hs Hon].
    apply andb_true_iff in Hs as [Hr Hc]. simpl in Hr, Hc.
    rewrite board_get_cell, bind_Ok by done.
    destruct (cell (board g) r c) as [p|] eqn:Hcell; [|by apply IH].
    destruct (color_eqb (color (objs g p)) (turn g)); [|by apply IH].
    destruct (well_formed_piece g r c p Hwf Hr Hc Hcell) as (Hp & _).
    destruct (get_valid_moves_spec g p Hshape Hp) as (vs & g1 & Hrun & Hsame1 & _).
    destruct (valid_moves_applicable g p vs g1 Hwf Hp Hrun) as [_ Happ].
    rewrite Hrun, bind_Ok.
    destruct (IH g1 (well_formed_same_game g g1 Hsame1 Hwf) Hon)
      as (more & g2 & -> & Hsame2 & Hmore).
    rewrite bind_Ok. eexists _, g2. split; [done|].
    split; [by eapply same_game_trans|]. apply Forall_app. split.
    + apply Forall_forall. intros m Hm. apply list_elem_of_In, in_map_iff in Hm
        as ([dr dc] & <- & Hin). simpl.
      rewrite Forall_forall in Happ. by apply (Happ (dr, dc)), list_elem_of_In.
    + eapply Forall_impl; [exact Hmore|]. intros m Hm.
      simpl in Hm. exact (applicable_same_game g1 g _ _ (same_game_sym _ _ Hsame1) Hm).
Qed.

Lemma ai_make_move_spec choice g :
  well_formed g = true →
  ∃ pm g1 g',
    collect_moves g all_squares = Ok (pm, g1)
    ∧ ai_make_move choice g = Ok g' ∧ well_formed g' = true
    ∧ (pm = [] → same_game g g')
    ∧ (pm ≠ [] → turn g' = opponent (turn g)).
Proof.
  intros Hwf.
  destruct (collect_moves_spec all_squares g Hwf all_squares_on_board)
    as (pm & g1 & Hcollect & Hsame & Happ).
  pose proof (well_formed_same_game g g1 Hsame Hwf) as Hwf1.
  unfold ai_make_move. rewrite Hcollect, bind_Ok.
  destruct pm as [|m0 pm0] eqn:Epm.
  - exists [], g1, g1. done.
  - rewrite <- Epm in Happ. rewrite <- Epm.
    assert (Hlen : (choice mod length pm < length pm)%nat)
      by (apply Nat.mod_upper_bound; rewrite Epm; simpl; lia).
    pose proof (nth_In pm m0 Hlen) as Hin.
    destruct (nth (choice mod length pm) pm m0) as [[p dr] dc] eqn:Hm.
    rewrite Forall_forall in Happ.
    pose proof (Happ _ (proj2 (list_elem_of_In _ _) Hin)) as Hap. simpl in Hap.
    destruct (applicable_make_move g1 p (dr, dc) Hwf1 (applicable_same_game g g1 _ _ Hsame Hap))
      as (g' & Hmv & Hwf' & Hturn).
    exists pm, g1, g'. simpl in Hmv. split; [done|]. split; [done|]. split; [done|].
    split; [by rewrite Epm|]. intros _. rewrite Hturn.
    destruct Hsame as [E _]. by rewrite E.
Qed.

(** X17. On a well-formed game the random mover never raises: it collects
    the moves [get_valid_moves] offers the pieces of the side to move; if
    there are none the game is left as it was and the turn does not pass;
    otherwise, whichever element is drawn, it is applied, the result is
    well-formed and the turn passes. *)
Theorem ai_make_move_safe choice g :
  well_formed g = true →
  ∃ pm g1 g',
    collect_moves g all_squares = Ok (pm, g1)
    ∧ ai_make_move choice g = Ok g' ∧ well_formed g' = true
    ∧ (pm = [] → same_game g g')
    ∧ (pm ≠ [] → turn g' = opponent (turn g)).
Proof. apply ai_make_move_spec. Qed.

Lemma ai_make_move_safe_witness :
  ∃ pm g1 g',
    collect_moves (position_after pawn_check_line) all_squares = Ok (pm, g1)
    ∧ ai_make_move 5 (position_after pawn_check_line) = Ok g'
    ∧ well_formed g' = true
    ∧ (pm = [] → same_game (position_after pawn_check_line) g')
    ∧ (pm ≠ [] → turn g' = opponent (turn (position_after pawn_check_line))).
Proof.
  apply (ai_make_move_safe 5 (position_after pawn_check_line)).
  vm_compute; reflexivity.
Defined.

Lemma selection_ok_ext g g' :
  board g' = board g → objs g' = objs g →
  selected_piece g' = selected_piece g → valid_moves g' = valid_moves g →
  selection_ok g → selection_ok g'.
Proof.
  intros Hb Ho Hs Hv. unfold selection_ok, applicable, on_board.
  by rewrite Hb, Ho, Hs, Hv.
Qed.

Lemma board_click_spec player_color choice g sq :
  well_formed g = true → selection_ok g →
  in8 sq.1 = true → in8 sq.2 = true →
  ∃ g', board_click player_color choice g sq = Ok g'
        ∧ well_formed g' = true ∧ selection_ok g'.
Proof.
  intros Hwf Hsel Hr Hc. pose proof (proj1 (well_formed_spec _) Hwf) as [Hshape _].
  unfold board_click. rewrite board_get_cell, bind_Ok by done.
  unfold selection_ok in Hsel. destruct (selected_piece g) as [sp|] eqn:Hsp.
  - (* a piece is selected *)
    assert (Hdone : ∀ g1, well_formed g1 = true →
              ∃ g', Ok (set_selection g1 None []) = Ok g'
                    ∧ well_formed g' = true ∧ selection_ok g').
    { intros g1 Hwf1. eexists. split; [reflexivity|].
      split; [by rewrite (well_formed_ext g1)|done]. }
    destruct (square_in sq (valid_moves g)) eqn:Hin; [|rewrite bind_Ok; by apply Hdone].
    apply square_in_In in Hin. rewrite Forall_forall in Hsel.
    pose proof (Hsel sq (proj2 (list_elem_of_In _ _) Hin)) as Hap.
    destruct (applicable_make_move g sp sq Hwf Hap) as (g1 & -> & Hwf1 & _).
    rewrite bind_Ok. destruct (negb _).
    + destruct (ai_make_move_spec choice g1 Hwf1) as (_ & _ & g2 & _ & -> & Hwf2 & _).
      rewrite bind_Ok. by apply Hdone.
    + rewrite bind_Ok. by apply Hdone.
  - (* nothing is selected *)
    assert (Hnone : ∃ g', Ok g = Ok g' ∧ well_formed g' = true ∧ selection_ok g').
    { exists g. split; [done|]. split; [done|]. unfold selection_ok. by rewrite Hsp. }
    destruct (cell (board g) sq.1 sq.2) as [cp|] eqn:Hcell; [|done].
    destruct (color_eqb (color (objs g cp)) (turn g)); [|done].
    destruct (well_formed_piece g _ _ cp Hwf Hr Hc Hcell) as (Hon & _).
    destruct (get_valid_moves_spec g cp Hshape Hon) as (vs & g1 & Hrun & Hsame & _).
    destruct (valid_moves_applicable g cp vs g1 Hwf Hon Hrun) as [_ Happ].
    rewrite Hrun, bind_Ok. eexists. split; [reflexivity|]. split.
    + rewrite (well_formed_ext g1) by done. by apply (well_formed_same_game g).
    + unfold selection_ok. game_cbn. eapply Forall_impl; [exact Happ|].
      intros s Hs. apply (applicable_same_game g g1 cp s Hsame) in Hs.
      destruct Hs as (H1 & H2 & H3 & H4). done.
Qed.

(** X18. No sequence of clicks on board squares makes the engine raise:
    from a well-formed game whose stored selection (if any) holds moves
    that can be carried out, every such sequence, with any draws of the
    random mover, runs to the end and leaves a game of the same kind. *)
Theorem board_clicks_safe player_color events :
  ∀ g, well_formed g = true → selection_ok g →
       Forall (fun e : nat * Square => in8 e.2.1 = true ∧ in8 e.2.2 = true) events →
       ∃ g', board_clicks player_color g events = Ok g'
             ∧ well_formed g' = true ∧ selection_ok g'.
Proof.
  induction events as [|[choice sq] events IH]; intros g Hwf Hsel Hev; simpl.
  - by exists g.
  - inversion Hev as [|e es [Hr Hc] Hrest]; subst. simpl in Hr, Hc.
    destruct (board_click_spec player_color choice g sq Hwf Hsel Hr Hc)
      as (g1 & -> & Hwf1 & Hsel1).
    rewrite bind_Ok. by apply IH.
Qed.

Lemma board_clicks_safe_witness :
  ∃ g', board_clicks WHITE new_game [(0%nat, (6, 4)); (3%nat, (4, 4)); (1%nat, (0, 0))] = Ok g'
        ∧ well_formed g' = true ∧ selection_ok g'.
Proof.
  apply (board_clicks_safe WHITE [(0%nat, (6, 4)); (3%nat, (4, 4)); (1%nat, (0, 0))] new_game).
  - vm_compute; reflexivity.
  - exact I.
  - repeat constructor.
Defined.

(** ** The start button *)

Lemma alter_insert_cell (b : Board) i j v :
  alter (fun rw : list (option ref) => <[j := v]> rw) i b =
  match b !! i with
  | Some rw => <[i := <[j := v]> rw]> b
  | None => b
  end.
Proof.
  revert i. induction b as [|rw b IH]; intros [|i]; try reflexivity.
  change (rw :: alter (fun rw0 : list (option ref) => <[j := v]> rw0) i b =
          match b !! i with
          | Some x => rw :: <[i := <[j := v]> x]> b
          | None => rw :: b
          end).
  rewrite IH. by destruct (b !! i).
Qed.

(** While [create_initial_board] fills its local board: the pieces placed
    so far are well-formed, and the rest of the game object is untouched. *)
Lemma place_spec t k r c (st : Board * ChessGame) g0 :
  in8 r = true → in8 c = true →
  (t = KING → r = home_row k ∧ c = 4) →
  well_formed (set_board st.2 st.1) = true
  ∧ set_objs (set_next_ref st.2 (next_ref g0)) (objs g0) = g0 →
  well_formed (set_board (place t k r c st).2 (place t k r c st).1) = true
  ∧ set_objs (set_next_ref (place t k r c st).2 (next_ref g0)) (objs g0) = g0.
Proof.
  intros Hr Hc Hking [Hwf Hrest]. destruct st as [b g]. unfold place.
  cbn [fst snd new_piece] in *. split; [|done].
  apply well_formed_spec in Hwf as [Hshape Hall]. game_cbn.
  rewrite alter_insert_cell. fold (cell_upd b r c (Some (next_ref g))).
  apply well_formed_spec. game_cbn. split; [by apply cell_upd_shape|].
  intros r' c' q Hr' Hc'. rewrite cell_upd_cell by done. case_decide as Hd.
  - intros [= <-]. injection Hd as -> ->. unfold piece_ok. game_simpl.
    split; [done|]. split; [done|]. split; [lia|]. intros Ht _. by apply Hking.
  - intros Hcell. pose proof (Hall r' c' q Hr' Hc' Hcell) as (Hqr & Hqc & Hqlt & Hqk).
    unfold piece_ok in *. game_cbn.
    rewrite (proj2 (Nat.eqb_neq q (next_ref g))) by lia.
    split; [done|]. split; [done|]. split; [lia|done].
Qed.

Lemma create_initial_board_spec g :
  well_formed (set_board (create_initial_board g).2 (create_initial_board g).1) = true
  ∧ set_objs (set_next_ref (create_initial_board g).2 (next_ref g)) (objs g) = g.
Proof.
  unfold create_initial_board, range8, back_row.
  cbn [foldl zip zip_with fst snd].
  repeat (apply place_spec; [reflexivity|reflexivity|
            first [discriminate | (intros _; split; reflexivity)]|]).
  cbn [fst snd]. split.
  - apply well_formed_spec. game_cbn. split; [done|].
    intros r c q _ _ Hcell. unfold cell in Hcell.
    destruct (replicate 8 (replicate 8 (@None ref)) !! Z.to_nat r) as [rw|] eqn:E1;
      [|done].
    apply lookup_replicate in E1 as [-> _].
    destruct (replicate 8 (@None ref) !! Z.to_nat c) as [v|] eqn:E2; [|done].
    apply lookup_replicate in E2 as [-> _]. done.
  - by destruct g.
Qed.

Lemma start_game_spec g :
  well_formed (start_game g) = true
  ∧ turn (start_game g) = WHITE ∧ selected_piece (start_game g) = None
  ∧ moved_flags (start_game g) = moved_flags g
  ∧ en_passant_target (start_game g) = en_passant_target g
  ∧ move_history (start_game g) = move_history g.
Proof.
  destruct (create_initial_board_spec g) as [Hwf Hrest].
  unfold start_game. destruct (create_initial_board g) as [b g1].
  cbn [fst snd] in *.
  split; [by rewrite (well_formed_ext (set_board g1 b))|].
  split; [done|]. split; [done|].
  clear Hwf. destruct g, g1. unfold moved_flags, set_selection, set_turn, set_board.
  unfold set_objs, set_next_ref in Hrest. cbn in *.
  injection Hrest. intros. subst. done.
Qed.

(** X19. The start button always produces a well-formed position with
    White to move and nothing selected, whatever game was played before;
    it carries over the castling tracking flags, the en-passant target and
    the move history of that game. *)
Theorem start_game_keeps_flags g :
  well_formed (start_game g) = true
  ∧ turn (start_game g) = WHITE ∧ selected_piece (start_game g) = None
  ∧ moved_flags (start_game g) = moved_flags g
  ∧ en_passant_target (start_game g) = en_passant_target g
  ∧ move_history (start_game g) = move_history g.
Proof. apply start_game_spec. Qed.

(** X20. Castling lost in one game stays lost in the next: if the king
    flag of a colour was raised when the start button was pressed, the
    castling block offers no square to a king of that colour in any
    position of the new game. *)
Theorem castling_lost_across_restart g k ms g' p s :
  king_moved g k = true → play (start_game g) ms = Some g' →
  color (objs g' p) = k → ¬ castling_offer g' (objs g' p) s.
Proof.
  intros Hflag Hplay Hk [_ Hoffer].
  destruct (start_game_spec g) as (Hwf & _ & _ & Hflags & _).
  pose proof (play_flags_le ms (start_game g) g' Hwf Hplay) as Hmono.
  rewrite Hflags in Hmono. unfold moved_flags in Hmono.
  apply Forall2_cons in Hmono as [Hwk Hmono].
  apply Forall2_cons in Hmono as [Hbk _].
  rewrite Hk in Hoffer. destruct k; simpl in Hflag.
  - specialize (Hwk Hflag).
    destruct Hoffer as [[_ (Hkm & _)]|[_ (Hkm & _)]]; congruence.
  - specialize (Hbk Hflag).
    destruct Hoffer as [[_ (Hkm & _)]|[_ (Hkm & _)]]; congruence.
Qed.

Lemma castling_lost_across_restart_witness :
  ¬ castling_offer position_after_restart (objs position_after_restart 57%nat) (7, 6).
Proof.
  apply (castling_lost_across_restart (position_after pawn_check_line) WHITE
           castle_ready_line position_after_restart 57%nat (7, 6)).
  - vm_compute; reflexivity.
  - vm_compute; reflexivity.
  - vm_compute; reflexivity.
Defined.
